(** * TaskPlanner core: metadata codec, label taxonomy, repository, views

    A shallow embedding of the translation layer of TaskPlanner, the
    module [core/github.js] in its gh-CLI variant (the last part of
    [src/core/ghcli.js], from "GitHub Integration via gh CLI" on), with
    the constants of [src/types/index.js], and the properties stated
    about it.

    Conventions of the embedding.
    - A JavaScript string is the list of its code units ([jsstring]); the
      model covers code units below 256, which is enough for every literal
      the module matches on.
    - A JavaScript value is a tagged union ([value]).  Inside the codec a
      number only travels between text and value, so it is kept as an
      exact decimal ([num]): reading a literal and printing a number
      follow StringToNumber and Number::toString, without the rounding to
      binary64.  The model coincides with IEEE doubles on literals of at
      most 15 significant digits whose magnitude a double can hold.  The
      one place where the module does arithmetic on numbers (the
      completion rate) uses the binary64 operations of [SpecFloat].
    - An object used as a dictionary is the list of its own properties in
      enumeration order ([obj]).  What an object created by [{}] inherits
      is modelled where the module reads or writes a key it did not
      choose: the accessor [__proto__] in the decoder, and the inherited
      names in the counters and in the lookups of the label tables.
    - A thrown exception is the result [None]; [async] functions are
      modelled by their sequential bodies.
    - The remote store and the host collation are external: the store is
      modelled at the interface of the commands the module issues, the
      collation is a parameter. *)

From Stdlib Require Import Ascii String.
From Stdlib Require Import List ZArith Lia Bool Arith.
From Stdlib Require Import Permutation Sorted.
From Stdlib Require Import Floats.SpecFloat.
Import ListNotations.

Set Implicit Arguments.

(** ** Strings *)

Definition jsstring := list ascii.

Definition js (s : string) : jsstring := list_ascii_of_string s.

Definition nl : ascii := ascii_of_nat 10.

Definition code (c : ascii) : nat := nat_of_ascii c.

Fixpoint str_eqb (a b : jsstring) : bool :=
  match a, b with
  | [], [] => true
  | x :: a', y :: b' => Ascii.eqb x y && str_eqb a' b'
  | _, _ => false
  end.

(** [a < b] on strings: lexicographic on code units. *)
Fixpoint str_ltb (a b : jsstring) : bool :=
  match a, b with
  | _, [] => false
  | [], _ :: _ => true
  | x :: a', y :: b' =>
      if code x <? code y then true
      else if code y <? code x then false
      else str_ltb a' b'
  end.

(** [s.startsWith(p)] *)
Fixpoint startsWith (p s : jsstring) : bool :=
  match p, s with
  | [], _ => true
  | x :: p', y :: s' => Ascii.eqb x y && startsWith p' s'
  | _ :: _, [] => false
  end.

(** White space and line terminators, as removed by [trim] and skipped by
    the string-to-number conversion: TAB, LF, VT, FF, CR, SP, NBSP. *)
Definition is_ws (c : ascii) : bool :=
  let n := code c in
  ((9 <=? n) && (n <=? 13)) || (n =? 32) || (n =? 160).

Fixpoint dropWhile (A : Type) (p : A -> bool) (l : list A) : list A :=
  match l with
  | [] => []
  | x :: l' => if p x then dropWhile p l' else l
  end.

Definition trimStart (s : jsstring) : jsstring := dropWhile is_ws s.
Definition trimEnd (s : jsstring) : jsstring := rev (dropWhile is_ws (rev s)).
Definition trim (s : jsstring) : jsstring := trimEnd (trimStart s).

(** [s.split(sep)] for a one-character separator: always at least one
    piece. *)
Fixpoint split (sep : ascii) (s : jsstring) : list jsstring :=
  match s with
  | [] => [[]]
  | c :: s' =>
      if Ascii.eqb c sep then [] :: split sep s'
      else match split sep s' with
           | [] => [[c]]
           | p :: ps => (c :: p) :: ps
           end
  end.

(** [pieces.join(sep)] *)
Fixpoint join (sep : jsstring) (pieces : list jsstring) : jsstring :=
  match pieces with
  | [] => []
  | [p] => p
  | p :: ps => p ++ sep ++ join sep ps
  end.

(** The text before the first character satisfying [p] and the text after
    that character. *)
Fixpoint cutWhere (p : ascii -> bool) (s : jsstring)
  : option (jsstring * jsstring) :=
  match s with
  | [] => None
  | x :: s' =>
      if p x then Some ([], s')
      else match cutWhere p s' with
           | Some (l, r) => Some (x :: l, r)
           | None => None
           end
  end.

(** [s.indexOf(c)] as a cut: [slice(0, idx)] and [slice(idx + 1)]; [None]
    when [indexOf] is -1. *)
Definition cutAt (c : ascii) (s : jsstring) : option (jsstring * jsstring) :=
  cutWhere (fun x => Ascii.eqb x c) s.

(** First occurrence of the pattern [p] in [s]: the text before it and the
    text after it. *)
Fixpoint findSub (p s : jsstring) : option (jsstring * jsstring) :=
  if startsWith p s then Some ([], skipn (length p) s)
  else match s with
       | [] => None
       | x :: s' =>
           match findSub p s' with
           | Some (l, r) => Some (x :: l, r)
           | None => None
           end
       end.

(** ** Numbers

    [Dec m scale] is the number [m / 10 ^ scale]; the normal form has
    [scale = 0] or [m] not divisible by ten.  [Inf] is plus or minus
    infinity.  NaN is not a [num]: a conversion that yields NaN returns
    [None].  The sign of zero is not modelled. *)

Inductive num : Type :=
| Dec (m : Z) (scale : nat)
| Inf (negative : bool).

Definition hexDigitOf (c : ascii) : option Z :=
  let n := code c in
  if (48 <=? n) && (n <=? 57) then Some (Z.of_nat (n - 48))
  else if (97 <=? n) && (n <=? 102) then Some (Z.of_nat (n - 87))
  else if (65 <=? n) && (n <=? 70) then Some (Z.of_nat (n - 55))
  else None.

Definition radixDigit (radix : Z) (c : ascii) : option Z :=
  match hexDigitOf c with
  | Some d => if (d <? radix)%Z then Some d else None
  | None => None
  end.

Fixpoint digitsValue (radix acc : Z) (s : jsstring) : option Z :=
  match s with
  | [] => Some acc
  | c :: s' =>
      match radixDigit radix c with
      | Some d => digitsValue radix (radix * acc + d)%Z s'
      | None => None
      end
  end.

(** A non-empty run of digits of the given radix. *)
Definition numeral (radix : Z) (s : jsstring) : option Z :=
  match s with
  | [] => None
  | _ => digitsValue radix 0%Z s
  end.

Fixpoint normalize (m : Z) (scale : nat) : num :=
  match scale with
  | O => Dec m 0
  | S k => if (m mod 10 =? 0)%Z then normalize (m / 10)%Z k else Dec m scale
  end.

Definition negate (x : num) : num :=
  match x with
  | Dec m scale => Dec (- m)%Z scale
  | Inf b => Inf (negb b)
  end.

(** [ExponentPart] without its indicator: an optional sign and digits. *)
Definition parseExponent (s : jsstring) : option Z :=
  match s with
  | c :: s' =>
      if Ascii.eqb c "-" then option_map Z.opp (numeral 10%Z s')
      else if Ascii.eqb c "+" then numeral 10%Z s'
      else numeral 10%Z s
  | [] => None
  end.

(** [StrUnsignedDecimalLiteral]: [Infinity], or digits with an optional
    fraction and an optional exponent, at least one digit in the
    mantissa. *)
Definition parseUnsignedDecimal (s : jsstring) : option num :=
  if str_eqb s (js "Infinity") then Some (Inf false)
  else
    let (mant, expo) :=
      match cutWhere (fun c => Ascii.eqb c "e" || Ascii.eqb c "E") s with
      | Some (m, x) => (m, Some x)
      | None => (s, None)
      end in
    let (ipart, fpart) :=
      match cutAt "." mant with
      | Some (i, f) => (i, f)
      | None => (mant, [])
      end in
    match ipart ++ fpart with
    | [] => None
    | _ =>
        match digitsValue 10%Z 0%Z ipart, digitsValue 10%Z 0%Z fpart,
              digitsValue 10%Z 0%Z (ipart ++ fpart),
              match expo with
              | Some x => parseExponent x
              | None => Some 0%Z
              end with
        | Some _, Some _, Some mval, Some e =>
            let scale := Z.of_nat (length fpart) in
            if (scale <=? e)%Z then Some (Dec (mval * 10 ^ (e - scale))%Z 0)
            else Some (normalize mval (Z.to_nat (scale - e)))
        | _, _, _, _ => None
        end
    end.

Definition parseSignedDecimal (s : jsstring) : option num :=
  match s with
  | c :: s' =>
      if Ascii.eqb c "-" then option_map negate (parseUnsignedDecimal s')
      else if Ascii.eqb c "+" then parseUnsignedDecimal s'
      else parseUnsignedDecimal s
  | [] => None
  end.

Definition prefixedBy (a b : ascii) (s : jsstring) : option jsstring :=
  match s with
  | z :: x :: s' =>
      if Ascii.eqb z "0" && (Ascii.eqb x a || Ascii.eqb x b) then Some s'
      else None
  | _ => None
  end.

(** [Number(s)] on a string, i.e. StringToNumber; [None] stands for NaN. *)
Definition Number (s : jsstring) : option num :=
  match trim s with
  | [] => Some (Dec 0 0)
  | t =>
      match prefixedBy "x" "X" t, prefixedBy "o" "O" t, prefixedBy "b" "B" t with
      | Some h, _, _ => option_map (fun v => Dec v 0) (numeral 16%Z h)
      | _, Some o, _ => option_map (fun v => Dec v 0) (numeral 8%Z o)
      | _, _, Some b => option_map (fun v => Dec v 0) (numeral 2%Z b)
      | None, None, None => parseSignedDecimal t
      end
  end.

(** [isNaN(s)] on a string *)
Definition isNaN (s : jsstring) : bool :=
  match Number s with
  | Some _ => false
  | None => true
  end.

(** Decimal digits of a non-negative integer, most significant first. *)
Fixpoint digitsAux (fuel : nat) (n : Z) (acc : list Z) : list Z :=
  match fuel with
  | O => acc
  | S f =>
      if (n <? 10)%Z then n :: acc
      else digitsAux f (n / 10)%Z ((n mod 10)%Z :: acc)
  end.

Definition digitsOf (n : Z) : list Z :=
  digitsAux (S (Z.to_nat (Z.log2 n))) n [].

Definition digitChar (d : Z) : ascii := ascii_of_nat (48 + Z.to_nat d).

Definition digitChars (ds : list Z) : jsstring := map digitChar ds.

Definition stripTrailingZeros (ds : list Z) : list Z :=
  rev (dropWhile (Z.eqb 0) (rev ds)).

(** The four layouts of Number::toString for a positive number with
    significant digits [sd] ([k] of them) and decimal point position [n]. *)
Definition renderDigits (sd : list Z) (n : Z) : jsstring :=
  let k := Z.of_nat (length sd) in
  if ((k <=? n) && (n <=? 21))%Z then
    digitChars sd ++ repeat "0"%char (Z.to_nat (n - k))
  else if ((0 <? n) && (n <=? 21))%Z then
    digitChars (firstn (Z.to_nat n) sd) ++ js "."
      ++ digitChars (skipn (Z.to_nat n) sd)
  else if ((-6 <? n) && (n <=? 0))%Z then
    js "0." ++ repeat "0"%char (Z.to_nat (- n)) ++ digitChars sd
  else
    let e := (n - 1)%Z in
    let es := (if (e <? 0)%Z then js "-" else js "+")
                ++ digitChars (digitsOf (Z.abs e)) in
    match sd with
    | [d] => digitChars [d] ++ js "e" ++ es
    | d :: rest => digitChars [d] ++ js "." ++ digitChars rest ++ js "e" ++ es
    | [] => []
    end.

(** Number::toString, as used by template literals. *)
Definition numToString (x : num) : jsstring :=
  match x with
  | Inf neg => (if neg then js "-" else []) ++ js "Infinity"
  | Dec m scale =>
      if (m =? 0)%Z then js "0"
      else
        let ds := digitsOf (Z.abs m) in
        (if (m <? 0)%Z then js "-" else [])
          ++ renderDigits (stripTrailingZeros ds)
               (Z.of_nat (length ds) - Z.of_nat scale)%Z
  end.

Definition num_ltb (x y : num) : bool :=
  match x, y with
  | Dec m1 s1, Dec m2 s2 =>
      (m1 * 10 ^ Z.of_nat s2 <? m2 * 10 ^ Z.of_nat s1)%Z
  | Inf true, Inf true => false
  | Inf true, _ => true
  | _, Inf true => false
  | Inf false, _ => false
  | Dec _ _, Inf false => true
  end.

Definition num_isZero (x : num) : bool :=
  match x with
  | Dec m _ => (m =? 0)%Z
  | Inf _ => false
  end.

(** ** Values *)

Inductive value : Type :=
| VUndefined
| VNull
| VBool (b : bool)
| VNum (n : num)
| VStr (s : jsstring)
| VArr (items : list jsstring).

(** ToString, as applied by template literals and by string methods to
    their arguments. *)
Definition ToString (v : value) : jsstring :=
  match v with
  | VUndefined => js "undefined"
  | VNull => js "null"
  | VBool true => js "true"
  | VBool false => js "false"
  | VNum n => numToString n
  | VStr s => s
  | VArr items => join (js ",") items
  end.

Definition truthy (v : value) : bool :=
  match v with
  | VUndefined | VNull => false
  | VBool b => b
  | VNum n => negb (num_isZero n)
  | VStr s => negb (str_eqb s [])
  | VArr _ => true
  end.

(** [a || b] *)
Definition js_or (a b : value) : value := if truthy a then a else b.

(** [v === s] for a string [s] *)
Definition strictEqStr (v : value) (s : jsstring) : bool :=
  match v with
  | VStr x => str_eqb x s
  | _ => false
  end.

(** [v < s] for a string [s]: two strings compare by code units (an array
    first becomes its joined text); otherwise both sides become numbers
    and a NaN makes the comparison false. *)
Definition ltStr (v : value) (s : jsstring) : bool :=
  let againstNumber (x : num) :=
    match Number s with
    | Some y => num_ltb x y
    | None => false
    end in
  match v with
  | VStr x => str_ltb x s
  | VArr items => str_ltb (join (js ",") items) s
  | VNum x => againstNumber x
  | VBool b => againstNumber (Dec (if b then 1 else 0) 0)
  | VNull => againstNumber (Dec 0 0)
  | VUndefined => false
  end.

(** ** Objects used as dictionaries

    The list of own properties in enumeration order: array-index keys in
    ascending numeric order first, then the other keys in insertion
    order. *)

Definition obj := list (jsstring * value).

(** The canonical numeric strings of 0 .. 2^32 - 2. *)
Definition arrayIndex (k : jsstring) : option Z :=
  match k with
  | [] => None
  | c :: rest =>
      if Ascii.eqb c "0" && negb (str_eqb rest []) then None
      else match numeral 10%Z k with
           | Some v => if (v <=? 4294967294)%Z then Some v else None
           | None => None
           end
  end.

Definition hasOwn (k : jsstring) (o : obj) : bool :=
  existsb (fun p => str_eqb (fst p) k) o.

(** [o[k]]; own properties only, none of the keys read by this module is
    inherited. *)
Fixpoint obj_get (k : jsstring) (o : obj) : value :=
  match o with
  | [] => VUndefined
  | (k', v) :: o' => if str_eqb k' k then v else obj_get k o'
  end.

Fixpoint replaceProp (k : jsstring) (v : value) (o : obj) : obj :=
  match o with
  | [] => []
  | (k', v') :: o' =>
      if str_eqb k' k then (k', v) :: o' else (k', v') :: replaceProp k v o'
  end.

Fixpoint insertIndexed (i : Z) (k : jsstring) (v : value) (o : obj) : obj :=
  match o with
  | [] => [(k, v)]
  | (k', v') :: o' =>
      match arrayIndex k' with
      | Some j =>
          if (j <? i)%Z then (k', v') :: insertIndexed i k v o'
          else (k, v) :: o
      | None => (k, v) :: o
      end
  end.

(** The own property [k] is given the value [v]: in place when it exists,
    in enumeration order otherwise. *)
Definition defineOwn (k : jsstring) (v : value) (o : obj) : obj :=
  if hasOwn k o then replaceProp k v o
  else match arrayIndex k with
       | Some i => insertIndexed i k v o
       | None => o ++ [(k, v)]
       end.

(** [o[k] = v] on an object that has the prototype of [{}], for a
    primitive [v].  The key [__proto__] is the inherited accessor:
    assigning through it creates no property (assigning [null] removes the
    prototype, which the own properties do not show). *)
Definition obj_set (k : jsstring) (v : value) (o : obj) : obj :=
  if str_eqb k (js "__proto__") then o else defineOwn k v o.

(** The property names every object literal inherits; each is truthy. *)
Definition inheritedKeys : list jsstring :=
  map js [ "constructor"; "__defineGetter__"; "__defineSetter__";
           "hasOwnProperty"; "__lookupGetter__"; "__lookupSetter__";
           "isPrototypeOf"; "propertyIsEnumerable"; "toString"; "valueOf";
           "__proto__"; "toLocaleString" ]%string.

(** The text of the value an object literal inherits under the name [k]:
    under [__proto__] the prototype itself, under [constructor] the
    function [Object], under any other inherited name the built-in
    function of that name. *)
Definition inheritedText (k : jsstring) : option jsstring :=
  if str_eqb k (js "__proto__") then Some (js "[object Object]")
  else if str_eqb k (js "constructor") then
    Some (js "function Object() { [native code] }")
  else if existsb (str_eqb k) inheritedKeys then
    Some (js "function " ++ k ++ js "() { [native code] }")
  else None.

(** ** YAML front matter (github.js, "YAML Front-Matter") *)

Record FrontMatter : Type := { meta : obj; description : jsstring }.

Definition delimiter : jsstring := js "---".

(** The match of the body against the front-matter pattern (start of
    input, delimiter, line break, a lazy group of any characters, line
    break, delimiter, an optional line break, a greedy group of any
    characters, end of input): the two captured groups.  The lazy first
    group ends at the first line break followed by the delimiter; one line
    break after it is skipped; the second group is the rest of the body. *)
Definition matchFrontMatter (body : jsstring) : option (jsstring * jsstring) :=
  if startsWith (delimiter ++ [nl]) body then
    match findSub (nl :: delimiter) (skipn 4 body) with
    | Some (yaml, rest) =>
        Some (yaml,
              match rest with
              | c :: rest' => if Ascii.eqb c nl then rest' else rest
              | [] => []
              end)
    | None => None
    end
  else None.

(** The scalar coercion applied to a trimmed value text. *)
Definition coerce (text : jsstring) : value :=
  if str_eqb text (js "true") then VBool true
  else if str_eqb text (js "false") then VBool false
  else if str_eqb text (js "null") || str_eqb text [] then VNull
  else if negb (isNaN text) && negb (str_eqb text []) then
    match Number text with
    | Some n => VNum n
    | None => VStr text
    end
  else VStr text.

(** [meta[key] = value] in the loop over the lines.  The object [meta]
    is created by [{}]; it is followed as the pair of whether its
    prototype has been removed and its own properties.  While it has its
    prototype, [__proto__] is the inherited accessor: the value [null]
    removes the prototype, any other value the loop can produce is
    ignored.  Once the prototype is gone, [__proto__] is a key like any
    other. *)
Definition assignMeta (k : jsstring) (v : value) (m : bool * obj) : bool * obj :=
  let (bare, o) := m in
  if str_eqb k (js "__proto__") then
    if bare then (true, defineOwn k v o)
    else (match v with VNull => true | _ => false end, o)
  else (bare, obj_set k v o).

(** One iteration of the loop over the lines. *)
Definition parseLine (m : bool * obj) (line : jsstring) : bool * obj :=
  match cutAt ":" line with
  | None => m
  | Some (k, v) => assignMeta (trim k) (coerce (trim v)) m
  end.

(** The object [meta] after the loop over the lines, and its own
    properties, which are all that the module reads of it. *)
Definition parseLines (lines : list jsstring) : bool * obj :=
  fold_left parseLine lines (false, []).

Definition parseYamlFrontMatter (body : jsstring) : FrontMatter :=
  match body with
  | [] => {| meta := []; description := [] |}
  | _ =>
      match matchFrontMatter body with
      | None => {| meta := []; description := body |}
      | Some (yaml, rest) =>
          {| meta := snd (parseLines (split nl yaml));
             description := trim rest |}
      end
  end.

Definition metaLine (p : jsstring * value) : jsstring :=
  let (key, v) := p in
  match v with
  | VArr items => key ++ js ": " ++ join (js ", ") items
  | _ => key ++ js ": " ++ ToString v
  end.

Definition buildYamlFrontMatter (m : obj) (descr : jsstring) : jsstring :=
  join [nl] ([delimiter] ++ map metaLine m ++ [delimiter; []; descr]).

(** ** Label vocabulary (types/index.js) *)

(** Constant tables are lists of entries in declaration order, which is
    the order [Object.entries] and [Object.values] enumerate them in. *)
Definition STATUS_LABELS : list (jsstring * jsstring) :=
  [ (js "todo", js "tp:todo");
    (js "in-progress", js "tp:in-progress");
    (js "done", js "tp:done");
    (js "blocked", js "tp:blocked") ].

Definition PRIORITY_LABELS : list (jsstring * jsstring) :=
  [ (js "urgent", js "tp:urgent");
    (js "high", js "tp:high");
    (js "medium", js "tp:medium");
    (js "low", js "tp:low") ].

Definition PRIORITY_ORDER : list (jsstring * Z) :=
  [ (js "urgent", 0%Z); (js "high", 1%Z); (js "medium", 2%Z); (js "low", 3%Z) ].

(** [table[k]] on a constant table; [None] is [undefined]. *)
Fixpoint lookup (A : Type) (k : jsstring) (table : list (jsstring * A))
  : option A :=
  match table with
  | [] => None
  | (k', v) :: rest => if str_eqb k' k then Some v else lookup k rest
  end.

(** [names.includes(n)] *)
Definition includes (n : jsstring) (names : list jsstring) : bool :=
  existsb (str_eqb n) names.

(** The eight fixed label names. *)
Definition systemLabels : list jsstring :=
  map snd STATUS_LABELS ++ map snd PRIORITY_LABELS.

Definition isSystemLabel (n : jsstring) : bool := includes n systemLabels.

(** ** Label helpers (github.js, "Label Helpers") *)

(** A label arrives either as a bare name or as an object with a [name]. *)
Inductive Label : Type :=
| LabelString (s : jsstring)
| LabelObject (name : jsstring).

(** [typeof l === 'string' ? l : l.name] *)
Definition labelName (l : Label) : jsstring :=
  match l with
  | LabelString s => s
  | LabelObject n => n
  end.

(** The loop [for (const [key, label] of Object.entries(table))] that
    returns the first key whose label is included. *)
Fixpoint firstIncluded (table : list (jsstring * jsstring))
  (labelNames : list jsstring) : option jsstring :=
  match table with
  | [] => None
  | (key, label) :: rest =>
      if includes label labelNames then Some key
      else firstIncluded rest labelNames
  end.

Definition getStatusFromLabels (labels : list Label) : jsstring :=
  let labelNames := map labelName labels in
  match firstIncluded STATUS_LABELS labelNames with
  | Some status => status
  | None => js "todo"
  end.

Definition getPriorityFromLabels (labels : list Label) : jsstring :=
  let labelNames := map labelName labels in
  match firstIncluded PRIORITY_LABELS labelNames with
  | Some priority => priority
  | None => js "medium"
  end.

Definition getUserLabels (labels : list Label) : list jsstring :=
  let labelNames := map labelName labels in
  filter (fun n => negb (startsWith (js "tp:") n)) labelNames.

(** ** Issue to task conversion (github.js, "Issue -> Task Conversion") *)

Module Issue.
(** A remote issue.  The fields up to [url] are the ones the module
    reads; [state_reason] lives in the remote store only (it is not
    among the requested [ISSUE_FIELDS]).  A missing label list is the
    empty list; [assignees] holds the logins. *)
Record t : Type := {
  number : Z;
  title : jsstring;
  body : option jsstring;
  state : jsstring;
  labels : list Label;
  assignees : list jsstring;
  assignee : option jsstring;
  milestone : option (Z * jsstring);
  createdAt : option jsstring;
  created_at : option jsstring;
  updatedAt : option jsstring;
  updated_at : option jsstring;
  html_url : option jsstring;
  url : option jsstring;
  state_reason : option jsstring
}.
End Issue.

Module Task.
Record t : Type := {
  id : Z;
  title : jsstring;
  body : jsstring;
  status : jsstring;
  priority : value;
  due_date : value;
  labels : list jsstring;
  assignee : option jsstring;
  sprint_id : option Z;
  sprint_name : option jsstring;
  my_day : value;
  estimated_hours : value;
  actual_hours : value;
  tags : value;
  parent_task : value;
  created_at : jsstring;
  updated_at : jsstring;
  html_url : jsstring
}.
End Task.

(** [a || b] where [a] is an optional string: absent and empty are falsy. *)
Definition orElse (a b : option jsstring) : option jsstring :=
  match a with
  | Some (_ :: _) => a
  | _ => b
  end.

Definition orEmpty (a : option jsstring) : jsstring :=
  match a with
  | Some s => s
  | None => []
  end.

Definition issueToTask (issue : Issue.t) : Task.t :=
  let body := orEmpty (Issue.body issue) in
  let fm := parseYamlFrontMatter body in
  let m := meta fm in
  let labels :=
    map (fun l => LabelObject (labelName l)) (Issue.labels issue) in
  {| Task.id := Issue.number issue;
     Task.title := Issue.title issue;
     Task.body := description fm;
     Task.status := getStatusFromLabels labels;
     Task.priority :=
       js_or (VStr (getPriorityFromLabels labels))
         (js_or (obj_get (js "priority") m) (VStr (js "medium")));
     Task.due_date := js_or (obj_get (js "due_date") m) VNull;
     Task.labels := getUserLabels labels;
     Task.assignee :=
       orElse (hd_error (Issue.assignees issue)) (orElse (Issue.assignee issue) None);
     Task.sprint_id :=
       match Issue.milestone issue with
       | Some (n, _) => if (n =? 0)%Z then None else Some n
       | None => None
       end;
     Task.sprint_name :=
       match Issue.milestone issue with
       | Some (_, t) => orElse (Some t) None
       | None => None
       end;
     Task.my_day := js_or (obj_get (js "my_day") m) (VBool false);
     Task.estimated_hours := js_or (obj_get (js "estimated_hours") m) (VNum (Dec 0 0));
     Task.actual_hours := js_or (obj_get (js "actual_hours") m) (VNum (Dec 0 0));
     Task.tags := js_or (obj_get (js "tags") m) (VArr []);
     Task.parent_task := js_or (obj_get (js "parent_task") m) VNull;
     Task.created_at :=
       orEmpty (orElse (Issue.createdAt issue) (orElse (Issue.created_at issue) None));
     Task.updated_at :=
       orEmpty (orElse (Issue.updatedAt issue) (orElse (Issue.updated_at issue) None));
     Task.html_url :=
       orEmpty (orElse (Issue.html_url issue) (orElse (Issue.url issue) None)) |}.

(** ** The remote store and the gh commands the module issues

    The tracker is an external collaborator; it is modelled at its
    interface.  A store holds the issues in the order the tracker lists
    them, the milestones by number, and the logins that can be assigned
    in the repository.  The tracker holds the state of an issue as [open]
    or [closed]: these are the words of the REST interface and of the
    [--state] argument, whereas the JSON that [gh] prints has the state in
    capital letters.  The time stamps of an issue are kept as they are
    stored: the tracker moves the stamp of the last update on its own at
    every change, which the model leaves out. *)

Module Store.
Record t : Type := {
  issues : list Issue.t;
  milestones : list (Z * jsstring);
  assignable : list jsstring
}.
End Store.

Fixpoint lookup_Z (A : Type) (k : Z) (table : list (Z * A)) : option A :=
  match table with
  | [] => None
  | (k', v) :: rest => if (k' =? k)%Z then Some v else lookup_Z k rest
  end.

Definition withIssues (s : Store.t) (l : list Issue.t) : Store.t :=
  {| Store.issues := l; Store.milestones := Store.milestones s;
     Store.assignable := Store.assignable s |}.

(** The issue numbered [n] as the tracker holds it. *)
Definition storedIssue (s : Store.t) (n : Z) : option Issue.t :=
  find (fun i => (Issue.number i =? n)%Z) (Store.issues s).

Definition upperCase (c : ascii) : ascii :=
  let n := code c in
  if (97 <=? n) && (n <=? 122) then ascii_of_nat (n - 32) else c.

(** An issue as [gh] prints it for [--json ISSUE_FIELDS]: the state in
    capital letters ([OPEN], [CLOSED]); the reason of the state is not
    among the fields. *)
Definition ghJson (i : Issue.t) : Issue.t :=
  {| Issue.number := Issue.number i; Issue.title := Issue.title i;
     Issue.body := Issue.body i; Issue.state := map upperCase (Issue.state i);
     Issue.labels := Issue.labels i; Issue.assignees := Issue.assignees i;
     Issue.assignee := Issue.assignee i; Issue.milestone := Issue.milestone i;
     Issue.createdAt := Issue.createdAt i; Issue.created_at := Issue.created_at i;
     Issue.updatedAt := Issue.updatedAt i; Issue.updated_at := Issue.updated_at i;
     Issue.html_url := Issue.html_url i; Issue.url := Issue.url i;
     Issue.state_reason := None |}.

(** [gh issue view n --json ISSUE_FIELDS]; the command fails on an unknown
    number. *)
Definition ghIssueView (s : Store.t) (n : Z) : option Issue.t :=
  option_map ghJson (storedIssue s n).

Definition hasLabelNamed (n : jsstring) (i : Issue.t) : bool :=
  includes n (map labelName (Issue.labels i)).

(** The state argument of [gh issue list]: [open], [closed] or [all]. *)
Definition stateMatches (wanted : jsstring) (i : Issue.t) : bool :=
  str_eqb wanted (js "all") || str_eqb (Issue.state i) wanted.

(** [gh issue list --json ISSUE_FIELDS --limit 100 --state st
    (--label l)* (--assignee a)? (--milestone title)?] *)
Definition ghIssueList (s : Store.t) (st : jsstring) (labels : list jsstring)
  (assignee milestone : option jsstring) : list Issue.t :=
  map ghJson
    (firstn 100
       (filter
          (fun i =>
             stateMatches st i
             && forallb (fun l => hasLabelNamed l i) labels
             && match assignee with
                | Some a => includes a (Issue.assignees i)
                | None => true
                end
             && match milestone, Issue.milestone i with
                | Some t, Some (_, t') => str_eqb t t'
                | Some _, None => false
                | None, _ => true
                end)
          (Store.issues s))).

Definition closeIssue (reason : jsstring) (i : Issue.t) : Issue.t :=
  {| Issue.number := Issue.number i; Issue.title := Issue.title i;
     Issue.body := Issue.body i; Issue.state := js "closed";
     Issue.labels := Issue.labels i; Issue.assignees := Issue.assignees i;
     Issue.assignee := Issue.assignee i; Issue.milestone := Issue.milestone i;
     Issue.createdAt := Issue.createdAt i; Issue.created_at := Issue.created_at i;
     Issue.updatedAt := Issue.updatedAt i; Issue.updated_at := Issue.updated_at i;
     Issue.html_url := Issue.html_url i; Issue.url := Issue.url i;
     Issue.state_reason := Some reason |}.

(** Replace the issue numbered [n]. *)
Definition updateIssue (n : Z) (f : Issue.t -> Issue.t) (l : list Issue.t)
  : list Issue.t :=
  map (fun i => if (Issue.number i =? n)%Z then f i else i) l.


(** The body of a PATCH request on an issue.  An entry [None] of [labels]
    is an [undefined] array element; an absent field is [None]. *)
Module Payload.
Record t : Type := {
  title : jsstring;
  body : jsstring;
  labels : list (option jsstring);
  state : option jsstring;
  state_reason : option jsstring;
  assignees : option (list jsstring);
  milestone : option (option Z)
}.
End Payload.

Fixpoint allSome (A : Type) (l : list (option A)) : option (list A) :=
  match l with
  | [] => Some []
  | Some x :: l' => option_map (cons x) (allSome l')
  | None :: _ => None
  end.

(** The issue after a PATCH: fields present in the payload replace the
    stored ones, the others are kept; a state change records its reason. *)
Definition patchIssue (p : Payload.t) (names : list jsstring)
  (ms : option (Z * jsstring)) (i : Issue.t) : Issue.t :=
  {| Issue.number := Issue.number i;
     Issue.title := Payload.title p;
     Issue.body := Some (Payload.body p);
     Issue.state :=
       match Payload.state p with Some st => st | None => Issue.state i end;
     Issue.labels := map LabelObject names;
     Issue.assignees :=
       match Payload.assignees p with Some a => a | None => Issue.assignees i end;
     Issue.assignee :=
       match Payload.assignees p with
       | Some a => hd_error a
       | None => Issue.assignee i
       end;
     Issue.milestone := ms;
     Issue.createdAt := Issue.createdAt i; Issue.created_at := Issue.created_at i;
     Issue.updatedAt := Issue.updatedAt i; Issue.updated_at := Issue.updated_at i;
     Issue.html_url := Issue.html_url i; Issue.url := Issue.url i;
     Issue.state_reason :=
       match Payload.state p with
       | Some _ => Payload.state_reason p
       | None => Issue.state_reason i
       end |}.

(** What the tracker checks of a request that creates or changes an
    issue: the title is not blank, and every assignee is a login that can
    be assigned in the repository. *)
Definition requestOk (s : Store.t) (p : Payload.t) : bool :=
  negb (str_eqb (trim (Payload.title p)) [])
  && match Payload.assignees p with
     | Some logins => forallb (fun a => includes a (Store.assignable s)) logins
     | None => true
     end.

(** [gh api repos/o/r/issues/n --method PATCH --input -]: the new store
    and the returned issue.  The request fails on an unknown issue, on a
    blank title, on an assignee that cannot be assigned, on a label that
    is not a string and on an unknown milestone. *)
Definition ghApiPatchIssue (s : Store.t) (n : Z) (p : Payload.t)
  : option (Store.t * Issue.t) :=
  match storedIssue s n, allSome (Payload.labels p) with
  | Some cur, Some names =>
      let ms :=
        match Payload.milestone p with
        | None => Some (Issue.milestone cur)
        | Some None => Some None
        | Some (Some k) =>
            option_map (fun t => Some (k, t)) (lookup_Z k (Store.milestones s))
        end in
      match ms with
      | Some ms' =>
          if requestOk s p then
            Some (withIssues s
                    (updateIssue n (patchIssue p names ms') (Store.issues s)),
                  patchIssue p names ms' cur)
          else None
      | None => None
      end
  | _, _ => None
  end.

(** ** Task repository (github.js, "Task CRUD") *)

Module Filters.
Record t : Type := {
  status : option jsstring;
  priority : option jsstring;
  assignee : option jsstring;
  sprint_id : option Z;
  my_day : bool;
  include_done : bool
}.
(** The default argument [{}]. *)
Definition none : t :=
  {| status := None; priority := None; assignee := None;
     sprint_id := None; my_day := false; include_done := false |}.
End Filters.

(** The fields of the [updates] argument; [None] is an absent field.  A
    present [assignee] or [sprint_id] may hold [null]. *)
Module Updates.
Record t : Type := {
  title : option jsstring;
  description : option jsstring;
  status : option jsstring;
  priority : option jsstring;
  due_date : option value;
  my_day : option value;
  estimated_hours : option value;
  actual_hours : option value;
  tags : option value;
  parent_task : option value;
  assignee : option (option jsstring);
  sprint_id : option (option Z)
}.
Definition none : t :=
  {| title := None; description := None; status := None; priority := None;
     due_date := None; my_day := None; estimated_hours := None;
     actual_hours := None; tags := None; parent_task := None;
     assignee := None; sprint_id := None |}.
End Updates.

(** An optional string used as a condition: the string when truthy. *)
Definition whenTruthy (o : option jsstring) : option jsstring := orElse o None.

Definition isDone (o : option jsstring) : bool :=
  match o with
  | Some s => str_eqb s (js "done")
  | None => false
  end.

(** [issue.labels?.some(l => l.name?.startsWith('tp:'))]: a bare string
    has no [name]. *)
Definition hasTpLabel (issue : Issue.t) : bool :=
  existsb
    (fun l =>
       match l with
       | LabelObject n => startsWith (js "tp:") n
       | LabelString _ => false
       end)
    (Issue.labels issue).

(** [PRIORITY_ORDER[p] ?? 3] *)
Definition priorityRank (p : value) : Z :=
  match lookup (ToString p) PRIORITY_ORDER with
  | Some r => r
  | None => 3%Z
  end.

(** [Array.prototype.sort] with a comparison function.  The engine sorts
    by insertion from the left: each element in turn (the pivot) is
    compared with elements that stand before it, the pivot being the first
    argument of the comparison, and it moves in front of an element when
    the result is negative; so a pivot stays behind the elements it ties
    with, and the sort is stable.  A comparison that throws aborts the
    sort.  [insertSorted] takes the pivot and the sorted elements before
    it, the nearest first, and scans them one by one: the engine reaches
    the same place by bisection, and on arrays of 64 elements or more it
    merges sorted runs.  The calls coincide with the engine's on arrays of
    at most two elements and on arrays that are already in order; on
    other arrays only the result for a comparison that does not throw is
    the engine's. *)
Fixpoint insertSorted (A : Type) (cmp : A -> A -> option Z) (pivot : A)
  (before : list A) : option (list A) :=
  match before with
  | [] => Some [pivot]
  | y :: rest =>
      match cmp pivot y with
      | None => None
      | Some c =>
          if (c <? 0)%Z then option_map (cons y) (insertSorted cmp pivot rest)
          else Some (pivot :: before)
      end
  end.

(** The sorted prefix, its last element first, of an array whose
    elements are given last first. *)
Fixpoint sortPrefix (A : Type) (cmp : A -> A -> option Z) (elements : list A)
  : option (list A) :=
  match elements with
  | [] => Some []
  | pivot :: earlier =>
      match sortPrefix cmp earlier with
      | Some before => insertSorted cmp pivot before
      | None => None
      end
  end.

Definition sortBy (A : Type) (cmp : A -> A -> option Z) (l : list A)
  : option (list A) :=
  option_map (@rev A) (sortPrefix cmp (rev l)).

(** The tasks of [listTasks] before the sort: the issues with a [tp:]
    label, converted and filtered by [my_day]. *)
Definition unsortedTasks (f : Filters.t) (issues : list Issue.t) : list Task.t :=
  let tasks := map issueToTask (filter hasTpLabel issues) in
  if Filters.my_day f then filter (fun t => truthy (Task.my_day t)) tasks
  else tasks.

Section Repository.

(** [a.localeCompare(b)]: the collation of the host, a parameter. *)
Variable localeCompare : jsstring -> jsstring -> Z.

(** The comparison function passed to [tasks.sort].  Only a string has
    a [localeCompare] method: the call throws a TypeError on any other
    truthy due date. *)
Definition compareTasks (a b : Task.t) : option Z :=
  let pa := priorityRank (Task.priority a) in
  let pb := priorityRank (Task.priority b) in
  if negb (pa =? pb)%Z then Some (pa - pb)%Z
  else if truthy (Task.due_date a) && truthy (Task.due_date b) then
    match Task.due_date a with
    | VStr da => Some (localeCompare da (ToString (Task.due_date b)))
    | _ => None
    end
  else if truthy (Task.due_date a) then Some (-1)%Z
  else if truthy (Task.due_date b) then Some 1%Z
  else Some 0%Z.

(** The part of [listTasks] that follows the fetch: keep the issues
    with a [tp:] label, convert, filter by [my_day], sort. *)
Definition tasksFromIssues (f : Filters.t) (issues : list Issue.t)
  : option (list Task.t) :=
  sortBy compareTasks (unsortedTasks f issues).

(** [table[k]] as a command-line argument: an argument reaches the
    process as its text, so a key the table does not have gives the text
    [undefined], or the text of what every object inherits under that
    name. *)
Definition argument (k : jsstring) (table : list (jsstring * jsstring))
  : jsstring :=
  match lookup k table with
  | Some label => label
  | None =>
      match inheritedText k with
      | Some text => text
      | None => js "undefined"
      end
  end.

Definition listTasks (s : Store.t) (f : Filters.t) : option (list Task.t) :=
  let st :=
    if isDone (Filters.status f) then js "closed"
    else if Filters.include_done f then js "all"
    else js "open" in
  let statusArg :=
    match whenTruthy (Filters.status f) with
    | Some x =>
        if negb (str_eqb x (js "done")) then [argument x STATUS_LABELS]
        else []
    | None => []
    end in
  let priorityArg :=
    match whenTruthy (Filters.priority f) with
    | Some x => [argument x PRIORITY_LABELS]
    | None => []
    end in
  let milestone :=
    match Filters.sprint_id f with
    | Some n =>
        if (n =? 0)%Z then None
        else whenTruthy (lookup_Z n (Store.milestones s))
    | None => None
    end in
  tasksFromIssues f
    (ghIssueList s st (statusArg ++ priorityArg)
       (whenTruthy (Filters.assignee f)) milestone).

Definition getTask (s : Store.t) (taskId : Z) : option Task.t :=
  option_map issueToTask (ghIssueView s taskId).


End Repository.

(** [if (u.k !== undefined) meta.k = u.k] *)
Definition setIfDefined (k : jsstring) (v : option value) (m : obj) : obj :=
  match v with
  | Some x => obj_set k x m
  | None => m
  end.

(** [labels.filter(l => !Object.values(table).includes(l))] followed by
    [labels.push(table[key])]. *)
Definition replaceLabel (table : list (jsstring * jsstring)) (key : jsstring)
  (labels : list (option jsstring)) : list (option jsstring) :=
  filter
    (fun l =>
       match l with
       | Some n => negb (includes n (map snd table))
       | None => true
       end)
    labels
  ++ [lookup key table].

(** Steps 1 to 4 of [updateTask]: the payload computed from the current
    issue and the updates. *)
Definition updatePayload (current : Issue.t) (u : Updates.t) : Payload.t :=
  let fm := parseYamlFrontMatter (orEmpty (Issue.body current)) in
  let currentLabels :=
    map (fun l =>
           match l with
           | LabelObject n => Some n
           | LabelString _ => None
           end)
        (Issue.labels current) in
  let currentLabels :=
    match whenTruthy (Updates.status u) with
    | Some st => replaceLabel STATUS_LABELS st currentLabels
    | None => currentLabels
    end in
  let currentLabels :=
    match whenTruthy (Updates.priority u) with
    | Some p => replaceLabel PRIORITY_LABELS p currentLabels
    | None => currentLabels
    end in
  let m := meta fm in
  let m :=
    match whenTruthy (Updates.priority u) with
    | Some p => obj_set (js "priority") (VStr p) m
    | None => m
    end in
  let m := setIfDefined (js "due_date") (Updates.due_date u) m in
  let m := setIfDefined (js "my_day") (Updates.my_day u) m in
  let m := setIfDefined (js "estimated_hours") (Updates.estimated_hours u) m in
  let m := setIfDefined (js "actual_hours") (Updates.actual_hours u) m in
  let m :=
    match Updates.tags u with
    | Some v => if truthy v then obj_set (js "tags") v m else m
    | None => m
    end in
  let m := setIfDefined (js "parent_task") (Updates.parent_task u) m in
  let body :=
    buildYamlFrontMatter m
      (match Updates.description u with
       | Some d => d
       | None => description fm
       end) in
  let closing := isDone (Updates.status u) in
  let reopening :=
    match whenTruthy (Updates.status u) with
    | Some st =>
        negb (str_eqb st (js "done")) && str_eqb (Issue.state current) (js "closed")
    | None => false
    end in
  {| Payload.title :=
       match whenTruthy (Updates.title u) with
       | Some t => t
       | None => Issue.title current
       end;
     Payload.body := body;
     Payload.labels := currentLabels;
     Payload.state :=
       if closing then Some (js "closed")
       else if reopening then Some (js "open")
       else None;
     Payload.state_reason := if closing then Some (js "completed") else None;
     Payload.assignees :=
       match Updates.assignee u with
       | Some a =>
           Some match whenTruthy a with
                | Some login => [login]
                | None => []
                end
       | None => None
       end;
     Payload.milestone := Updates.sprint_id u |}.

Definition updateTask (s : Store.t) (taskId : Z) (u : Updates.t)
  : option (Store.t * Task.t) :=
  match ghIssueView s taskId with
  | Some current =>
      match ghApiPatchIssue s taskId (updatePayload current u) with
      | Some (s', data) => Some (s', issueToTask data)
      | None => None
      end
  | None => None
  end.

(** ** Derived views (github.js, "Board Data", "Analytics", "My Day") *)

Module Column.
Record t : Type := { title : jsstring; tasks : list Task.t; color : jsstring }.
End Column.

Definition emptyColumns : list (jsstring * Column.t) :=
  [ (js "todo",
     {| Column.title := js "To Do"; Column.tasks := []; Column.color := js "#0075ca" |});
    (js "in-progress",
     {| Column.title := js "In Progress"; Column.tasks := []; Column.color := js "#fbca04" |});
    (js "blocked",
     {| Column.title := js "Blocked"; Column.tasks := []; Column.color := js "#d73a4a" |});
    (js "done",
     {| Column.title := js "Done"; Column.tasks := []; Column.color := js "#0e8a16" |}) ].

Fixpoint pushTask (key : jsstring) (task : Task.t)
  (columns : list (jsstring * Column.t)) : list (jsstring * Column.t) :=
  match columns with
  | [] => []
  | (k, c) :: rest =>
      if str_eqb k key then
        (k, {| Column.title := Column.title c;
               Column.tasks := Column.tasks c ++ [task];
               Column.color := Column.color c |}) :: rest
      else (k, c) :: pushTask key task rest
  end.

(** The body of the loop of [getBoardData]:
    [if (columns[task.status]) columns[task.status].tasks.push(task)].
    A status naming an inherited property passes the test and has no
    [tasks]: the push throws. *)
Definition placeTask (columns : option (list (jsstring * Column.t)))
  (task : Task.t) : option (list (jsstring * Column.t)) :=
  match columns with
  | None => None
  | Some cols =>
      match lookup (Task.status task) cols with
      | Some _ => Some (pushTask (Task.status task) task cols)
      | None =>
          if includes (Task.status task) inheritedKeys then None else Some cols
      end
  end.

Definition groupByStatus (tasks : list Task.t)
  : option (list (jsstring * Column.t)) :=
  fold_left placeTask tasks (Some emptyColumns).

(** The tasks of the column [key]. *)
Definition columnTasks (key : jsstring) (columns : list (jsstring * Column.t))
  : list Task.t :=
  match lookup key columns with
  | Some c => Column.tasks c
  | None => []
  end.

(** [counts[k] = (counts[k] || 0) + 1] on a table of counters that has
    the key [k], or for a key that no object inherits: the statuses and
    priorities that [issueToTask] returns are keys of their tables. *)
Fixpoint bump (k : jsstring) (counts : list (jsstring * Z))
  : list (jsstring * Z) :=
  match counts with
  | [] => [(k, 1%Z)]
  | (k', n) :: rest =>
      if str_eqb k' k then (k', (n + 1)%Z) :: rest else (k', n) :: bump k rest
  end.

(** [(v || 0) + 1]: a number is incremented, to a text the digit is
    appended. *)
Definition orZeroPlusOne (v : value) : value :=
  match js_or v (VNum (Dec 0 0)) with
  | VNum (Dec m scale) => VNum (normalize (m + 10 ^ Z.of_nat scale)%Z scale)
  | VNum (Inf negative) => VNum (Inf negative)
  | VBool _ => VNum (Dec 2 0)
  | VStr text => VStr (text ++ js "1")
  | VArr items => VStr (join (js ",") items ++ js "1")
  | VUndefined | VNull => VNum (Dec 1 0)
  end.

(** [counts[k] = (counts[k] || 0) + 1] on an object created by [{}], for
    any key.  A key the object lacks is read through the prototype: under
    a name every object inherits the old value is an object, the sum is
    its text followed by the digit, and the assignment stores that text
    (under [__proto__] it stores nothing). *)
Definition countUp (k : jsstring) (counts : obj) : obj :=
  let next :=
    if hasOwn k counts then orZeroPlusOne (obj_get k counts)
    else match inheritedText k with
         | Some text => VStr (text ++ js "1")
         | None => VNum (Dec 1 0)
         end in
  obj_set k next counts.

(** [counts[k]], an absent counter read as zero. *)
Definition countOf (k : jsstring) (counts : list (jsstring * Z)) : Z :=
  match lookup k counts with
  | Some n => n
  | None => 0%Z
  end.

(** Binary64 numbers. *)
Definition double : Type := spec_float.
Definition prec : Z := 53.
Definition emax : Z := 1024.
Definition toDouble (z : Z) : double := binary_normalize prec emax z 0 false.
Definition divDouble (x y : double) : double := SFdiv prec emax x y.
Definition mulDouble (x y : double) : double := SFmul prec emax x y.

(** The integer nearest to a finite [x], a tie going towards plus
    infinity: the floor of [x + 1/2], computed exactly. *)
Definition nearestInteger (x : double) : Z :=
  match x with
  | S754_finite s m e =>
      let v := if s then Z.neg m else Z.pos m in
      (if 0 <=? e then v * 2 ^ e
       else (2 * v + 2 ^ (- e)) / 2 ^ (- e + 1))%Z
  | _ => 0%Z
  end.

(** [Math.round]; zeros, infinities and NaN are returned as they are. *)
Definition Math_round (x : double) : double :=
  match x with
  | S754_finite _ _ _ => toDouble (nearestInteger x)
  | _ => x
  end.

(** [total ? Math.round((completed / total) * 100) : 0] *)
Definition completionRateOf (completed total : Z) : double :=
  if (total =? 0)%Z then toDouble 0
  else Math_round (mulDouble (divDouble (toDouble completed) (toDouble total))
                             (toDouble 100)).

Module Analytics.
Record t : Type := {
  total : Z;
  completed : Z;
  completionRate : double;
  overdue : Z;
  statusCounts : list (jsstring * Z);
  priorityCounts : list (jsstring * Z);
  assigneeCounts : obj;
  tasks : list Task.t
}.
End Analytics.

Module MyDay.
Record t : Type := {
  my_day : list Task.t;
  due_today : list Task.t;
  overdue : list Task.t;
  in_progress : list Task.t;
  total_focus : Z
}.
End MyDay.

Definition notDone (t : Task.t) : bool := negb (str_eqb (Task.status t) (js "done")).

(** [t.due_date && t.due_date < today && t.status !== 'done'] *)
Definition isOverdue (today : jsstring) (t : Task.t) : bool :=
  truthy (Task.due_date t) && ltStr (Task.due_date t) today && notDone t.

(** [t.assignee || 'Unassigned'] *)
Definition assigneeKey (t : Task.t) : jsstring :=
  match whenTruthy (Task.assignee t) with
  | Some a => a
  | None => js "Unassigned"
  end.

(** The computation of [getAnalytics] on the fetched tasks. *)
Definition analyticsOf (today : jsstring) (tasks : list Task.t) : Analytics.t :=
  let statusCounts :=
    fold_left (fun c t => bump (Task.status t) c) tasks
      [ (js "todo", 0%Z); (js "in-progress", 0%Z); (js "done", 0%Z);
        (js "blocked", 0%Z) ] in
  let priorityCounts :=
    fold_left (fun c t => bump (ToString (Task.priority t)) c) tasks
      [ (js "urgent", 0%Z); (js "high", 0%Z); (js "medium", 0%Z);
        (js "low", 0%Z) ] in
  let assigneeCounts :=
    fold_left (fun c t => countUp (assigneeKey t) c) tasks [] in
  let overdue := Z.of_nat (length (filter (isOverdue today) tasks)) in
  let total := Z.of_nat (length tasks) in
  let completed :=
    match lookup (js "done") statusCounts with
    | Some n => n
    | None => 0%Z
    end in
  let completionRate := completionRateOf completed total in
  {| Analytics.total := total;
     Analytics.completed := completed;
     Analytics.completionRate := completionRate;
     Analytics.overdue := overdue;
     Analytics.statusCounts := statusCounts;
     Analytics.priorityCounts := priorityCounts;
     Analytics.assigneeCounts := assigneeCounts;
     Analytics.tasks := tasks |}.

(** The four filters of [getMyDayTasks] on the fetched tasks. *)
Definition myDayOf (today : jsstring) (tasks : list Task.t) : MyDay.t :=
  let myDayTasks :=
    filter (fun t => truthy (Task.my_day t) && notDone t) tasks in
  let dueToday :=
    filter (fun t => strictEqStr (Task.due_date t) today && notDone t
                     && negb (truthy (Task.my_day t))) tasks in
  let overdueTasks :=
    filter (fun t => truthy (Task.due_date t) && ltStr (Task.due_date t) today
                     && notDone t && negb (truthy (Task.my_day t))) tasks in
  let inProgress :=
    filter (fun t => str_eqb (Task.status t) (js "in-progress")
                     && negb (truthy (Task.my_day t))
                     && negb (strictEqStr (Task.due_date t) today)) tasks in
  {| MyDay.my_day := myDayTasks;
     MyDay.due_today := dueToday;
     MyDay.overdue := overdueTasks;
     MyDay.in_progress := inProgress;
     MyDay.total_focus :=
       Z.of_nat (length myDayTasks + length dueToday + length overdueTasks) |}.

Section Views.

Variable localeCompare : jsstring -> jsstring -> Z.

Definition withDone (f : Filters.t) : Filters.t :=
  {| Filters.status := Filters.status f; Filters.priority := Filters.priority f;
     Filters.assignee := Filters.assignee f; Filters.sprint_id := Filters.sprint_id f;
     Filters.my_day := Filters.my_day f; Filters.include_done := true |}.

Definition getBoardData (s : Store.t) (f : Filters.t)
  : option (list (jsstring * Column.t)) :=
  match listTasks localeCompare s (withDone f) with
  | Some tasks => groupByStatus tasks
  | None => None
  end.

(** [today] is the date part of the current instant in ISO format. *)
Definition getAnalytics (s : Store.t) (sprintId : option Z) (today : jsstring)
  : option Analytics.t :=
  let filters :=
    match sprintId with
    | Some n =>
        if (n =? 0)%Z then withDone Filters.none
        else {| Filters.status := None; Filters.priority := None;
                Filters.assignee := None; Filters.sprint_id := Some n;
                Filters.my_day := false; Filters.include_done := true |}
    | None => withDone Filters.none
    end in
  option_map (analyticsOf today) (listTasks localeCompare s filters).

Definition getMyDayTasks (s : Store.t) (today : jsstring) : option MyDay.t :=
  option_map (myDayOf today) (listTasks localeCompare s Filters.none).

End Views.

(** ** The canonical order, in the words of the specification *)

Section CanonicalOrder.

Variable localeCompare : jsstring -> jsstring -> Z.

Definition dated (t : Task.t) : bool := truthy (Task.due_date t).

Definition rankOf (t : Task.t) : Z := priorityRank (Task.priority t).

(** [a] may precede [b]: a lower priority rank first; within one rank a
    dated task before an undated one, and dated tasks by ascending due
    date. *)
Definition taskLe (a b : Task.t) : Prop :=
  (rankOf a < rankOf b)%Z
  \/ (rankOf a = rankOf b
      /\ (dated a = false -> dated b = false)
      /\ (dated a = true -> dated b = true ->
          (localeCompare (ToString (Task.due_date a))
                         (ToString (Task.due_date b)) <= 0)%Z)).

Definition taskLeb (a b : Task.t) : bool :=
  (rankOf a <? rankOf b)%Z
  || ((rankOf a =? rankOf b)%Z
      && (if dated a then
            if dated b then
              (localeCompare (ToString (Task.due_date a))
                             (ToString (Task.due_date b)) <=? 0)%Z
            else true
          else negb (dated b))).

(** Two tasks the order does not tell apart. *)
Definition sameKey (a b : Task.t) : bool := taskLeb a b && taskLeb b a.

End CanonicalOrder.

(** A due date as the type of [Task] has it: a string, or nothing. *)
Definition dueWellTyped (t : Task.t) : Prop :=
  truthy (Task.due_date t) = true -> exists s, Task.due_date t = VStr s.

(** ** Metadata the codec carries through unchanged *)

(** The enumeration order of property keys: array indices ascending, then
    the other keys. *)
Definition keyBefore (k k' : jsstring) : Prop :=
  match arrayIndex k, arrayIndex k' with
  | Some i, Some j => (i < j)%Z
  | Some _, None => True
  | None, Some _ => False
  | None, None => True
  end.

(** The own properties of an object: distinct keys, in enumeration order. *)
Definition objWellFormed (m : obj) : Prop :=
  NoDup (map fst m) /\ StronglySorted keyBefore (map fst m).

(** A key that survives a line: trimmed, without colon or line break, and
    not the inherited accessor. *)
Definition keyOk (k : jsstring) : Prop :=
  trim k = k /\ ~ In ":"%char k /\ ~ In nl k /\ k <> js "__proto__".

(** A key as the decoder cuts it out of a line: trimmed, without colon or
    line break. *)
Definition keyShape (k : jsstring) : Prop :=
  trim k = k /\ ~ In ":"%char k /\ ~ In nl k.

(** A string the coercion leaves a string: trimmed, on one line, not
    empty, not a literal of another type. *)
Definition plainString (s : jsstring) : Prop :=
  trim s = s /\ ~ In nl s /\ s <> []
  /\ s <> js "true" /\ s <> js "false" /\ s <> js "null"
  /\ Number s = None.

(** The normal form of a number. *)
Definition numNormal (n : num) : Prop :=
  match n with
  | Dec m scale => scale = O \/ (m mod 10 <> 0)%Z
  | Inf _ => True
  end.

(** The values the codec returns as they were: booleans, null, numbers
    and plain strings. *)
Definition valueOk (v : value) : Prop :=
  match v with
  | VBool _ | VNull => True
  | VNum n => numNormal n
  | VStr s => plainString s
  | VUndefined | VArr _ => False
  end.

(** ** Sample data used by the closed examples *)

(** Code-unit order as a collation: it agrees with every collation on the
    ISO dates the module writes. *)
Fixpoint codeUnitCompare (a b : jsstring) : Z :=
  match a, b with
  | [], [] => 0%Z
  | [], _ :: _ => (-1)%Z
  | _ :: _, [] => 1%Z
  | x :: a', y :: b' =>
      if code x <? code y then (-1)%Z
      else if code y <? code x then 1%Z
      else codeUnitCompare a' b'
  end.

Definition sampleIssue (n : Z) (st : jsstring) (reason : option jsstring)
  (body : jsstring) (labels : list string) : Issue.t :=
  {| Issue.number := n; Issue.title := js "Fix bug"; Issue.body := Some body;
     Issue.state := st; Issue.labels := map (fun l => LabelObject (js l)) labels;
     Issue.assignees := []; Issue.assignee := None; Issue.milestone := None;
     Issue.createdAt := None; Issue.created_at := None;
     Issue.updatedAt := None; Issue.updated_at := None;
     Issue.html_url := None; Issue.url := None;
     Issue.state_reason := reason |}.

(** A repository without milestones in which [octocat] can be assigned. *)
Definition sampleStore (l : list Issue.t) : Store.t :=
  {| Store.issues := l; Store.milestones := [];
     Store.assignable := [js "octocat"] |}.

(** The metadata object [createTask] builds for a task with the given
    due date, every other option left at its default. *)
Definition sampleMeta (due : value) : obj :=
  [ (js "priority", VStr (js "medium")); (js "due_date", due);
    (js "estimated_hours", VNum (Dec 0 0)); (js "actual_hours", VNum (Dec 0 0));
    (js "tags", VArr []); (js "my_day", VBool false);
    (js "parent_task", VNull) ].

(** An open task in progress that was due on 2026-02-01. *)
Definition lateIssue : Issue.t :=
  sampleIssue 1 (js "open") None
    (buildYamlFrontMatter (sampleMeta (VStr (js "2026-02-01"))) (js "Ship it"))
    ["tp:in-progress"; "tp:medium"]%string.

(** An issue of the same repository that is not a task: it carries a
    label in the reserved name space, but none of the eight fixed ones. *)
Definition foreignIssue : Issue.t :=
  sampleIssue 2 (js "open") None (js "Unrelated report")
    ["bug"; "tp:custom"]%string.

(** An update that only moves a task back to the backlog. *)
Definition backToTodo : Updates.t :=
  {| Updates.title := None; Updates.description := None;
     Updates.status := Some (js "todo"); Updates.priority := None;
     Updates.due_date := None; Updates.my_day := None;
     Updates.estimated_hours := None; Updates.actual_hours := None;
     Updates.tags := None; Updates.parent_task := None;
     Updates.assignee := None; Updates.sprint_id := None |}.

(** The state a done-transition of [updateTask] leaves behind. *)
Definition closedByDone (i : Issue.t) : Prop :=
  Issue.state i = js "closed" /\ Issue.state_reason i = Some (js "completed").

(** The four tasks of the sorting example of the specification, as the
    issues behind them, and the tasks in the order of the example. *)
Definition sortIssue (n : Z) (priorityLabel : string) (due : value) : Issue.t :=
  sampleIssue n (js "open") None
    (buildYamlFrontMatter (sampleMeta due) (js "Ship it"))
    ["tp:todo"; priorityLabel]%string.

Definition sortIssues : list Issue.t :=
  [ sortIssue 1 "tp:urgent" VNull;
    sortIssue 2 "tp:low" (VStr (js "2026-01-01"));
    sortIssue 3 "tp:high" (VStr (js "2026-01-05"));
    sortIssue 4 "tp:high" VNull ].

Definition sortedTasks : list Task.t :=
  map issueToTask
    [ sortIssue 1 "tp:urgent" VNull;
      sortIssue 3 "tp:high" (VStr (js "2026-01-05"));
      sortIssue 4 "tp:high" VNull;
      sortIssue 2 "tp:low" (VStr (js "2026-01-01")) ].

(** The completion rate in the words of the specification: one hundred
    times done over total, rounded to the nearest integer in exact
    arithmetic, a tie going up. *)
Definition roundedPercentage (done total : Z) : Z :=
  ((200 * done + total) / (2 * total))%Z.

(** Forty tasks, the first twenty-three of them done. *)
Definition fortyIssues : list Issue.t :=
  map (fun n =>
         if (n <=? 23)%nat then
           sampleIssue (Z.of_nat n) (js "closed") (Some (js "completed")) []
             ["tp:done"; "tp:medium"]%string
         else
           sampleIssue (Z.of_nat n) (js "open") None []
             ["tp:todo"; "tp:medium"]%string)
      (seq 1 40).

(** The pairs (completed, total) a listing of at most 100 tasks can
    produce, each checked against the bounds of the completion rate. *)
Definition rateWithinHalf (completed total : Z) : bool :=
  match mulDouble (divDouble (toDouble completed) (toDouble total)) (toDouble 100) with
  | S754_finite s m e =>
      let r := nearestInteger (S754_finite s m e) in
      ((0 <=? r) && (r <=? 100)
       && (Z.abs (2 * (r * total - 100 * completed)) <=? total))%Z
  | S754_zero false => (completed =? 0)%Z
  | _ => false
  end.

(** ** Auxiliary notions for the text of numbers and values *)

Definition isDigit (c : ascii) : bool := (48 <=? code c) && (code c <=? 57).

Definition isNumChar (c : ascii) : bool :=
  isDigit c || Ascii.eqb c "." || Ascii.eqb c "e" || Ascii.eqb c "+"
  || Ascii.eqb c "-".

Definition digitsNumber (ds : list Z) (acc : Z) : Z :=
  fold_left (fun a d => (10 * a + d)%Z) ds acc.

Definition isDigitValue (d : Z) : Prop := (0 <= d <= 9)%Z.

(** The text of a decimal literal: integer digits, an optional fraction,
    an optional exponent. *)
Definition literalText (ipart : list Z) (fraction : option (list Z))
  (exponent : option (bool * list Z)) : jsstring :=
  (digitChars ipart
   ++ match fraction with
      | Some f => "."%char :: digitChars f
      | None => []
      end)
  ++ match exponent with
     | Some (neg, x) =>
         "e"%char :: (if neg then "-"%char else "+"%char) :: digitChars x
     | None => []
     end.

Definition fractionDigits (fraction : option (list Z)) : list Z :=
  match fraction with
  | Some f => f
  | None => []
  end.

Definition exponentValue (exponent : option (bool * list Z)) : Z :=
  match exponent with
  | Some (true, x) => (- digitsNumber x 0)%Z
  | Some (false, x) => digitsNumber x 0
  | None => 0%Z
  end.

(** The number with significant digits [sd] and decimal point position
    [n]. *)
Definition decimalOf (sd : list Z) (n : Z) : num :=
  let k := Z.of_nat (length sd) in
  if (k <=? n)%Z then Dec (digitsNumber sd 0 * 10 ^ (n - k))%Z 0
  else normalize (digitsNumber sd 0) (Z.to_nat (k - n)).

(** The text a value is written as on its metadata line. *)
Definition valueText (v : value) : jsstring :=
  match v with
  | VArr items => join (js ", ") items
  | _ => ToString v
  end.

(** A metadata object the codec carries through unchanged. *)
Definition metaOk (m : obj) : Prop :=
  objWellFormed m /\ Forall (fun p => keyOk (fst p) /\ valueOk (snd p)) m.

(** A metadata object as the decoder can return it. *)
Definition decodedOk (m : obj) : Prop :=
  objWellFormed m /\ Forall (fun p => keyShape (fst p) /\ valueOk (snd p)) m.

(** A value whose text on a metadata line holds no line break. *)
Definition oneLine (v : value) : Prop := ~ In nl (valueText v).

(** What a value written on a metadata line is read back as. *)
Definition readBack (v : value) : value := coerce (trim (valueText v)).

Definition readBackEntry (p : jsstring * value) : jsstring * value :=
  (fst p, readBack (snd p)).

(** ** Task creation and the My Day toggle (github.js, "Task CRUD",
    "My Day") *)

Module Options.
(** The [options] argument of [createTask]; [None] is an absent field,
    which the destructuring replaces by its default.  [assignee] and
    [sprint_id] are only tested for truthiness: an absent field and
    [null] are both [None]. *)
Record t : Type := {
  priority : option jsstring;
  status : option jsstring;
  due_date : option value;
  assignee : option jsstring;
  sprint_id : option Z;
  description : option jsstring;
  my_day : option value;
  estimated_hours : option value;
  tags : option value;
  parent_task : option value
}.
Definition none : t :=
  {| priority := None; status := None; due_date := None; assignee := None;
     sprint_id := None; description := None; my_day := None;
     estimated_hours := None; tags := None; parent_task := None |}.
End Options.

(** A destructuring default [x = d]: it replaces an absent field and
    [undefined]. *)
Definition withDefault (d : value) (o : option value) : value :=
  match o with
  | None | Some VUndefined => d
  | Some v => v
  end.

Definition textOr (d : jsstring) (o : option jsstring) : jsstring :=
  match o with
  | Some text => text
  | None => d
  end.

(** [table[k]] for an arbitrary key: the entry of the table, or, for a
    name every object inherits, a value that is not a string
    ([Some None]); [None] is [undefined]. *)
Definition entryOf (k : jsstring) (table : list (jsstring * jsstring))
  : option (option jsstring) :=
  match lookup k table with
  | Some label => Some (Some label)
  | None => if includes k inheritedKeys then Some None else None
  end.

(** [entries.filter(Boolean)]: [undefined] and the empty string go. *)
Definition truthyEntries (entries : list (option (option jsstring)))
  : list (option jsstring) :=
  flat_map
    (fun e =>
       match e with
       | Some (Some []) => []
       | Some x => [x]
       | None => []
       end)
    entries.

(** What the tracker assigns to a new issue: its number, the instant of
    creation, the browser link and the API link. *)
Module Assigned.
Record t : Type := {
  number : Z;
  stamp : jsstring;
  link : jsstring;
  apiLink : jsstring
}.
End Assigned.

(** The new issue as [gh issue view] and [gh issue list] report it. *)
Definition newIssue (p : Payload.t) (names : list jsstring)
  (ms : option (Z * jsstring)) (a : Assigned.t) : Issue.t :=
  {| Issue.number := Assigned.number a;
     Issue.title := Payload.title p;
     Issue.body := Some (Payload.body p);
     Issue.state := js "open";
     Issue.labels := map LabelObject names;
     Issue.assignees :=
       match Payload.assignees p with Some l => l | None => [] end;
     Issue.assignee := None;
     Issue.milestone := ms;
     Issue.createdAt := Some (Assigned.stamp a); Issue.created_at := None;
     Issue.updatedAt := Some (Assigned.stamp a); Issue.updated_at := None;
     Issue.html_url := None; Issue.url := Some (Assigned.link a);
     Issue.state_reason := None |}.

(** The same issue as the REST interface returns it: snake-case time
    stamps, [assignee] beside [assignees], [html_url] for the browser link
    and [url] for the API link. *)
Definition restView (a : Assigned.t) (i : Issue.t) : Issue.t :=
  {| Issue.number := Issue.number i; Issue.title := Issue.title i;
     Issue.body := Issue.body i; Issue.state := Issue.state i;
     Issue.labels := Issue.labels i; Issue.assignees := Issue.assignees i;
     Issue.assignee := hd_error (Issue.assignees i);
     Issue.milestone := Issue.milestone i;
     Issue.createdAt := None; Issue.created_at := Some (Assigned.stamp a);
     Issue.updatedAt := None; Issue.updated_at := Some (Assigned.stamp a);
     Issue.html_url := Some (Assigned.link a);
     Issue.url := Some (Assigned.apiLink a);
     Issue.state_reason := Issue.state_reason i |}.

(** [gh api repos/o/r/issues --method POST --input -]: the new store and
    the returned issue.  The new issue is open and is listed first.  The
    request fails on a blank title, on an assignee that cannot be
    assigned, on a label that is not a string and on an unknown
    milestone. *)
Definition ghApiPostIssue (s : Store.t) (p : Payload.t) (a : Assigned.t)
  : option (Store.t * Issue.t) :=
  match allSome (Payload.labels p) with
  | Some names =>
      let ms :=
        match Payload.milestone p with
        | None | Some None => Some None
        | Some (Some k) =>
            option_map (fun t => Some (k, t)) (lookup_Z k (Store.milestones s))
        end in
      match ms with
      | Some ms' =>
          let i := newIssue p names ms' a in
          if requestOk s p then
            Some (withIssues s (i :: Store.issues s), restView a i)
          else None
      | None => None
      end
  | None => None
  end.

(** The metadata object of [createTask]. *)
Definition createMeta (o : Options.t) : obj :=
  [ (js "priority", VStr (textOr (js "medium") (Options.priority o)));
    (js "due_date", withDefault VNull (Options.due_date o));
    (js "estimated_hours", withDefault (VNum (Dec 0 0)) (Options.estimated_hours o));
    (js "actual_hours", VNum (Dec 0 0));
    (js "tags", withDefault (VArr []) (Options.tags o));
    (js "my_day", withDefault (VBool false) (Options.my_day o));
    (js "parent_task", withDefault VNull (Options.parent_task o)) ].

(** The request [createTask] sends. *)
Definition createPayload (title : jsstring) (o : Options.t) : Payload.t :=
  let priority := textOr (js "medium") (Options.priority o) in
  let status := textOr (js "todo") (Options.status o) in
  {| Payload.title := title;
     Payload.body :=
       buildYamlFrontMatter (createMeta o) (textOr [] (Options.description o));
     Payload.labels :=
       truthyEntries [entryOf status STATUS_LABELS; entryOf priority PRIORITY_LABELS];
     Payload.state := None;
     Payload.state_reason := None;
     Payload.assignees :=
       match whenTruthy (Options.assignee o) with
       | Some login => Some [login]
       | None => None
       end;
     Payload.milestone :=
       match Options.sprint_id o with
       | Some n => if (n =? 0)%Z then None else Some (Some n)
       | None => None
       end |}.

Definition createTask (s : Store.t) (title : jsstring) (o : Options.t)
  (a : Assigned.t) : option (Store.t * Task.t) :=
  match ghApiPostIssue s (createPayload title o) a with
  | Some (s', data) => Some (s', issueToTask data)
  | None => None
  end.

(** A field of an object literal: one that holds [undefined] is read as
    an absent one. *)
Definition present (v : value) : option value :=
  match v with
  | VUndefined => None
  | _ => Some v
  end.

Definition toggleMyDay (s : Store.t) (taskId : Z) (v : value)
  : option (Store.t * Task.t) :=
  updateTask s taskId
    {| Updates.title := None; Updates.description := None;
       Updates.status := None; Updates.priority := None;
       Updates.due_date := None; Updates.my_day := present v;
       Updates.estimated_hours := None; Updates.actual_hours := None;
       Updates.tags := None; Updates.parent_task := None;
       Updates.assignee := None; Updates.sprint_id := None |}.

(** The update sent by the quick actions of the command line (move,
    start, block, done, reopen): [{ status }]. *)
Definition moveTo (st : jsstring) : Updates.t :=
  {| Updates.title := None; Updates.description := None;
     Updates.status := Some st; Updates.priority := None;
     Updates.due_date := None; Updates.my_day := None;
     Updates.estimated_hours := None; Updates.actual_hours := None;
     Updates.tags := None; Updates.parent_task := None;
     Updates.assignee := None; Updates.sprint_id := None |}.

(** The labels of an issue as [gh] reports them: objects with a name. *)
Definition labelObjects (i : Issue.t) : Prop :=
  Forall (fun l => exists n, l = LabelObject n) (Issue.labels i).

(** ** Label provisioning (types/index.js, github.js "Initialization") *)

Definition LABEL_COLORS : list (jsstring * jsstring) :=
  [ (js "tp:todo", js "0075ca");
    (js "tp:in-progress", js "fbca04");
    (js "tp:done", js "0e8a16");
    (js "tp:blocked", js "d73a4a");
    (js "tp:urgent", js "b60205");
    (js "tp:high", js "d93f0b");
    (js "tp:medium", js "fbca04");
    (js "tp:low", js "0e8a16") ].

Definition LABEL_DESCRIPTIONS : list (jsstring * jsstring) :=
  [ (js "tp:todo", js "Task is in backlog / to do");
    (js "tp:in-progress", js "Task is currently being worked on");
    (js "tp:done", js "Task is completed");
    (js "tp:blocked", js "Task is blocked");
    (js "tp:urgent", js "Urgent priority");
    (js "tp:high", js "High priority");
    (js "tp:medium", js "Medium priority");
    (js "tp:low", js "Low priority") ].

(** A label of the repository. *)
Module RepoLabel.
Record t : Type := { name : jsstring; color : jsstring; description : jsstring }.
End RepoLabel.

(** [{ ...a, ...b }] on constant tables: an entry of [b] replaces the
    entry of [a] with the same key where it stands, and is added at the
    end otherwise. *)
Fixpoint setEntry (k v : jsstring) (table : list (jsstring * jsstring))
  : list (jsstring * jsstring) :=
  match table with
  | [] => [(k, v)]
  | (k', v') :: rest =>
      if str_eqb k' k then (k', v) :: rest else (k', v') :: setEntry k v rest
  end.

Definition spread (a b : list (jsstring * jsstring)) : list (jsstring * jsstring) :=
  fold_left (fun acc p => setEntry (fst p) (snd p) acc) b a.

(** [table[k] || d] *)
Definition lookupOr (k : jsstring) (table : list (jsstring * jsstring))
  (d : jsstring) : jsstring :=
  match lookup k table with
  | Some (c :: rest) => c :: rest
  | _ => d
  end.

(** The label [initializeRepo] asks for under a name. *)
Definition labelFor (labelName : jsstring) : RepoLabel.t :=
  {| RepoLabel.name := labelName;
     RepoLabel.color := lookupOr labelName LABEL_COLORS (js "ededed");
     RepoLabel.description := lookupOr labelName LABEL_DESCRIPTIONS [] |}.

(** The labels of the repository, in the order of their creation.
    [gh label create --force]: a label of that name is replaced where it
    stands, a new one is added at the end. *)
Fixpoint ghLabelCreate (l : RepoLabel.t) (labels : list RepoLabel.t)
  : list RepoLabel.t :=
  match labels with
  | [] => [l]
  | x :: rest =>
      if str_eqb (RepoLabel.name x) (RepoLabel.name l) then l :: rest
      else x :: ghLabelCreate l rest
  end.

(** [gh label list --json name]: the names of the first 30 labels, in the
    order of their creation (the defaults of the command). *)
Definition ghLabelList (labels : list RepoLabel.t) : list jsstring :=
  map RepoLabel.name (firstn 30 labels).

(** The label of the repository with a given name. *)
Definition labelNamed (n : jsstring) (labels : list RepoLabel.t)
  : option RepoLabel.t :=
  find (fun l => str_eqb (RepoLabel.name l) n) labels.

(** Which calls of [gh] fail during [initializeRepo]. *)
Module Outage.
Record t : Type := { createFails : jsstring -> bool; listFails : bool }.
Definition none : t := {| createFails := fun _ => false; listFails := false |}.
End Outage.

(** The labels of the repository after [initializeRepo] and what it
    returned: [created] and [existing], or [None] when it threw. *)
Module Provisioned.
Record t : Type := {
  labels : list RepoLabel.t;
  returned : option (list jsstring * list jsstring)
}.
End Provisioned.

(** One iteration of the loop of [initializeRepo]; a failure of
    [gh label create] is swallowed. *)
Definition provisionOne (fails : jsstring -> bool)
  (acc : list RepoLabel.t * list jsstring) (entry : jsstring * jsstring)
  : list RepoLabel.t * list jsstring :=
  let labelName := snd entry in
  if fails labelName then acc
  else (ghLabelCreate (labelFor labelName) (fst acc), snd acc ++ [labelName]).

Definition initializeRepo (outage : Outage.t) (labels : list RepoLabel.t)
  : Provisioned.t :=
  let allLabels := spread STATUS_LABELS PRIORITY_LABELS in
  let (labels', created) :=
    fold_left (provisionOne (Outage.createFails outage)) allLabels (labels, []) in
  {| Provisioned.labels := labels';
     Provisioned.returned :=
       if Outage.listFails outage then None
       else Some (created, filter (startsWith (js "tp:")) (ghLabelList labels')) |}.

(** ** Configuration (core/config.js) *)

Module Env.
(** The variables of [process.env] the module reads; [None] is an unset
    variable. *)
Record t : Type := {
  GITHUB_OWNER : option jsstring;
  GITHUB_REPO : option jsstring;
  GITHUB_TOKEN : option jsstring;
  PORT : option jsstring;
  NOTIFY_ENABLED : option jsstring;
  NOTIFY_MORNING_TIME : option jsstring;
  OPENAI_API_KEY : option jsstring
}.
End Env.

Module FileConfig.
(** The fields the module reads from the parsed configuration file;
    [VUndefined] is an absent field. *)
Record t : Type := {
  owner : value;
  repo : value;
  token : value;
  port : value;
  notify_enabled : value;
  notify_morning_time : value;
  openai_api_key : value
}.
(** The object [{}]. *)
Definition empty : t :=
  {| owner := VUndefined; repo := VUndefined; token := VUndefined;
     port := VUndefined; notify_enabled := VUndefined;
     notify_morning_time := VUndefined; openai_api_key := VUndefined |}.
End FileConfig.

(** What [JSON.parse] makes of the configuration file: there is no file or
    its text is not JSON (the module then keeps [{}]), the text is [null],
    or it is a value with the given fields. *)
Inductive ConfigFile : Type :=
| NoConfig
| JsonNull
| Json (fields : FileConfig.t).

Module Gh.
(** The answers of the two [gh] commands of [getConfig]; [None] is a
    command that fails.  [repoView] holds [owner?.login] and [name] of the
    parsed answer, [authToken] the text printed. *)
Record t : Type := {
  repoView : option (value * value);
  authToken : option jsstring
}.
End Gh.

Module Config.
(** [port] is [None] when [parseInt] yields NaN. *)
Record t : Type := {
  owner : value;
  repo : value;
  token : value;
  port : option Z;
  notify_enabled : bool;
  notify_morning_time : value;
  openai_api_key : value
}.
End Config.

(** [process.env.NAME] *)
Definition envVar (o : option jsstring) : value :=
  match o with
  | Some text => VStr text
  | None => VUndefined
  end.

(** [fileConfig.field]: reading a property of [null] throws. *)
Definition fileField (file : ConfigFile) (field : FileConfig.t -> value)
  : option value :=
  match file with
  | NoConfig => Some (field FileConfig.empty)
  | JsonNull => None
  | Json fields => Some (field fields)
  end.

(** [a || fileConfig.field || d]: the file is only read when [a] is
    falsy. *)
Definition orFileOr (a : value) (file : ConfigFile)
  (field : FileConfig.t -> value) (d : value) : option value :=
  if truthy a then Some a
  else match fileField file field with
       | Some v => Some (js_or v d)
       | None => None
       end.

Fixpoint takeWhile (A : Type) (p : A -> bool) (l : list A) : list A :=
  match l with
  | [] => []
  | x :: l' => if p x then x :: takeWhile p l' else []
  end.

(** [parseInt(text, 10)]: white space is skipped, then an optional sign,
    then the longest run of decimal digits is read; [None] is NaN.  The
    integer is exact. *)
Definition parseInt10 (text : jsstring) : option Z :=
  let t := trimStart text in
  let (negative, rest) :=
    match t with
    | c :: r =>
        if Ascii.eqb c "-" then (true, r)
        else if Ascii.eqb c "+" then (false, r)
        else (false, t)
    | [] => (false, [])
    end in
  match numeral 10%Z (takeWhile isDigit rest) with
  | Some v => Some (if negative then (- v)%Z else v)
  | None => None
  end.

Definition getConfig (env : Env.t) (file : ConfigFile) (gh : Gh.t)
  : option Config.t :=
  match orFileOr (envVar (Env.GITHUB_OWNER env)) file FileConfig.owner (VStr []),
        orFileOr (envVar (Env.GITHUB_REPO env)) file FileConfig.repo (VStr []),
        orFileOr (envVar (Env.GITHUB_TOKEN env)) file FileConfig.token (VStr []),
        orFileOr (envVar (Env.PORT env)) file FileConfig.port (VStr (js "3847")),
        orFileOr (envVar (Env.NOTIFY_ENABLED env)) file
          FileConfig.notify_enabled (VStr (js "true")),
        orFileOr (envVar (Env.NOTIFY_MORNING_TIME env)) file
          FileConfig.notify_morning_time (VStr (js "09:00")),
        orFileOr (envVar (Env.OPENAI_API_KEY env)) file
          FileConfig.openai_api_key VNull with
  | Some ghOwner, Some ghRepo, Some ghToken, Some port, Some enabled,
    Some morning, Some key =>
      let (ghOwner, ghRepo) :=
        if negb (truthy ghOwner) || negb (truthy ghRepo) then
          match Gh.repoView gh with
          | Some (login, name) => (js_or ghOwner login, js_or ghRepo name)
          | None => (ghOwner, ghRepo)
          end
        else (ghOwner, ghRepo) in
      let ghToken :=
        if negb (truthy ghToken) then
          match Gh.authToken gh with
          | Some printed => VStr (trim printed)
          | None => ghToken
          end
        else ghToken in
      Some {| Config.owner := ghOwner; Config.repo := ghRepo;
              Config.token := ghToken;
              Config.port := parseInt10 (ToString port);
              Config.notify_enabled := strictEqStr enabled (js "true");
              Config.notify_morning_time := morning;
              Config.openai_api_key := key |}
  | _, _, _, _, _, _, _ => None
  end.

(** A value after [JSON.stringify] and [JSON.parse]: an infinite number
    becomes [null]; a field holding [undefined] is left out, which reads
    as [undefined] again. *)
Definition throughJson (v : value) : value :=
  match v with
  | VNum (Inf _) => VNull
  | _ => v
  end.

(** The configuration file [saveConfig] leaves behind, as [getConfig]
    parses it. *)
Definition saveConfig (c : Config.t) : ConfigFile :=
  Json {| FileConfig.owner := throughJson (Config.owner c);
          FileConfig.repo := throughJson (Config.repo c);
          FileConfig.token := throughJson (Config.token c);
          FileConfig.port :=
            match Config.port c with
            | Some n => VNum (Dec n 0)
            | None => VNull
            end;
          FileConfig.notify_enabled := VBool (Config.notify_enabled c);
          FileConfig.notify_morning_time :=
            throughJson (Config.notify_morning_time c);
          FileConfig.openai_api_key := throughJson (Config.openai_api_key c) |}.

Definition validateConfig (c : Config.t) : list jsstring :=
  (if truthy (Config.owner c) then []
   else [js "GitHub owner not set. Run `tp init` or set GITHUB_OWNER."])
  ++ (if truthy (Config.repo c) then []
      else [js "GitHub repo not set. Run `tp init` or set GITHUB_REPO."])
  ++ (if truthy (Config.token c) then []
      else [js "GitHub token not found. Run `gh auth login` first."]).

(** ** Day planning and decomposition (core/ai.js)

    The assistant is an external collaborator: its answer, once parsed, is
    an input of the model.  The reasons of the plan without assistant are
    four fixed texts, which hold characters outside the range of the
    model's strings; they are kept as the four cases they stand for. *)

Inductive Reason : Type :=
| WasDue (due : value)
| DueToday
| InProgress
| AddedToMyDay
| Given (text : value).

Module PlanEntry.
Record t : Type := { id : value; task : Task.t; reason : Reason }.
End PlanEntry.

Module DayPlan.
(** [summary] and [tip] of an answer of the assistant are carried as they
    are; the tip of the plan without assistant is a fixed text. *)
Record t : Type := { plan : list PlanEntry.t; summary : value }.
End DayPlan.

Definition entryFor (reason : Task.t -> Reason) (t : Task.t) : PlanEntry.t :=
  {| PlanEntry.id := VNum (Dec (Task.id t) 0); PlanEntry.task := t;
     PlanEntry.reason := reason t |}.

(** The plan [simpleDayPlan] builds from the buckets of My Day. *)
Definition simpleDayPlanOf (myDay : MyDay.t) : DayPlan.t :=
  let focusTasks :=
    firstn 7
      (map (entryFor (fun t => WasDue (Task.due_date t))) (MyDay.overdue myDay)
       ++ map (entryFor (fun _ => DueToday)) (MyDay.due_today myDay)
       ++ map (entryFor (fun _ => InProgress)) (MyDay.in_progress myDay)
       ++ map (entryFor (fun _ => AddedToMyDay)) (MyDay.my_day myDay)) in
  {| DayPlan.plan := focusTasks;
     DayPlan.summary :=
       VStr (numToString (Dec (Z.of_nat (length focusTasks)) 0)
             ++ js " tasks planned for today based on priority and deadlines.") |}.

(** An entry of the plan the assistant answers with. *)
Module Suggestion.
Record t : Type := { id : value; reason : value }.
End Suggestion.

Module Answer.
Record t : Type := { plan : list Suggestion.t; summary : value }.
End Answer.

(** [taskMap.get(id)] on [new Map(tasks.map(t => [t.id, t]))]: keys are
    compared as numbers, of two tasks with one number the later one is
    kept. *)
Definition taskOfId (tasks : list Task.t) (id : value) : option Task.t :=
  match id with
  | VNum (Dec n O) => find (fun t => (Task.id t =? n)%Z) (rev tasks)
  | _ => None
  end.

(** [plan.map(p => ({ ...p, task: taskMap.get(p.id) || null }))
    .filter(p => p.task)] *)
Definition attachTasks (tasks : list Task.t) (plan : list Suggestion.t)
  : list PlanEntry.t :=
  flat_map
    (fun p =>
       match taskOfId tasks (Suggestion.id p) with
       | Some t =>
           [{| PlanEntry.id := Suggestion.id p; PlanEntry.task := t;
               PlanEntry.reason := Given (Suggestion.reason p) |}]
       | None => []
       end)
    plan.

(** [isAIAvailable] on the configuration read. *)
Definition isAIAvailable (c : Config.t) : bool := truthy (Config.openai_api_key c).

Section Planning.

Variable localeCompare : jsstring -> jsstring -> Z.

Definition simpleDayPlan (s : Store.t) (today : jsstring) : option DayPlan.t :=
  option_map simpleDayPlanOf (getMyDayTasks localeCompare s today).

(** [planMyDay]; [answer] is the parsed answer of the assistant, [None]
    when the request or the parsing fails. *)
Definition planMyDay (c : Config.t) (s : Store.t) (today : jsstring)
  (answer : option Answer.t) : option DayPlan.t :=
  if negb (isAIAvailable c) then simpleDayPlan s today
  else
    match listTasks localeCompare s Filters.none, answer with
    | Some tasks, Some a =>
        Some {| DayPlan.plan := attachTasks tasks (Answer.plan a);
                DayPlan.summary := Answer.summary a |}
    | _, _ => None
    end.

End Planning.

(** An entry of the assistant's answer to [decomposeTask]; [None] is an
    absent field. *)
Module Subtask.
Record t : Type := {
  title : jsstring;
  description : option jsstring;
  estimated_hours : option value;
  priority : option jsstring
}.
End Subtask.

(** The options [decomposeTask] passes to [createTask] for a subtask. *)
Definition subtaskOptions (taskId : Z) (parent : Task.t) (sub : Subtask.t)
  : Options.t :=
  {| Options.priority := Subtask.priority sub;
     Options.status := None;
     Options.due_date := None;
     Options.assignee := None;
     Options.sprint_id := Task.sprint_id parent;
     Options.description := Subtask.description sub;
     Options.my_day := None;
     Options.estimated_hours := Subtask.estimated_hours sub;
     Options.tags := None;
     Options.parent_task := Some (VNum (Dec taskId 0)) |}.

(** The loop of [decomposeTask]: the store afterwards and the tasks
    created, [None] when a creation throws; [assigned k] is what the
    tracker assigns to the issue created in the [k]-th place. *)
Fixpoint createSubtasks (s : Store.t) (taskId : Z) (parent : Task.t)
  (subs : list Subtask.t) (assigned : nat -> Assigned.t) (k : nat)
  : Store.t * option (list Task.t) :=
  match subs with
  | [] => (s, Some [])
  | sub :: rest =>
      match createTask s (Subtask.title sub) (subtaskOptions taskId parent sub)
              (assigned k) with
      | None => (s, None)
      | Some (s', t) =>
          let (s'', created) :=
            createSubtasks s' taskId parent rest assigned (S k) in
          (s'', option_map (cons t) created)
      end
  end.

(** A subtask whose priority and estimate print on one line. *)
Definition subtaskOk (sub : Subtask.t) : Prop :=
  oneLine (VStr (textOr (js "medium") (Subtask.priority sub)))
  /\ oneLine (withDefault (VNum (Dec 0 0)) (Subtask.estimated_hours sub)).

Section Decomposition.

Variable localeCompare : jsstring -> jsstring -> Z.

(** [decomposeTask]: the store afterwards and the returned parent and
    subtasks, [None] when it throws; [answer] is the parsed answer of the
    assistant. *)
Definition decomposeTask (c : Config.t) (s : Store.t) (taskId : Z)
  (answer : option (list Subtask.t)) (assigned : nat -> Assigned.t)
  : Store.t * option (Task.t * list Task.t) :=
  if negb (isAIAvailable c) then (s, None)
  else
    match listTasks localeCompare s Filters.none with
    | None => (s, None)
    | Some tasks =>
        match find (fun t => (Task.id t =? taskId)%Z) tasks with
        | None => (s, None)
        | Some task =>
            match answer with
            | None => (s, None)
            | Some subs =>
                let (s', created) :=
                  createSubtasks s taskId task subs assigned 0 in
                (s', option_map (pair task) created)
            end
        end
    end.

End Decomposition.

(** The filters without the sprint. *)
Definition withoutSprint (f : Filters.t) : Filters.t :=
  {| Filters.status := Filters.status f; Filters.priority := Filters.priority f;
     Filters.assignee := Filters.assignee f; Filters.sprint_id := None;
     Filters.my_day := Filters.my_day f;
     Filters.include_done := Filters.include_done f |}.


(** The sum of the counters of a table. *)
Definition sumOfCounts (counts : list (jsstring * Z)) : Z :=
  fold_right Z.add 0%Z (map snd counts).

(** A counter that holds a positive whole number. *)
Definition wholeCount (v : value) : Prop :=
  exists n, v = VNum (Dec n 0) /\ (0 < n)%Z.

(** The number a counter holds; a counter that holds a text adds nothing. *)
Definition numberOf (v : value) : Z :=
  match v with
  | VNum (Dec m O) => m
  | _ => 0%Z
  end.

(** The sum of the numbers among the counters of an object. *)
Definition sumOfNumbers (counts : obj) : Z :=
  fold_right Z.add 0%Z (map (fun p => numberOf (snd p)) counts).

(** A task assigned to the login [constructor]. *)
Definition constructorIssue : Issue.t :=
  {| Issue.number := 5; Issue.title := js "Fix bug";
     Issue.body := Some (js "Ship it"); Issue.state := js "open";
     Issue.labels := [LabelObject (js "tp:todo")];
     Issue.assignees := [js "constructor"];
     Issue.assignee := Some (js "constructor"); Issue.milestone := None;
     Issue.createdAt := None; Issue.created_at := None;
     Issue.updatedAt := None; Issue.updated_at := None;
     Issue.html_url := None; Issue.url := None;
     Issue.state_reason := None |}.

(** A task that asks for attention today: not done, and flagged for My
    Day, due today or overdue. *)
Definition needsFocus (today : jsstring) (t : Task.t) : bool :=
  notDone t
  && (truthy (Task.my_day t)
      || strictEqStr (Task.due_date t) today
      || (truthy (Task.due_date t) && ltStr (Task.due_date t) today)).

(** ** More sample data *)

(** A body written by hand: spaces around a key, an array-index key, a
    hexadecimal number, a colon inside a value, no space after a colon. *)
Definition handWrittenBody : jsstring :=
  join [nl]
    [ js "---"; js " due_date : 2026-02-10"; js "7: 0x10";
      js "note:  see: the wiki"; js "my_day:true"; js "---"; js "  Ship it  " ].

(** A body with two lines under the key [__proto__]: the first removes
    the prototype of the map, the second is stored. *)
Definition protoBody : jsstring :=
  join [nl]
    [ js "---"; js "__proto__: null"; js "__proto__: 5"; js "---"; js "x" ].

(** The options of an urgent task that is already in progress. *)
Definition urgentInProgress : Options.t :=
  {| Options.priority := Some (js "urgent");
     Options.status := Some (js "in-progress");
     Options.due_date := Some (VStr (js "2026-02-10"));
     Options.assignee := Some (js "octocat"); Options.sprint_id := None;
     Options.description := Some (js "Quarterly numbers");
     Options.my_day := Some (VBool true);
     Options.estimated_hours := Some (VNum (Dec 25 1));
     Options.tags := None; Options.parent_task := None |}.

(** What the tracker assigns to the issue numbered 7. *)
Definition firstAssigned : Assigned.t :=
  {| Assigned.number := 7; Assigned.stamp := js "2026-02-01T09:00:00Z";
     Assigned.link := js "https://github.com/o/r/issues/7";
     Assigned.apiLink := js "https://api.github.com/repos/o/r/issues/7" |}.

(** Options of a task whose due date is written in digits only. *)
Definition dueInDigits : Options.t :=
  {| Options.priority := None; Options.status := None;
     Options.due_date := Some (VStr (js "20260210"));
     Options.assignee := None; Options.sprint_id := None;
     Options.description := None; Options.my_day := None;
     Options.estimated_hours := None; Options.tags := None;
     Options.parent_task := None |}.

(** What the tracker assigns to the issue it numbers [n]. *)
Definition numbered (n : Z) : Assigned.t :=
  {| Assigned.number := n; Assigned.stamp := js "2026-02-01T09:00:00Z";
     Assigned.link := js "https://github.com/o/r/issues";
     Assigned.apiLink := js "https://api.github.com/repos/o/r/issues" |}.

(** Options naming a status and a priority the tables do not have. *)
Definition unknownNames : Options.t :=
  {| Options.priority := Some (js "critical");
     Options.status := Some (js "backlog");
     Options.due_date := None; Options.assignee := None;
     Options.sprint_id := None; Options.description := None;
     Options.my_day := None; Options.estimated_hours := None;
     Options.tags := None; Options.parent_task := None |}.

(** Options of a task that is created as done. *)
Definition bornDone : Options.t :=
  {| Options.priority := None; Options.status := Some (js "done");
     Options.due_date := None; Options.assignee := None;
     Options.sprint_id := None; Options.description := None;
     Options.my_day := None; Options.estimated_hours := None;
     Options.tags := None; Options.parent_task := None |}.

(** A task of high priority with two labels of the user's own and two
    status labels. *)
Definition labelledIssue : Issue.t :=
  sampleIssue 3 (js "open") None
    (buildYamlFrontMatter (sampleMeta VNull) (js "Ship it"))
    ["bug"; "tp:blocked"; "tp:high"; "help wanted"; "tp:in-progress"]%string.

(** An issue written outside the planner and labelled by hand. *)
Definition plainIssue : Issue.t :=
  sampleIssue 4 (js "open") None (js "Steps to reproduce") ["tp:todo"]%string.

(** A hundred open issues that are not tasks, followed by a task. *)
Definition crowdedStore : Store.t :=
  sampleStore
    (map (fun n => sampleIssue (Z.of_nat n) (js "open") None
                     (js "Unrelated report") ["bug"]%string)
         (seq 2 100)
     ++ [lateIssue]).

(** Filters on a sprint the sample stores do not have, and on a status. *)
Definition sprintNine : Filters.t :=
  {| Filters.status := None; Filters.priority := None;
     Filters.assignee := None; Filters.sprint_id := Some 9%Z;
     Filters.my_day := false; Filters.include_done := false |}.

Definition onlyBlocked : Filters.t :=
  {| Filters.status := Some (js "blocked"); Filters.priority := None;
     Filters.assignee := None; Filters.sprint_id := None;
     Filters.my_day := false; Filters.include_done := false |}.

(** An environment that only names the repository and the token. *)
Definition repoEnv : Env.t :=
  {| Env.GITHUB_OWNER := Some (js "octo"); Env.GITHUB_REPO := Some (js "planner");
     Env.GITHUB_TOKEN := Some (js "secret"); Env.PORT := None;
     Env.NOTIFY_ENABLED := None; Env.NOTIFY_MORNING_TIME := None;
     Env.OPENAI_API_KEY := None |}.

(** [gh] is not installed. *)
Definition noGh : Gh.t := {| Gh.repoView := None; Gh.authToken := None |}.

(** Thirty labels of the user's own. *)
Definition thirtyLabels : list RepoLabel.t :=
  map (fun n => {| RepoLabel.name := js "area-" ++ [ascii_of_nat (65 + n)];
                   RepoLabel.color := js "ededed";
                   RepoLabel.description := [] |})
      (seq 0 30).

(** A configuration with a key for the assistant, and an answer of the
    assistant that names a task that is listed, one that is not, and a
    number written as text. *)
Definition aiConfig : Config.t :=
  {| Config.owner := VStr (js "octo"); Config.repo := VStr (js "planner");
     Config.token := VStr (js "secret"); Config.port := Some 3847%Z;
     Config.notify_enabled := true;
     Config.notify_morning_time := VStr (js "09:00");
     Config.openai_api_key := VStr (js "sk-test") |}.

Definition sampleAnswer : Answer.t :=
  {| Answer.plan :=
       [ {| Suggestion.id := VNum (Dec 1 0);
            Suggestion.reason := VStr (js "It is late") |};
         {| Suggestion.id := VNum (Dec 99 0);
            Suggestion.reason := VStr (js "Looks important") |};
         {| Suggestion.id := VStr (js "1");
            Suggestion.reason := VStr (js "Same task, as text") |} ];
     Answer.summary := VStr (js "One thing at a time") |}.

(** Two subtasks the assistant proposes, and the numbers the tracker
    hands out from 20 on. *)
Definition twoSubtasks : list Subtask.t :=
  [ {| Subtask.title := js "Collect the numbers";
       Subtask.description := Some (js "From the ledger");
       Subtask.estimated_hours := Some (VNum (Dec 2 0));
       Subtask.priority := Some (js "high") |};
    {| Subtask.title := js "Write the summary"; Subtask.description := None;
       Subtask.estimated_hours := None; Subtask.priority := None |} ].

Definition fromTwenty (k : nat) : Assigned.t :=
  {| Assigned.number := 20 + Z.of_nat k;
     Assigned.stamp := js "2026-02-01T09:00:00Z";
     Assigned.link := js "https://github.com/o/r/issues";
     Assigned.apiLink := js "https://api.github.com/repos/o/r/issues" |}.

(** * Properties *)

Unset Implicit Arguments.

(** ** Strings *)

Lemma str_eqb_spec (a b : jsstring) : reflect (a = b) (str_eqb a b).
Proof.
  revert b; induction a as [|x a IH]; intros [|y b]; simpl;
    try (constructor; congruence).
  destruct (Ascii.eqb_spec x y) as [->|Hxy]; simpl.
  - destruct (IH b) as [->|Hab]; constructor; congruence.
  - constructor; congruence.
Qed.

Lemma str_eqb_refl (a : jsstring) : str_eqb a a = true.
Proof. destruct (str_eqb_spec a a); congruence. Qed.

Lemma str_eqb_eq (a b : jsstring) : str_eqb a b = true <-> a = b.
Proof. destruct (str_eqb_spec a b); split; congruence. Qed.

Lemma str_eqb_neq (a b : jsstring) : str_eqb a b = false <-> a <> b.
Proof. destruct (str_eqb_spec a b); split; congruence. Qed.

Lemma includes_In (n : jsstring) (names : list jsstring) :
  includes n names = true <-> In n names.
Proof.
  unfold includes. rewrite existsb_exists. split.
  - intros (x & Hx & E). apply str_eqb_eq in E. congruence.
  - intros H. exists n. split; [exact H | apply str_eqb_refl].
Qed.

Lemma includes_not_In (n : jsstring) (names : list jsstring) :
  includes n names = false <-> ~ In n names.
Proof.
  rewrite <- includes_In. destruct (includes n names); split; congruence.
Qed.

(** ** Label taxonomy *)

Lemma firstIncluded_first table names pre key label post :
  table = pre ++ (key, label) :: post ->
  In label names ->
  (forall k l, In (k, l) pre -> ~ In l names) ->
  firstIncluded table names = Some key.
Proof.
  intros -> Hin. induction pre as [|[k l] pre IH]; intros Hpre; simpl.
  - apply includes_In in Hin. now rewrite Hin.
  - assert (E : includes l names = false).
    { apply includes_not_In. apply (Hpre k l). now left. }
    rewrite E. apply IH. intros k' l' H'. apply (Hpre k' l'). now right.
Qed.

Lemma firstIncluded_none table names :
  (forall k l, In (k, l) table -> ~ In l names) ->
  firstIncluded table names = None.
Proof.
  induction table as [|[k l] table IH]; intros H; simpl; [reflexivity|].
  assert (E : includes l names = false).
  { apply includes_not_In. apply (H k l). now left. }
  rewrite E. apply IH. intros k' l' H'. apply (H k' l'). now right.
Qed.

Lemma firstIncluded_only table names key label :
  NoDup (map fst table) ->
  In (key, label) table ->
  In label names ->
  (forall k l, In (k, l) table -> k <> key -> ~ In l names) ->
  firstIncluded table names = Some key.
Proof.
  intros Hnd Hin Hl Hothers.
  destruct (in_split _ _ Hin) as (pre & post & ->).
  eapply firstIncluded_first; [reflexivity | exact Hl |].
  intros k l Hk. apply (Hothers k l).
  - apply in_or_app. now left.
  - intros ->. rewrite map_app in Hnd. simpl in Hnd.
    apply NoDup_remove_2 in Hnd. apply Hnd. apply in_or_app. left.
    change key with (fst (key, l)). now apply in_map.
Qed.

Lemma STATUS_LABELS_keys_NoDup : NoDup (map fst STATUS_LABELS).
Proof.
  repeat constructor; simpl; intuition discriminate.
Qed.

Lemma PRIORITY_LABELS_keys_NoDup : NoDup (map fst PRIORITY_LABELS).
Proof.
  repeat constructor; simpl; intuition discriminate.
Qed.

(** C6 - Label-to-enum recovery.  For every label list: when exactly one
    status label is present [getStatusFromLabels] returns its status, and
    likewise [getPriorityFromLabels] for the one priority label; when no
    status label (no priority label) is present the result is [todo]
    ([medium]); when several are present the result is the first one in
    the declaration order of the enumeration. *)
Theorem label_recovery (labels : list Label) :
  let names := map labelName labels in
  (forall status label,
      In (status, label) STATUS_LABELS -> In label names ->
      (forall k l, In (k, l) STATUS_LABELS -> k <> status -> ~ In l names) ->
      getStatusFromLabels labels = status)
  /\ (forall priority label,
      In (priority, label) PRIORITY_LABELS -> In label names ->
      (forall k l, In (k, l) PRIORITY_LABELS -> k <> priority -> ~ In l names) ->
      getPriorityFromLabels labels = priority)
  /\ ((forall k l, In (k, l) STATUS_LABELS -> ~ In l names) ->
      getStatusFromLabels labels = js "todo")
  /\ ((forall k l, In (k, l) PRIORITY_LABELS -> ~ In l names) ->
      getPriorityFromLabels labels = js "medium")
  /\ (forall pre status label post,
      STATUS_LABELS = pre ++ (status, label) :: post -> In label names ->
      (forall k l, In (k, l) pre -> ~ In l names) ->
      getStatusFromLabels labels = status)
  /\ (forall pre priority label post,
      PRIORITY_LABELS = pre ++ (priority, label) :: post -> In label names ->
      (forall k l, In (k, l) pre -> ~ In l names) ->
      getPriorityFromLabels labels = priority).
Proof.
  intro names. unfold getStatusFromLabels, getPriorityFromLabels.
  fold names. repeat split.
  - intros status label Hin Hl Hothers.
    now rewrite (@firstIncluded_only _ _ _ _ STATUS_LABELS_keys_NoDup Hin Hl Hothers).
  - intros priority label Hin Hl Hothers.
    now rewrite (@firstIncluded_only _ _ _ _ PRIORITY_LABELS_keys_NoDup Hin Hl Hothers).
  - intros Hnone. now rewrite (@firstIncluded_none _ _ Hnone).
  - intros Hnone. now rewrite (@firstIncluded_none _ _ Hnone).
  - intros pre status label post E Hl Hpre.
    now rewrite (@firstIncluded_first _ _ _ _ _ _ E Hl Hpre).
  - intros pre priority label post E Hl Hpre.
    now rewrite (@firstIncluded_first _ _ _ _ _ _ E Hl Hpre).
Qed.

Lemma label_recovery_witness :
  let labels :=
    map (fun n => LabelObject (js n))
        ["bug"; "tp:blocked"; "tp:done"; "tp:high"]%string in
  getStatusFromLabels labels = js "done"
  /\ getPriorityFromLabels labels = js "high"
  /\ getStatusFromLabels [LabelObject (js "bug")] = js "todo"
  /\ getPriorityFromLabels [LabelObject (js "bug")] = js "medium".
Proof.
  intro labels.
  destruct (label_recovery labels) as (_ & Hp & _ & _ & Hs & _).
  destruct (label_recovery [LabelObject (js "bug")]) as (_ & _ & Hs0 & Hp0 & _).
  split; [|split; [|split]].
  - apply (Hs [(js "todo", js "tp:todo"); (js "in-progress", js "tp:in-progress")]
              (js "done") (js "tp:done") [(js "blocked", js "tp:blocked")]).
    + reflexivity.
    + simpl. tauto.
    + intros k l [E|[E|[]]]; inversion E; subst; simpl;
        intuition discriminate.
  - apply (Hp (js "high") (js "tp:high")).
    + simpl. tauto.
    + simpl. tauto.
    + intros k l [E|[E|[E|[E|[]]]]] Hk; inversion E; subst; simpl;
        try congruence; intuition discriminate.
  - apply Hs0. intros k l [E|[E|[E|[E|[]]]]]; inversion E; subst; simpl;
      intuition discriminate.
  - apply Hp0. intros k l [E|[E|[E|[E|[]]]]]; inversion E; subst; simpl;
      intuition discriminate.
Defined.

Lemma startsWith_tp_system (n : jsstring) :
  isSystemLabel n = true -> startsWith (js "tp:") n = true.
Proof.
  unfold isSystemLabel. rewrite includes_In. simpl.
  intros H. repeat (destruct H as [<-|H]; [reflexivity|]). destruct H.
Qed.

(** C4 - User-tag separation, as the code has it: [getUserLabels] returns,
    in their order, exactly the label names that do not start with the
    prefix [tp:].  None of the eight fixed names is ever returned, and a
    name outside the fixed vocabulary is returned exactly when it lacks
    the prefix. *)
Theorem user_labels_exclude_prefix (labels : list Label) :
  getUserLabels labels
  = filter (fun n => negb (startsWith (js "tp:") n)) (map labelName labels)
  /\ (forall n, In n (getUserLabels labels) <->
                In n (map labelName labels) /\ startsWith (js "tp:") n = false)
  /\ (forall n, isSystemLabel n = true -> ~ In n (getUserLabels labels)).
Proof.
  assert (M : forall n, In n (getUserLabels labels) <->
                In n (map labelName labels) /\ startsWith (js "tp:") n = false).
  { intro n. unfold getUserLabels. rewrite filter_In.
    now rewrite negb_true_iff. }
  split; [reflexivity|]. split; [exact M|].
  intros n Hsys Hin. apply M in Hin. apply startsWith_tp_system in Hsys.
  destruct Hin. congruence.
Qed.

Lemma user_labels_exclude_prefix_witness :
  ~ In (js "tp:done")
       (getUserLabels [LabelObject (js "tp:done"); LabelString (js "bug")]).
Proof.
  apply (user_labels_exclude_prefix
           [LabelObject (js "tp:done"); LabelString (js "bug")]).
  reflexivity.
Defined.

(** The claim C4 as stated fails: the name [tp:custom] is not one of the
    eight fixed names, yet it is not returned as a user tag. *)
Lemma user_labels_counterexample :
  isSystemLabel (js "tp:custom") = false
  /\ getUserLabels [LabelObject (js "tp:custom"); LabelObject (js "bug")]
     <> filter (fun n => negb (isSystemLabel n))
          (map labelName [LabelObject (js "tp:custom"); LabelObject (js "bug")]).
Proof.
  split; [reflexivity | vm_compute; discriminate].
Qed.

(** ** Sorting *)

Lemma insertSorted_perm (A : Type) (cmp : A -> A -> option Z) (x : A) :
  forall l r, insertSorted cmp x l = Some r -> Permutation (x :: l) r.
Proof.
  induction l as [|y l IH]; simpl; intros r H.
  - injection H as <-. apply Permutation_refl.
  - destruct (cmp x y) as [c|]; [|discriminate].
    destruct (c <? 0)%Z.
    + destruct (insertSorted cmp x l) as [r'|] eqn:E; [|discriminate].
      injection H as <-.
      eapply perm_trans; [apply perm_swap|]. apply perm_skip. now apply IH.
    + injection H as <-. apply Permutation_refl.
Qed.

Lemma sortPrefix_perm (A : Type) (cmp : A -> A -> option Z) :
  forall l r, sortPrefix cmp l = Some r -> Permutation l r.
Proof.
  induction l as [|x l IH]; simpl; intros r H.
  - injection H as <-. constructor.
  - destruct (sortPrefix cmp l) as [s|] eqn:E; [|discriminate].
    eapply perm_trans; [apply perm_skip, IH; reflexivity|].
    now apply insertSorted_perm with (cmp := cmp).
Qed.

Lemma sortBy_perm (A : Type) (cmp : A -> A -> option Z) :
  forall l r, sortBy cmp l = Some r -> Permutation l r.
Proof.
  unfold sortBy. intros l r H.
  destruct (sortPrefix cmp (rev l)) as [p|] eqn:E; [|discriminate].
  injection H as <-. apply sortPrefix_perm in E.
  eapply perm_trans; [apply Permutation_rev|].
  eapply perm_trans; [exact E|]. apply Permutation_rev.
Qed.

(** ** Listing *)

Lemma tasksFromIssues_perm lc f issues tasks :
  tasksFromIssues lc f issues = Some tasks ->
  Permutation tasks
    (filter (fun t => negb (Filters.my_day f) || truthy (Task.my_day t))
       (map issueToTask (filter hasTpLabel issues))).
Proof.
  unfold tasksFromIssues, unsortedTasks. intros H. apply sortBy_perm in H.
  apply Permutation_sym. eapply perm_trans; [|exact H].
  destruct (Filters.my_day f); simpl.
  - apply Permutation_refl.
  - rewrite forallb_filter_id; [apply Permutation_refl|].
    now apply forallb_forall.
Qed.

Lemma In_firstn (A : Type) (x : A) :
  forall n l, In x (firstn n l) -> In x l.
Proof.
  induction n as [|n IH]; intros [|y l]; simpl; try tauto.
  intros [E|H]; [now left | right; now apply IH].
Qed.

(** The conversion reads neither the state of an issue nor its reason:
    it returns the same task for an issue as the tracker holds it and as
    [gh] prints it. *)
Lemma issueToTask_ghJson (i : Issue.t) : issueToTask (ghJson i) = issueToTask i.
Proof. reflexivity. Qed.

Lemma unsortedTasks_ghJson (f : Filters.t) (l : list Issue.t) :
  unsortedTasks f (map ghJson l) = unsortedTasks f l.
Proof.
  unfold unsortedTasks.
  assert (E : map issueToTask (filter hasTpLabel (map ghJson l))
              = map issueToTask (filter hasTpLabel l)).
  { induction l as [|i l IH]; [reflexivity|]. cbn [map filter].
    change (hasTpLabel (ghJson i)) with (hasTpLabel i).
    destruct (hasTpLabel i); [|exact IH].
    cbn [map]. now rewrite IH, issueToTask_ghJson. }
  now rewrite E.
Qed.

Lemma tasksFromIssues_ghJson lc (f : Filters.t) (l : list Issue.t) :
  tasksFromIssues lc f (map ghJson l) = tasksFromIssues lc f l.
Proof. unfold tasksFromIssues. now rewrite unsortedTasks_ghJson. Qed.

Lemma listTasks_from_store lc s f tasks :
  listTasks lc s f = Some tasks ->
  forall t, In t tasks ->
  exists i, In i (Store.issues s) /\ hasTpLabel i = true /\ t = issueToTask i.
Proof.
  unfold listTasks, ghIssueList.
  intros H t Ht. rewrite tasksFromIssues_ghJson in H.
  apply tasksFromIssues_perm in H.
  apply (Permutation_in _ H) in Ht. apply filter_In in Ht as [Ht _].
  apply in_map_iff in Ht as (i & <- & Hi). apply filter_In in Hi as [Hi Htp].
  exists i. split; [|split; [exact Htp | reflexivity]].
  apply In_firstn in Hi.
  now apply filter_In in Hi as [Hi _].
Qed.

Lemma listTasks_length lc s f tasks :
  listTasks lc s f = Some tasks -> (length tasks <= 100)%nat.
Proof.
  unfold listTasks, ghIssueList.
  intros H. rewrite tasksFromIssues_ghJson in H.
  apply tasksFromIssues_perm in H.
  rewrite (Permutation_length H).
  eapply Nat.le_trans; [apply filter_length_le|]. rewrite length_map.
  eapply Nat.le_trans; [apply filter_length_le|].
  rewrite length_firstn. apply Nat.le_min_l.
Qed.

(** ** Board grouping *)

Lemma firstIncluded_key table names key :
  firstIncluded table names = Some key -> In key (map fst table).
Proof.
  induction table as [|[k l] table IH]; simpl; [discriminate|].
  destruct (includes l names).
  - intros [= ->]. now left.
  - intros H. right. now apply IH.
Qed.

Lemma issueToTask_status (i : Issue.t) :
  In (Task.status (issueToTask i)) (map fst emptyColumns).
Proof.
  simpl Task.status. unfold getStatusFromLabels.
  destruct (firstIncluded STATUS_LABELS _) as [k|] eqn:E.
  - apply firstIncluded_key in E. simpl in E. simpl. tauto.
  - simpl. tauto.
Qed.

Lemma lookup_In_keys (A : Type) (k : jsstring) (table : list (jsstring * A)) :
  In k (map fst table) <-> exists v, lookup k table = Some v.
Proof.
  induction table as [|[k' v'] table IH]; simpl.
  - split; [tauto | intros (v & H); discriminate].
  - destruct (str_eqb_spec k' k) as [->|Hne].
    + split; [eauto | tauto].
    + rewrite <- IH. split; [intros [E|H]; [congruence | exact H] | tauto].
Qed.

Lemma pushTask_keys key t cols : map fst (pushTask key t cols) = map fst cols.
Proof.
  induction cols as [|[k c] cols IH]; simpl; [reflexivity|].
  destruct (str_eqb k key); simpl; [reflexivity | now rewrite IH].
Qed.

Lemma columnTasks_pushTask key t cols k :
  In key (map fst cols) ->
  columnTasks k (pushTask key t cols)
  = columnTasks k cols ++ (if str_eqb key k then [t] else []).
Proof.
  unfold columnTasks.
  induction cols as [|[k' c] cols IH]; simpl; [tauto|].
  intros Hin. destruct (str_eqb_spec k' key) as [->|Hne]; simpl.
  - destruct (str_eqb_spec key k) as [->|Hk]; simpl.
    + reflexivity.
    + now rewrite app_nil_r.
  - destruct (str_eqb_spec k' k) as [->|Hk'].
    + destruct (str_eqb_spec key k) as [->|Hk]; [congruence|].
      now rewrite app_nil_r.
    + apply IH. destruct Hin as [E|Hin]; [congruence | exact Hin].
Qed.

Lemma groupByStatus_fold (tasks : list Task.t) :
  forall cols,
    (forall t, In t tasks -> In (Task.status t) (map fst cols)) ->
    exists cols',
      fold_left placeTask tasks (Some cols) = Some cols'
      /\ map fst cols' = map fst cols
      /\ forall k, columnTasks k cols'
                   = columnTasks k cols
                     ++ filter (fun t => str_eqb (Task.status t) k) tasks.
Proof.
  induction tasks as [|t tasks IH]; intros cols Hkeys; simpl.
  - exists cols. repeat split. intro k. now rewrite app_nil_r.
  - assert (Ht : In (Task.status t) (map fst cols)) by (apply Hkeys; now left).
    destruct (proj1 (lookup_In_keys _ _ _) Ht) as (c & Hc). rewrite Hc.
    destruct (IH (pushTask (Task.status t) t cols)) as (cols' & Hf & Hk & Hcol).
    { intros t' Ht'. rewrite pushTask_keys. apply Hkeys. now right. }
    exists cols'. split; [exact Hf|]. split.
    + now rewrite Hk, pushTask_keys.
    + intro k. rewrite Hcol, columnTasks_pushTask by exact Ht.
      rewrite <- app_assoc. f_equal.
      now destruct (str_eqb (Task.status t) k).
Qed.

Lemma partition_by_status (tasks : list Task.t) :
  (forall t, In t tasks -> In (Task.status t) (map fst emptyColumns)) ->
  Permutation
    (filter (fun t => str_eqb (Task.status t) (js "todo")) tasks
     ++ filter (fun t => str_eqb (Task.status t) (js "in-progress")) tasks
     ++ filter (fun t => str_eqb (Task.status t) (js "blocked")) tasks
     ++ filter (fun t => str_eqb (Task.status t) (js "done")) tasks)
    tasks.
Proof.
  induction tasks as [|t tasks IH]; intros H; [constructor|].
  assert (Ht : In (Task.status t) (map fst emptyColumns)) by (apply H; now left).
  assert (IH' := IH (fun t' Ht' => H t' (or_intror Ht'))).
  simpl in Ht. cbn [filter].
  destruct Ht as [E|[E|[E|[E|[]]]]]; rewrite <- E; cbn [str_eqb js list_ascii_of_string Ascii.eqb Bool.eqb andb].
  - simpl. now apply perm_skip.
  - apply Permutation_sym, Permutation_cons_app, Permutation_sym, IH'.
  - apply Permutation_sym.
    rewrite app_assoc. apply Permutation_cons_app. rewrite <- app_assoc.
    apply Permutation_sym, IH'.
  - apply Permutation_sym.
    rewrite 2 app_assoc. apply Permutation_cons_app. rewrite <- 2 app_assoc.
    apply Permutation_sym, IH'.
Qed.

(** C10 - Board grouping is an exact cover.  Whenever the listing behind
    [getBoardData] returns, the board is returned too, it has exactly the
    four columns, every listed task has one of the four statuses, the
    column of a status holds exactly the listed tasks of that status in
    their order (so a task sits in the column of its status and in no
    other), and the four columns together are a rearrangement of the
    listed tasks: no task is dropped. *)
Theorem board_exact_cover lc (s : Store.t) (f : Filters.t) (tasks : list Task.t) :
  listTasks lc s (withDone f) = Some tasks ->
  exists cols,
    getBoardData lc s f = Some cols
    /\ map fst cols = [js "todo"; js "in-progress"; js "blocked"; js "done"]
    /\ (forall t, In t tasks -> In (Task.status t) (map fst cols))
    /\ (forall k, columnTasks k cols
                  = filter (fun t => str_eqb (Task.status t) k) tasks)
    /\ (forall t k, In t (columnTasks k cols) <-> In t tasks /\ Task.status t = k)
    /\ Permutation
         (columnTasks (js "todo") cols ++ columnTasks (js "in-progress") cols
          ++ columnTasks (js "blocked") cols ++ columnTasks (js "done") cols)
         tasks.
Proof.
  intros H.
  assert (Hst : forall t, In t tasks -> In (Task.status t) (map fst emptyColumns)).
  { intros t Ht. destruct (listTasks_from_store _ _ _ _ H t Ht) as (i & _ & _ & ->).
    apply issueToTask_status. }
  destruct (groupByStatus_fold tasks emptyColumns Hst) as (cols & Hf & Hk & Hcol).
  assert (Hcol' : forall k, columnTasks k cols
                  = filter (fun t => str_eqb (Task.status t) k) tasks).
  { intro k. rewrite Hcol. unfold columnTasks at 1.
    destruct (lookup k emptyColumns) as [c|] eqn:E; [|reflexivity].
    simpl in E.
    repeat match type of E with
           | (if ?b then _ else _) = _ => destruct b
           end; try discriminate; now injection E as <-. }
  exists cols. unfold getBoardData. rewrite H.
  split; [exact Hf|]. split; [exact Hk|].
  split; [intros t Ht; rewrite Hk; now apply Hst|].
  split; [exact Hcol'|]. split.
  - intros t k. rewrite Hcol', filter_In, str_eqb_eq. tauto.
  - rewrite !Hcol'. now apply partition_by_status.
Qed.

Lemma board_exact_cover_witness :
  exists cols,
    getBoardData codeUnitCompare (sampleStore [lateIssue]) Filters.none = Some cols
    /\ columnTasks (js "in-progress") cols = [issueToTask lateIssue].
Proof.
  destruct (board_exact_cover codeUnitCompare (sampleStore [lateIssue])
              Filters.none [issueToTask lateIssue])
    as (cols & Hb & _ & _ & Hcol & _).
  - vm_compute. reflexivity.
  - exists cols. split; [exact Hb|]. rewrite Hcol. reflexivity.
Defined.

(** C2 - the code at the failing input: with today = 2026-02-02, an open
    task in progress that was due on 2026-02-01 and is not flagged for My
    Day is returned both in the [overdue] bucket and in the [in_progress]
    bucket. *)
Lemma my_day_buckets_overlap :
  option_map (fun r => (MyDay.my_day r, MyDay.due_today r,
                        MyDay.overdue r, MyDay.in_progress r))
    (getMyDayTasks codeUnitCompare (sampleStore [lateIssue]) (js "2026-02-02"))
  = Some ([], [], [issueToTask lateIssue], [issueToTask lateIssue])
  /\ Task.status (issueToTask lateIssue) = js "in-progress"
  /\ Task.due_date (issueToTask lateIssue) = VStr (js "2026-02-01")
  /\ Task.my_day (issueToTask lateIssue) = VBool false.
Proof.
  vm_compute. repeat split.
Qed.

(** ** Store updates *)

Lemma find_updateIssue (n : Z) (f : Issue.t -> Issue.t) (cur : Issue.t) :
  (forall i, Issue.number (f i) = Issue.number i) ->
  forall l,
    find (fun i => (Issue.number i =? n)%Z) l = Some cur ->
    find (fun i => (Issue.number i =? n)%Z) (updateIssue n f l) = Some (f cur).
Proof.
  intros Hf. induction l as [|i l IH]; simpl; [discriminate|].
  destruct (Issue.number i =? n)%Z eqn:E.
  - intros [= ->]. simpl. now rewrite Hf, E.
  - intros H. simpl. rewrite E. now apply IH.
Qed.






(** ** Update *)

Lemma whenTruthy_Some (o : option jsstring) (x : jsstring) :
  whenTruthy o = Some x <-> o = Some x /\ x <> [].
Proof.
  destruct o as [[|c s]|]; simpl; split.
  - discriminate.
  - intros [[= <-] H]. congruence.
  - intros [= <-]. split; [reflexivity | discriminate].
  - intros [H _]. exact H.
  - discriminate.
  - intros [H _]. discriminate.
Qed.

Lemma payload_state (current : Issue.t) (u : Updates.t) :
  Payload.state (updatePayload current u)
  = if isDone (Updates.status u) then Some (js "closed")
    else if match whenTruthy (Updates.status u) with
            | Some st =>
                negb (str_eqb st (js "done"))
                && str_eqb (Issue.state current) (js "closed")
            | None => false
            end
         then Some (js "open")
         else None.
Proof. reflexivity. Qed.

Lemma payload_state_reason (current : Issue.t) (u : Updates.t) :
  Payload.state_reason (updatePayload current u)
  = if isDone (Updates.status u) then Some (js "completed") else None.
Proof. reflexivity. Qed.

Lemma ghIssueView_stored (s : Store.t) (n : Z) (current : Issue.t) :
  ghIssueView s n = Some current ->
  exists i, storedIssue s n = Some i /\ current = ghJson i.
Proof.
  unfold ghIssueView. destruct (storedIssue s n) as [i|]; [|discriminate].
  intros [= <-]. now exists i.
Qed.

Lemma upperCase_never_c (c : ascii) : Ascii.eqb (upperCase c) "c" = false.
Proof. destruct c as [[|] [|] [|] [|] [|] [|] [|] [|]]; reflexivity. Qed.

(** No state that [gh] prints is the word [closed]. *)
Lemma ghJson_not_closed (i : Issue.t) :
  str_eqb (Issue.state (ghJson i)) (js "closed") = false.
Proof.
  cbn [ghJson Issue.state]. destruct (Issue.state i) as [|c st]; [reflexivity|].
  cbn [map]. unfold js. cbn [list_ascii_of_string str_eqb].
  now rewrite upperCase_never_c.
Qed.

Lemma payload_never_reopens (i : Issue.t) (u : Updates.t) :
  Payload.state (updatePayload (ghJson i) u)
  = if isDone (Updates.status u) then Some (js "closed") else None.
Proof.
  rewrite payload_state, ghJson_not_closed.
  destruct (isDone (Updates.status u)); [reflexivity|].
  destruct (whenTruthy (Updates.status u)); [|reflexivity].
  now rewrite andb_false_r.
Qed.

(** C7 - Done-state coupling in update.  [updateTask] reads the current
    state from [gh issue view], which prints it in capital letters, and
    compares it with the word [closed]: the comparison never holds.  So
    an update whose status is [done] sends state closed with reason
    completed, every other update sends no state, and an update that is
    accepted and is not a move to [done] leaves the state of the record
    as it was: no update reopens a record.  A task that was moved to
    [done], and thereby closed with the reason completed, and is then
    moved to [todo] gets the label of [todo] and stays closed, so the
    default listing does not show it. *)
Theorem update_never_reopens lc :
  (forall s taskId current u,
      ghIssueView s taskId = Some current ->
      Payload.state (updatePayload current u)
      = (if isDone (Updates.status u) then Some (js "closed") else None)
      /\ Payload.state_reason (updatePayload current u)
         = (if isDone (Updates.status u) then Some (js "completed") else None)
      /\ (forall s' t, updateTask s taskId u = Some (s', t) ->
                       isDone (Updates.status u) = false ->
                       option_map Issue.state (storedIssue s' taskId)
                       = option_map Issue.state (storedIssue s taskId)))
  /\ exists s1 t1 i1 s2 t2,
       updateTask (sampleStore [lateIssue]) 1 (moveTo (js "done")) = Some (s1, t1)
       /\ Task.status t1 = js "done"
       /\ storedIssue s1 1 = Some i1
       /\ closedByDone i1
       /\ updateTask s1 1 (moveTo (js "todo")) = Some (s2, t2)
       /\ Task.status t2 = js "todo"
       /\ getTask s2 1 = Some t2
       /\ option_map Issue.state (storedIssue s2 1) = Some (js "closed")
       /\ listTasks lc s2 Filters.none = Some [].
Proof.
  split.
  - intros s taskId current u Hview.
    destruct (ghIssueView_stored _ _ _ Hview) as (i & Hi & ->).
    split; [apply payload_never_reopens|].
    split; [apply payload_state_reason|].
    intros s' t. unfold updateTask. rewrite Hview.
    unfold ghApiPatchIssue. rewrite Hi.
    set (p := updatePayload (ghJson i) u).
    destruct (allSome (Payload.labels p)) as [names|]; [|discriminate].
    destruct (match Payload.milestone p with
              | Some (Some k) => _
              | Some None => _
              | None => _
              end) as [ms|]; [|discriminate].
    destruct (requestOk s p); [|discriminate].
    intros [= <- _] Hnd.
    unfold storedIssue at 1. cbn [withIssues Store.issues].
    rewrite (find_updateIssue taskId (patchIssue p names ms) i
               (fun _ => eq_refl) _ Hi).
    cbn [option_map patchIssue Issue.state]. unfold p.
    now rewrite payload_never_reopens, Hnd.
  - do 5 eexists.
    split; [vm_compute; reflexivity|].
    split; [reflexivity|].
    split; [vm_compute; reflexivity|].
    split; [split; reflexivity|].
    split; [vm_compute; reflexivity|].
    split; [reflexivity|].
    split; [vm_compute; reflexivity|].
    split; vm_compute; reflexivity.
Qed.

(** ** Listing discriminator *)

Lemma hasTpLabel_spec (i : Issue.t) :
  hasTpLabel i = true <->
  exists n, In (LabelObject n) (Issue.labels i) /\ startsWith (js "tp:") n = true.
Proof.
  unfold hasTpLabel. rewrite existsb_exists. split.
  - intros ([s|n] & Hin & H); [discriminate|]. now exists n.
  - intros (n & Hin & H). now exists (LabelObject n).
Qed.

(** C3 - Listing discriminator, as the code has it.  Whenever the listing
    returns, a task is listed if and only if it is the conversion of a
    fetched record that has a label object whose name starts with [tp:]
    (one of the eight fixed names or any other name with that prefix) and,
    when the [my_day] filter is set, is flagged for My Day.  A record with
    one of the eight fixed labels is therefore always listed when the
    [my_day] filter is not set, and a record without any label in the
    [tp:] name space is listed by no listing operation. *)
Theorem listing_discriminator lc (f : Filters.t) (issues : list Issue.t)
  (tasks : list Task.t) :
  tasksFromIssues lc f issues = Some tasks ->
  (forall t, In t tasks <->
             exists i, In i issues /\ hasTpLabel i = true /\ t = issueToTask i
                       /\ (Filters.my_day f = true -> truthy (Task.my_day t) = true))
  /\ (forall i n, In i issues -> In (LabelObject n) (Issue.labels i) ->
                  isSystemLabel n = true -> Filters.my_day f = false ->
                  In (issueToTask i) tasks)
  /\ (forall s f' listed, listTasks lc s f' = Some listed ->
        forall t, In t listed ->
        exists i n, In i (Store.issues s) /\ t = issueToTask i
                    /\ In (LabelObject n) (Issue.labels i)
                    /\ startsWith (js "tp:") n = true).
Proof.
  intros H. apply tasksFromIssues_perm in H.
  assert (M : forall t, In t tasks <->
             exists i, In i issues /\ hasTpLabel i = true /\ t = issueToTask i
                       /\ (Filters.my_day f = true -> truthy (Task.my_day t) = true)).
  { intro t. split.
    - intros Ht. apply (Permutation_in _ H) in Ht.
      apply filter_In in Ht as [Ht Hmy].
      apply in_map_iff in Ht as (i & <- & Hi). apply filter_In in Hi as [Hi Htp].
      exists i. repeat split; try assumption.
      intros E. rewrite E in Hmy. exact Hmy.
    - intros (i & Hi & Htp & -> & Hmy).
      apply (Permutation_in _ (Permutation_sym H)).
      apply filter_In. split.
      + apply in_map. apply filter_In. now split.
      + destruct (Filters.my_day f); [now apply Hmy | reflexivity]. }
  split; [exact M|]. split.
  - intros i n Hi Hn Hsys Hmy. apply M. exists i.
    split; [exact Hi|]. split; [|split; [reflexivity|]].
    + apply hasTpLabel_spec. exists n. split; [exact Hn|].
      now apply startsWith_tp_system.
    + intros E. congruence.
  - intros s f' listed Hl t Ht.
    destruct (listTasks_from_store _ _ _ _ Hl t Ht) as (i & Hi & Htp & ->).
    apply hasTpLabel_spec in Htp as (n & Hn & Hp).
    exists i, n. repeat split; assumption.
Qed.

Lemma listing_discriminator_witness :
  In (issueToTask lateIssue)
     [issueToTask lateIssue; issueToTask foreignIssue].
Proof.
  destruct (listing_discriminator codeUnitCompare Filters.none
              [foreignIssue; lateIssue]
              [issueToTask lateIssue; issueToTask foreignIssue])
    as (_ & H & _).
  - vm_compute. reflexivity.
  - apply (H lateIssue (js "tp:medium")).
    + simpl. tauto.
    + simpl. tauto.
    + reflexivity.
    + reflexivity.
Defined.

(** The claim C3 as stated fails: a record none of whose labels is one of
    the eight recognized system labels is listed. *)
Lemma listing_counterexample :
  existsb isSystemLabel (map labelName (Issue.labels foreignIssue)) = false
  /\ listTasks codeUnitCompare (sampleStore [foreignIssue]) Filters.none
     = Some [issueToTask foreignIssue].
Proof.
  split; vm_compute; reflexivity.
Qed.

(** ** Stable sorting with a consistent comparison *)

Lemma StronglySorted_rev (A : Type) (R : A -> A -> Prop) (l : list A) :
  StronglySorted (fun a b => R b a) l -> StronglySorted R (rev l).
Proof.
  assert (snoc : forall (a : A) (k : list A),
             StronglySorted R k -> Forall (fun b => R b a) k ->
             StronglySorted R (k ++ [a])).
  { intros a k Hk. induction Hk as [|b k Hk IH Hall]; simpl; intros Ha.
    - repeat constructor.
    - inversion Ha as [|? ? Hb Hrest]; subst.
      constructor; [now apply IH|].
      apply Forall_app. split; [exact Hall | now constructor]. }
  induction 1 as [|a l Hl IH Hall]; simpl; [constructor|].
  apply snoc; [exact IH|]. now apply Forall_rev.
Qed.

Section StableSort.

Variable A : Type.
Variable cmp : A -> A -> option Z.
Variable leb : A -> A -> bool.
Variable ok : A -> Prop.

Hypothesis cmp_defined : forall x y, ok x -> exists c, cmp x y = Some c.
Hypothesis cmp_lt :
  forall x y c, cmp x y = Some c -> (c <? 0)%Z = negb (leb y x).
Hypothesis leb_total : forall x y, leb x y = false -> leb y x = true.
Hypothesis leb_trans :
  forall x y z, leb x y = true -> leb y z = true -> leb x z = true.

Let le (x y : A) : Prop := leb x y = true.
Let ge (x y : A) : Prop := leb y x = true.
Let same (x y : A) : bool := leb x y && leb y x.

Lemma insertSorted_defined (x : A) :
  ok x -> forall l, exists r, insertSorted cmp x l = Some r.
Proof.
  intros Hx. induction l as [|y l [r IH]]; simpl; [eauto|].
  destruct (cmp_defined x y Hx) as [c ->].
  destruct (c <? 0)%Z; [|eauto]. rewrite IH. simpl. eauto.
Qed.

Lemma sortPrefix_defined (l : list A) :
  Forall ok l -> exists r, sortPrefix cmp l = Some r.
Proof.
  induction 1 as [|x l Hx _ [r IH]]; simpl; [eauto|].
  rewrite IH. now apply insertSorted_defined.
Qed.

Lemma sortBy_defined (l : list A) :
  Forall ok l -> exists r, sortBy cmp l = Some r.
Proof.
  intros H. unfold sortBy.
  destruct (sortPrefix_defined (rev l) (Forall_rev H)) as [r ->].
  simpl. eauto.
Qed.

Lemma insertSorted_sorted (x : A) :
  forall l r, StronglySorted ge l -> insertSorted cmp x l = Some r ->
              StronglySorted ge r.
Proof.
  induction l as [|y l IH]; simpl; intros r Hs H.
  - injection H as <-. repeat constructor.
  - destruct (cmp x y) as [c|] eqn:E; [|discriminate].
    apply cmp_lt in E. inversion Hs as [|? ? Hs' Hall]; subst.
    destruct (c <? 0)%Z.
    + destruct (insertSorted cmp x l) as [r'|] eqn:E'; [|discriminate].
      injection H as <-. constructor; [now apply IH|].
      apply (Permutation_Forall (insertSorted_perm _ _ _ _ _ E')).
      constructor; [|exact Hall]. apply leb_total.
      now destruct (leb y x).
    + injection H as <-. constructor; [exact Hs|].
      assert (Hyx : leb y x = true) by now destruct (leb y x).
      constructor; [exact Hyx|].
      eapply Forall_impl; [|exact Hall].
      intros z Hz. now apply leb_trans with y.
Qed.

Lemma sortPrefix_sorted :
  forall l r, sortPrefix cmp l = Some r -> StronglySorted ge r.
Proof.
  induction l as [|x l IH]; simpl; intros r H.
  - injection H as <-. constructor.
  - destruct (sortPrefix cmp l) as [s|]; [|discriminate].
    eapply insertSorted_sorted; [|exact H]. now apply IH.
Qed.

Lemma sortBy_sorted :
  forall l r, sortBy cmp l = Some r -> StronglySorted le r.
Proof.
  unfold sortBy. intros l r H.
  destruct (sortPrefix cmp (rev l)) as [p|] eqn:E; [|discriminate].
  injection H as <-. apply StronglySorted_rev.
  exact (sortPrefix_sorted _ _ E).
Qed.

Lemma insertSorted_stable (x : A) :
  forall l r, insertSorted cmp x l = Some r ->
              forall z, filter (same z) r = filter (same z) (x :: l).
Proof.
  induction l as [|y l IH]; simpl; intros r H z.
  - now injection H as <-.
  - destruct (cmp x y) as [c|] eqn:E; [|discriminate].
    apply cmp_lt in E.
    destruct (c <? 0)%Z.
    + destruct (insertSorted cmp x l) as [r'|] eqn:E'; [|discriminate].
      injection H as <-. simpl. rewrite (IH _ eq_refl z). simpl.
      destruct (same z x) eqn:Hx, (same z y) eqn:Hy; try reflexivity.
      exfalso. unfold same in Hx, Hy.
      apply andb_prop in Hx as [Hzx _]. apply andb_prop in Hy as [_ Hyz].
      rewrite (leb_trans _ _ _ Hyz Hzx) in E. discriminate.
    + now injection H as <-.
Qed.

Lemma sortPrefix_stable :
  forall l r, sortPrefix cmp l = Some r ->
              forall z, filter (same z) r = filter (same z) l.
Proof.
  induction l as [|x l IH]; simpl; intros r H z.
  - now injection H as <-.
  - destruct (sortPrefix cmp l) as [s|]; [|discriminate].
    rewrite (insertSorted_stable _ _ _ H z). simpl.
    now rewrite (IH _ eq_refl z).
Qed.

Lemma sortBy_stable :
  forall l r, sortBy cmp l = Some r ->
              forall z, filter (same z) r = filter (same z) l.
Proof.
  unfold sortBy. intros l r H z.
  destruct (sortPrefix cmp (rev l)) as [p|] eqn:E; [|discriminate].
  injection H as <-.
  rewrite filter_rev, (sortPrefix_stable _ _ E z), filter_rev.
  apply rev_involutive.
Qed.

End StableSort.

(** ** The canonical sort *)

Section CanonicalSort.

Variable lc : jsstring -> jsstring -> Z.

Lemma compareTasks_defined (x y : Task.t) :
  dueWellTyped x -> exists c, compareTasks lc x y = Some c.
Proof.
  unfold dueWellTyped, compareTasks. intros Hx.
  destruct (negb _); [eauto|].
  destruct (truthy (Task.due_date x)) eqn:Tx; simpl.
  - destruct (Hx eq_refl) as [s ->].
    destruct (truthy (Task.due_date y)); eauto.
  - destruct (truthy (Task.due_date y)); eauto.
Qed.

Lemma taskLeb_iff (x y : Task.t) : taskLeb lc x y = true <-> taskLe lc x y.
Proof.
  unfold taskLeb, taskLe.
  rewrite orb_true_iff, andb_true_iff, Z.ltb_lt, Z.eqb_eq.
  destruct (dated x), (dated y); rewrite ?Z.leb_le; simpl; intuition congruence.
Qed.

(** A consistent collation: exchanging the arguments exchanges the sign,
    and the order is transitive. *)
Hypothesis lc_antisym : forall a b, Z.sgn (lc b a) = (- Z.sgn (lc a b))%Z.
Hypothesis lc_trans :
  forall a b c, (lc a b <= 0 -> lc b c <= 0 -> lc a c <= 0)%Z.

Lemma compareTasks_lt (x y : Task.t) (c : Z) :
  compareTasks lc x y = Some c -> (c <? 0)%Z = negb (taskLeb lc y x).
Proof.
  unfold compareTasks, taskLeb, rankOf, dated.
  set (pa := priorityRank (Task.priority x)).
  set (pb := priorityRank (Task.priority y)).
  destruct (Z.eqb_spec pa pb) as [E|E]; simpl.
  - rewrite E, Z.ltb_irrefl, Z.eqb_refl. simpl.
    destruct (truthy (Task.due_date x)) eqn:Tx,
             (truthy (Task.due_date y)) eqn:Ty; simpl;
      try (intros [= <-]; reflexivity).
    destruct (Task.due_date x) as [| | | |dx|]; try discriminate.
    intros [= <-]. cbn [ToString].
    pose proof (lc_antisym dx (ToString (Task.due_date y))) as Ha.
    destruct (Z.ltb_spec (lc dx (ToString (Task.due_date y))) 0),
             (Z.leb_spec (lc (ToString (Task.due_date y)) dx) 0);
      try reflexivity; exfalso; lia.
  - intros [= <-].
    destruct (Z.eqb_spec pb pa) as [E'|_]; [congruence|].
    rewrite andb_false_l, orb_false_r.
    destruct (Z.ltb_spec (pa - pb) 0), (Z.ltb_spec pb pa); try reflexivity; lia.
Qed.

Lemma taskLeb_total (x y : Task.t) :
  taskLeb lc x y = false -> taskLeb lc y x = true.
Proof.
  unfold taskLeb.
  destruct (Z.ltb_spec (rankOf x) (rankOf y)), (Z.ltb_spec (rankOf y) (rankOf x));
    simpl; try congruence; try lia.
  assert (E : rankOf x = rankOf y) by lia.
  rewrite E, Z.eqb_refl. simpl.
  destruct (dated x), (dated y); simpl; try congruence.
  intros H1. apply Z.leb_gt in H1. apply Z.leb_le.
  pose proof (lc_antisym (ToString (Task.due_date x))
                (ToString (Task.due_date y))) as Ha.
  lia.
Qed.

Lemma taskLeb_trans (x y z : Task.t) :
  taskLeb lc x y = true -> taskLeb lc y z = true -> taskLeb lc x z = true.
Proof.
  rewrite !taskLeb_iff. unfold taskLe.
  intros [H1|(E1 & U1 & D1)] [H2|(E2 & U2 & D2)]; try (left; lia).
  right. split; [lia|]. split.
  - intros Hx. now apply U2, U1.
  - intros Hx Hz. destruct (dated y) eqn:Hy.
    + eapply lc_trans; [now apply D1 | now apply D2].
    + rewrite (U2 eq_refl) in Hz. discriminate.
Qed.

Lemma StronglySorted_taskLe (l : list Task.t) :
  StronglySorted (fun a b => taskLeb lc a b = true) l ->
  StronglySorted (taskLe lc) l.
Proof.
  induction 1 as [|a l S IH Hall]; constructor; [exact IH|].
  eapply Forall_impl; [|exact Hall]. intros b. apply taskLeb_iff.
Qed.

(** X25 - The listing is in the canonical order.  For a consistent
    collation: whenever the tasks fetched by [listTasks] come back from the
    sort, they are a rearrangement of the fetched tasks that is ordered by
    priority rank first (urgent 0, high 1, medium 2, low 3), then with the
    dated tasks before the undated ones and the dated ones by ascending
    due date, and tasks that tie keep the order they were fetched in; the
    sort does come back when every due date that is truthy is a string;
    and every listing that returns is in that order.  The four tasks
    urgent/no date, low/2026-01-01, high/2026-01-05, high/no date come out
    as urgent, high/2026-01-05, high/no date, low/2026-01-01. *)
Theorem listing_is_sorted (f : Filters.t) (issues : list Issue.t) :
  (forall tasks, tasksFromIssues lc f issues = Some tasks ->
     Permutation (unsortedTasks f issues) tasks
     /\ StronglySorted (taskLe lc) tasks
     /\ (forall x, filter (sameKey lc x) tasks
                   = filter (sameKey lc x) (unsortedTasks f issues)))
  /\ (Forall dueWellTyped (unsortedTasks f issues) ->
      exists tasks, tasksFromIssues lc f issues = Some tasks)
  /\ (forall s f' tasks, listTasks lc s f' = Some tasks ->
                         StronglySorted (taskLe lc) tasks)
  /\ map priorityRank [VStr (js "urgent"); VStr (js "high");
                       VStr (js "medium"); VStr (js "low")]
     = [0; 1; 2; 3]%Z
  /\ tasksFromIssues lc Filters.none sortIssues = Some sortedTasks.
Proof.
  split; [|split; [|split; [|split; [reflexivity | vm_compute; reflexivity]]]].
  - intros tasks H. unfold tasksFromIssues in H.
    split; [now apply sortBy_perm in H|]. split.
    + apply StronglySorted_taskLe.
      exact (sortBy_sorted _ (compareTasks lc) (taskLeb lc)
               compareTasks_lt taskLeb_total taskLeb_trans _ _ H).
    + intro x.
      exact (sortBy_stable _ (compareTasks lc) (taskLeb lc)
               compareTasks_lt taskLeb_trans _ _ H x).
  - intros Hwt. unfold tasksFromIssues.
    exact (sortBy_defined _ (compareTasks lc) dueWellTyped
             compareTasks_defined _ Hwt).
  - intros s f' tasks H. unfold listTasks, tasksFromIssues in H.
    apply StronglySorted_taskLe.
    exact (sortBy_sorted _ (compareTasks lc) (taskLeb lc)
             compareTasks_lt taskLeb_total taskLeb_trans _ _ H).
Qed.

End CanonicalSort.

Lemma codeUnitCompare_antisym (a b : jsstring) :
  Z.sgn (codeUnitCompare b a) = (- Z.sgn (codeUnitCompare a b))%Z.
Proof.
  revert b. induction a as [|x a IH]; intros [|y b]; simpl; try reflexivity.
  destruct (Nat.ltb_spec (code x) (code y)), (Nat.ltb_spec (code y) (code x));
    try reflexivity; try lia. apply IH.
Qed.

Lemma codeUnitCompare_trans (a b c : jsstring) :
  (codeUnitCompare a b <= 0 -> codeUnitCompare b c <= 0 ->
   codeUnitCompare a c <= 0)%Z.
Proof.
  revert b c. induction a as [|x a IH]; intros [|y b] [|z c]; simpl; try lia.
  destruct (Nat.ltb_spec (code x) (code y)), (Nat.ltb_spec (code y) (code x)),
           (Nat.ltb_spec (code y) (code z)), (Nat.ltb_spec (code z) (code y)),
           (Nat.ltb_spec (code x) (code z)), (Nat.ltb_spec (code z) (code x));
    try lia. apply IH.
Qed.

Lemma listing_is_sorted_witness :
  tasksFromIssues codeUnitCompare Filters.none sortIssues = Some sortedTasks
  /\ StronglySorted (taskLe codeUnitCompare) sortedTasks.
Proof.
  destruct (listing_is_sorted codeUnitCompare codeUnitCompare_antisym
              codeUnitCompare_trans Filters.none sortIssues)
    as (H & _ & _ & _ & E).
  split; [exact E|]. exact (proj1 (proj2 (H sortedTasks E))).
Defined.

(** C5 - The sort of [listTasks] on due dates written in digits.  Two
    tasks of one priority are created with the due date 20260210; the
    codec reads that due date back as a number, on which the comparison
    function of the sort calls [localeCompare]: each of the two
    comparisons the sort can make throws, and so does the listing, under
    every collation.  The order the claim describes would list the two
    tasks. *)
Theorem canonical_sort_throws lc :
  exists s1 t1 s2 t2,
    createTask (sampleStore []) (js "Pay the rent") dueInDigits (numbered 1)
    = Some (s1, t1)
    /\ createTask s1 (js "File the taxes") dueInDigits (numbered 2)
       = Some (s2, t2)
    /\ Task.due_date t1 = VNum (Dec 20260210 0)
    /\ Task.due_date t2 = VNum (Dec 20260210 0)
    /\ Task.priority t1 = Task.priority t2
    /\ compareTasks lc t1 t2 = None
    /\ compareTasks lc t2 t1 = None
    /\ getTask s2 1 = Some t1
    /\ getTask s2 2 = Some t2
    /\ listTasks lc s2 Filters.none = None.
Proof.
  destruct (createTask (sampleStore []) (js "Pay the rent") dueInDigits
              (numbered 1)) as [[s1 t1]|] eqn:E1;
    [|vm_compute in E1; discriminate].
  destruct (createTask s1 (js "File the taxes") dueInDigits (numbered 2))
    as [[s2 t2]|] eqn:E2;
    [|vm_compute in E1; injection E1 as <- <-;
      vm_compute in E2; discriminate].
  exists s1, t1, s2, t2.
  vm_compute in E1. injection E1 as <- <-.
  vm_compute in E2. injection E2 as <- <-.
  repeat (split; [vm_compute; reflexivity|]). vm_compute. reflexivity.
Qed.

(** ** Analytics *)

Lemma countOf_bump (k k' : jsstring) (counts : list (jsstring * Z)) :
  countOf k (bump k' counts)
  = (countOf k counts + if str_eqb k' k then 1 else 0)%Z.
Proof.
  unfold countOf. induction counts as [|[k0 n] counts IH]; simpl.
  - destruct (str_eqb k' k); reflexivity.
  - destruct (str_eqb_spec k0 k') as [->|Hne]; simpl.
    + destruct (str_eqb k' k); [reflexivity | lia].
    + destruct (str_eqb_spec k0 k) as [->|Hk].
      * destruct (str_eqb_spec k' k) as [->|Hk']; [congruence | lia].
      * exact IH.
Qed.

Lemma countOf_fold (A : Type) (g : A -> jsstring) (k : jsstring) (l : list A) :
  forall counts,
    countOf k (fold_left (fun c t => bump (g t) c) l counts)
    = (countOf k counts
       + Z.of_nat (length (filter (fun t => str_eqb (g t) k) l)))%Z.
Proof.
  induction l as [|t l IH]; intros counts; simpl; [lia|].
  rewrite IH, countOf_bump.
  destruct (str_eqb (g t) k); simpl length; lia.
Qed.

Lemma rateTable_checked :
  forallb
    (fun t => forallb (fun c => rateWithinHalf (Z.of_nat c) (Z.of_nat t))
                      (seq 0 (S t)))
    (seq 1 100) = true.
Proof. vm_cast_no_check (@eq_refl bool true). Qed.

Lemma rateWithinHalf_checked (c t : nat) :
  (c <= t)%nat -> (1 <= t <= 100)%nat ->
  rateWithinHalf (Z.of_nat c) (Z.of_nat t) = true.
Proof.
  intros Hc Ht. assert (T := rateTable_checked).
  rewrite forallb_forall in T.
  assert (Hin : In t (seq 1 100)) by (apply in_seq; lia).
  specialize (T t Hin). rewrite forallb_forall in T.
  apply T. apply in_seq. lia.
Qed.

Lemma completionRateOf_bounds (completed total : nat) :
  (completed <= total)%nat -> (total <= 100)%nat ->
  exists r,
    completionRateOf (Z.of_nat completed) (Z.of_nat total) = toDouble r
    /\ (0 <= r <= 100)%Z
    /\ (total = 0%nat -> r = 0%Z)
    /\ ((0 < total)%nat ->
        (Z.abs (2 * (r * Z.of_nat total - 100 * Z.of_nat completed))
         <= Z.of_nat total)%Z).
Proof.
  intros Hc Ht. unfold completionRateOf.
  destruct total as [|n].
  - exists 0%Z. simpl. repeat split; lia.
  - assert (E : (Z.of_nat (S n) =? 0)%Z = false) by (apply Z.eqb_neq; lia).
    rewrite E.
    assert (T := rateWithinHalf_checked completed (S n) Hc ltac:(lia)).
    unfold rateWithinHalf in T.
    destruct (mulDouble _ _) as [[|]| | |s m e]; try discriminate.
    + apply Z.eqb_eq in T. exists 0%Z. rewrite T.
      split; [reflexivity|]. repeat split; lia.
    + exists (nearestInteger (S754_finite s m e)).
      apply andb_prop in T as [T T3]. apply andb_prop in T as [T1 T2].
      apply Z.leb_le in T1, T2, T3.
      split; [reflexivity|]. repeat split; try lia.
Qed.

(** C9 - Analytics completion rate, as the code has it.  Whenever
    [getAnalytics] returns, [total] is the number of listed tasks (at most
    100, the limit of the listing), [completed] is the number of them with
    status [done], and [completionRate] is the double of an integer [r]
    with 0 <= r <= 100; [r] is 0 when [total] is 0, and otherwise [r] is
    an integer nearest to 100 * completed / total: it differs from the
    exact quotient by at most one half.  The quotient and the product are
    rounded to double precision before [Math.round] is applied, so an
    exact tie need not round up. *)
Theorem completion_rate lc (s : Store.t) (sprintId : option Z)
  (today : jsstring) (a : Analytics.t) :
  getAnalytics lc s sprintId today = Some a ->
  let total := Analytics.total a in
  let completed := Analytics.completed a in
  total = Z.of_nat (length (Analytics.tasks a))
  /\ completed
     = Z.of_nat (length (filter (fun t => str_eqb (Task.status t) (js "done"))
                                (Analytics.tasks a)))
  /\ (0 <= completed <= total)%Z
  /\ (total <= 100)%Z
  /\ exists r,
       Analytics.completionRate a = toDouble r
       /\ (0 <= r <= 100)%Z
       /\ (total = 0%Z -> r = 0%Z)
       /\ ((0 < total)%Z ->
           (Z.abs (2 * (r * total - 100 * completed)) <= total)%Z).
Proof.
  unfold getAnalytics. intros H.
  destruct (listTasks lc s _) as [tasks|] eqn:Hl; [|discriminate].
  injection H as <-. apply listTasks_length in Hl.
  cbn [Analytics.total Analytics.completed Analytics.completionRate
       Analytics.tasks analyticsOf].
  set (done := filter (fun t => str_eqb (Task.status t) (js "done")) tasks).
  assert (Hc : match lookup (js "done")
                       (fold_left (fun c t => bump (Task.status t) c) tasks
                          [(js "todo", 0%Z); (js "in-progress", 0%Z);
                           (js "done", 0%Z); (js "blocked", 0%Z)]) with
               | Some n => n
               | None => 0%Z
               end = Z.of_nat (length done)).
  { change (countOf (js "done")
              (fold_left (fun c t => bump (Task.status t) c) tasks
                 [(js "todo", 0%Z); (js "in-progress", 0%Z);
                  (js "done", 0%Z); (js "blocked", 0%Z)])
            = Z.of_nat (length done)).
    rewrite countOf_fold. reflexivity. }
  rewrite Hc.
  assert (Hd : (length done <= length tasks)%nat) by apply filter_length_le.
  split; [reflexivity|]. split; [reflexivity|]. split; [lia|]. split; [lia|].
  destruct (completionRateOf_bounds (length done) (length tasks) Hd Hl)
    as (r & Hr & Hb & H0 & Hh).
  exists r. split; [exact Hr|]. split; [exact Hb|]. split.
  - intros E. apply H0. lia.
  - intros E. apply Hh. lia.
Qed.

Lemma completion_rate_witness :
  exists a r,
    getAnalytics codeUnitCompare (sampleStore [lateIssue]) None (js "2026-02-02")
    = Some a
    /\ Analytics.completionRate a = toDouble r /\ (0 <= r <= 100)%Z.
Proof.
  destruct (getAnalytics codeUnitCompare (sampleStore [lateIssue]) None
              (js "2026-02-02")) as [a|] eqn:E; [|vm_compute in E; discriminate].
  destruct (completion_rate codeUnitCompare (sampleStore [lateIssue]) None
              (js "2026-02-02") a E) as (_ & _ & _ & _ & r & Hr & Hb & _).
  exists a, r. split; [reflexivity|]. split; [exact Hr | exact Hb].
Defined.

(** The claim C9 as stated fails: with 23 of 40 tasks done the exact
    quotient 57.5 rounds to 58, while the code returns 57. *)
Lemma completion_rate_counterexample :
  option_map
    (fun a => (Analytics.total a, Analytics.completed a, Analytics.completionRate a))
    (getAnalytics codeUnitCompare (sampleStore fortyIssues) None (js "2026-02-02"))
  = Some (40%Z, 23%Z, toDouble 57)
  /\ roundedPercentage 23 40 = 58%Z
  /\ toDouble 57 <> toDouble 58.
Proof.
  split; [vm_compute; reflexivity|]. split; [reflexivity|].
  vm_compute. discriminate.
Qed.

(** ** Printing and reading numbers *)

Lemma digit_cases (d : Z) :
  isDigitValue d ->
  d = 0%Z \/ d = 1%Z \/ d = 2%Z \/ d = 3%Z \/ d = 4%Z \/ d = 5%Z \/ d = 6%Z
  \/ d = 7%Z \/ d = 8%Z \/ d = 9%Z.
Proof. unfold isDigitValue. lia. Qed.

Ltac each_digit H :=
  apply digit_cases in H;
  repeat (destruct H as [H|H]; [subst; try reflexivity|]); subst; try reflexivity.

Lemma digitChar_isDigit (d : Z) : isDigitValue d -> isDigit (digitChar d) = true.
Proof. intros H. each_digit H. Qed.

Lemma digitChar_value (d : Z) :
  isDigitValue d -> radixDigit 10 (digitChar d) = Some d.
Proof. intros H. each_digit H. Qed.

Lemma digitsAux_range (fuel : nat) :
  forall n acc, (0 <= n)%Z -> Forall isDigitValue acc ->
                Forall isDigitValue (digitsAux fuel n acc).
Proof.
  induction fuel as [|f IH]; intros n acc Hn Hacc; simpl; [exact Hacc|].
  destruct (Z.ltb_spec n 10).
  - constructor; [split; lia | exact Hacc].
  - apply IH; [apply Z.div_pos; lia|].
    constructor; [|exact Hacc].
    unfold isDigitValue. pose proof (Z.mod_pos_bound n 10). lia.
Qed.

Lemma digitsAux_number (fuel : nat) :
  forall n acc, (0 <= n < 2 ^ Z.of_nat fuel)%Z ->
                digitsNumber (digitsAux fuel n acc) 0 = digitsNumber acc n.
Proof.
  induction fuel as [|f IH]; intros n acc Hn; simpl.
  - change (2 ^ Z.of_nat 0)%Z with 1%Z in Hn. assert (n = 0%Z) by lia. now subst.
  - destruct (Z.ltb_spec n 10).
    + unfold digitsNumber. cbn [fold_left]. f_equal.
    + rewrite IH.
      * unfold digitsNumber. cbn [fold_left]. f_equal.
        pose proof (Z.div_mod n 10 ltac:(lia)). lia.
      * rewrite Nat2Z.inj_succ, Z.pow_succ_r in Hn by lia.
        split; [apply Z.div_pos; lia|].
        apply Z.div_lt_upper_bound; lia.
Qed.

Lemma digitsAux_app (fuel : nat) :
  forall n acc, digitsAux fuel n acc = digitsAux fuel n [] ++ acc.
Proof.
  induction fuel as [|f IH]; intros n acc; simpl; [reflexivity|].
  destruct (n <? 10)%Z; [reflexivity|].
  rewrite IH, (IH _ [_]), <- app_assoc. reflexivity.
Qed.

Lemma digitsOf_range (n : Z) : (0 <= n)%Z -> Forall isDigitValue (digitsOf n).
Proof. intros H. apply digitsAux_range; [exact H | constructor]. Qed.

Lemma digitsOf_number (n : Z) : (0 <= n)%Z -> digitsNumber (digitsOf n) 0 = n.
Proof.
  intros H. unfold digitsOf. rewrite digitsAux_number; [reflexivity|].
  split; [exact H|].
  destruct (Z.eq_dec n 0) as [->|Hn]; [reflexivity|].
  rewrite Nat2Z.inj_succ, Z2Nat.id by apply Z.log2_nonneg.
  apply Z.log2_spec. lia.
Qed.

Lemma digitsOf_last (n : Z) :
  (0 <= n)%Z -> exists front, digitsOf n = front ++ [(n mod 10)%Z].
Proof.
  intros H. unfold digitsOf. simpl.
  destruct (Z.ltb_spec n 10).
  - exists []. simpl. f_equal. symmetry. apply Z.mod_small. lia.
  - rewrite digitsAux_app. eauto.
Qed.

Lemma digitsValue_chars (ds : list Z) :
  Forall isDigitValue ds ->
  forall acc, digitsValue 10 acc (digitChars ds) = Some (digitsNumber ds acc).
Proof.
  induction 1 as [|d ds Hd _ IH]; intros acc; [reflexivity|].
  cbn [digitChars map digitsValue]. rewrite (digitChar_value d Hd).
  apply IH.
Qed.

Lemma digitsNumber_app (a b : list Z) (acc : Z) :
  digitsNumber (a ++ b) acc = digitsNumber b (digitsNumber a acc).
Proof. apply fold_left_app. Qed.

Lemma digitsNumber_zeros (z : nat) :
  forall acc, digitsNumber (repeat 0%Z z) acc = (acc * 10 ^ Z.of_nat z)%Z.
Proof.
  induction z as [|z IH]; intros acc.
  - simpl. lia.
  - cbn [repeat]. unfold digitsNumber in *. cbn [fold_left]. rewrite IH.
    rewrite Nat2Z.inj_succ, Z.pow_succ_r by lia. lia.
Qed.

Lemma digitsNumber_leading_zeros (z : nat) (ds : list Z) :
  digitsNumber (repeat 0%Z z ++ ds) 0 = digitsNumber ds 0.
Proof.
  rewrite digitsNumber_app, digitsNumber_zeros. reflexivity.
Qed.

Lemma digitChars_zeros (z : nat) : digitChars (repeat 0%Z z) = repeat "0"%char z.
Proof. induction z as [|z IH]; simpl; [reflexivity | now rewrite <- IH]. Qed.

Lemma length_digitChars (ds : list Z) : length (digitChars ds) = length ds.
Proof. apply length_map. Qed.

Lemma digitChars_app (a b : list Z) :
  digitChars (a ++ b) = digitChars a ++ digitChars b.
Proof. apply map_app. Qed.

Lemma dropWhile_zeros (l : list Z) :
  exists z, l = repeat 0%Z z ++ dropWhile (Z.eqb 0) l
            /\ (z + length (dropWhile (Z.eqb 0) l) = length l)%nat.
Proof.
  induction l as [|x l (z & E & L)]; cbn [dropWhile].
  - exists O. now split.
  - destruct (Z.eqb_spec 0 x) as [<-|Hx].
    + exists (S z). cbn [repeat app length]. split; [now rewrite <- E | lia].
    + exists O. now split.
Qed.

Lemma repeat_rev (A : Type) (x : A) (n : nat) : rev (repeat x n) = repeat x n.
Proof.
  induction n as [|n IH]; [reflexivity|].
  simpl. rewrite IH. symmetry. apply repeat_cons.
Qed.

Lemma stripTrailingZeros_split (ds : list Z) :
  exists z, ds = stripTrailingZeros ds ++ repeat 0%Z z
            /\ (length (stripTrailingZeros ds) + z = length ds)%nat.
Proof.
  unfold stripTrailingZeros.
  destruct (dropWhile_zeros (rev ds)) as (z & E & L).
  exists z. split.
  - rewrite <- (rev_involutive ds) at 1. rewrite E at 1.
    now rewrite rev_app_distr, repeat_rev.
  - rewrite length_rev in *. lia.
Qed.

Lemma stripTrailingZeros_range (ds : list Z) :
  Forall isDigitValue ds -> Forall isDigitValue (stripTrailingZeros ds).
Proof.
  intros H. destruct (stripTrailingZeros_split ds) as (z & E & _).
  rewrite E in H. now apply Forall_app in H as [H _].
Qed.

Lemma stripTrailingZeros_nonzero_last (front : list Z) (d : Z) :
  d <> 0%Z -> stripTrailingZeros (front ++ [d]) = front ++ [d].
Proof.
  intros Hd. unfold stripTrailingZeros. rewrite rev_app_distr.
  cbn [rev app dropWhile].
  destruct (Z.eqb_spec 0 d) as [E|_]; [congruence|].
  cbn [rev]. now rewrite rev_involutive.
Qed.

Lemma cutWhere_none (p : ascii -> bool) (s : jsstring) :
  Forall (fun c => p c = false) s -> cutWhere p s = None.
Proof.
  induction 1 as [|c s Hc _ IH]; simpl; [reflexivity|]. now rewrite Hc, IH.
Qed.

Lemma cutWhere_first (p : ascii -> bool) (l : jsstring) (c : ascii) (r : jsstring) :
  Forall (fun x => p x = false) l -> p c = true ->
  cutWhere p (l ++ c :: r) = Some (l, r).
Proof.
  intros Hl Hc. induction Hl as [|x l Hx _ IH]; simpl.
  - now rewrite Hc.
  - now rewrite Hx, IH.
Qed.

Lemma digitChars_class (p : ascii -> bool) (ds : list Z) :
  (forall c, isDigit c = true -> p c = false) ->
  Forall isDigitValue ds -> Forall (fun c => p c = false) (digitChars ds).
Proof.
  intros Hp H. unfold digitChars. apply Forall_map.
  eapply Forall_impl; [|exact H].
  intros d Hd. now apply Hp, digitChar_isDigit.
Qed.

Lemma isDigit_not_exponent (c : ascii) :
  isDigit c = true -> Ascii.eqb c "e" || Ascii.eqb c "E" = false.
Proof.
  unfold isDigit, code. intros H.
  destruct (Ascii.eqb_spec c "e") as [->|_]; [discriminate|].
  destruct (Ascii.eqb_spec c "E") as [->|_]; [discriminate | reflexivity].
Qed.

Lemma isDigit_not_char (x c : ascii) :
  isDigit x = false -> isDigit c = true -> Ascii.eqb c x = false.
Proof.
  intros Hx Hc. destruct (Ascii.eqb_spec c x) as [->|_]; congruence.
Qed.

Lemma numeral_chars (ds : list Z) :
  ds <> [] -> Forall isDigitValue ds ->
  numeral 10 (digitChars ds) = Some (digitsNumber ds 0).
Proof.
  intros Hne H. destruct ds as [|d ds]; [congruence|].
  unfold numeral. cbn [digitChars map].
  change (digitChar d :: map digitChar ds) with (digitChars (d :: ds)).
  now apply digitsValue_chars.
Qed.

Lemma parseUnsignedDecimal_literal (ipart : list Z) (fraction : option (list Z))
  (exponent : option (bool * list Z)) :
  ipart <> [] -> Forall isDigitValue ipart ->
  Forall isDigitValue (fractionDigits fraction) ->
  (forall neg x, exponent = Some (neg, x) -> x <> [] /\ Forall isDigitValue x) ->
  parseUnsignedDecimal (literalText ipart fraction exponent)
  = let mval := digitsNumber (ipart ++ fractionDigits fraction) 0 in
    let e := exponentValue exponent in
    let scale := Z.of_nat (length (fractionDigits fraction)) in
    if (scale <=? e)%Z then Some (Dec (mval * 10 ^ (e - scale))%Z 0)
    else Some (normalize mval (Z.to_nat (scale - e))).
Proof.
  intros Hne Hi Hf Hx.
  set (mant := digitChars ipart
               ++ match fraction with
                  | Some f => "."%char :: digitChars f
                  | None => []
                  end).
  assert (Hmant : Forall (fun c => Ascii.eqb c "e" || Ascii.eqb c "E" = false) mant).
  { unfold mant. apply Forall_app. split.
    - apply digitChars_class; [apply isDigit_not_exponent | exact Hi].
    - destruct fraction as [f|]; [|constructor].
      constructor; [reflexivity|].
      apply digitChars_class; [apply isDigit_not_exponent | exact Hf]. }
  assert (Hcut : cutAt "." mant
                 = match fraction with
                   | Some f => Some (digitChars ipart, digitChars f)
                   | None => None
                   end).
  { unfold mant, cutAt. destruct fraction as [f|].
    - apply cutWhere_first; [|reflexivity].
      apply digitChars_class; [|exact Hi].
      intros c Hc. now apply isDigit_not_char.
    - rewrite app_nil_r. apply cutWhere_none.
      apply digitChars_class; [|exact Hi].
      intros c Hc. now apply isDigit_not_char. }
  assert (Hinf : str_eqb (literalText ipart fraction exponent) (js "Infinity")
                 = false).
  { unfold literalText. destruct ipart as [|d ipart]; [congruence|].
    cbn [digitChars map app str_eqb js list_ascii_of_string].
    inversion Hi as [|? ? Hd _]; subst.
    rewrite (isDigit_not_char "I" _ eq_refl (digitChar_isDigit d Hd)).
    reflexivity. }
  unfold parseUnsignedDecimal. rewrite Hinf.
  assert (Hparts :
    match cutWhere (fun c => Ascii.eqb c "e" || Ascii.eqb c "E")
            (literalText ipart fraction exponent) with
    | Some (m, x) => (m, Some x)
    | None => (literalText ipart fraction exponent, None)
    end
    = (mant, match exponent with
             | Some (neg, x) =>
                 Some ((if neg then "-"%char else "+"%char) :: digitChars x)
             | None => None
             end)).
  { unfold literalText. fold mant. destruct exponent as [[neg x]|].
    - now rewrite (cutWhere_first _ mant "e" _ Hmant eq_refl).
    - rewrite app_nil_r. now rewrite (cutWhere_none _ mant Hmant). }
  rewrite Hparts. cbv beta iota. rewrite Hcut. clear Hparts Hcut Hinf Hmant.
  assert (Hexp : forall neg x, exponent = Some (neg, x) ->
                 parseExponent ((if neg then "-"%char else "+"%char) :: digitChars x)
                 = Some (exponentValue exponent)).
  { intros neg x ->. destruct (Hx neg x eq_refl) as [Hxne Hxd].
    destruct neg; cbn [parseExponent Ascii.eqb Bool.eqb exponentValue];
      rewrite (numeral_chars x Hxne Hxd); reflexivity. }
  destruct fraction as [f|]; cbn [fractionDigits] in *; cbv beta iota.
  - rewrite <- digitChars_app.
    destruct (digitChars (ipart ++ f)) eqn:E.
    { destruct ipart; [congruence | discriminate]. }
    rewrite <- E. clear E.
    rewrite (digitsValue_chars ipart Hi), (digitsValue_chars f Hf).
    rewrite (digitsValue_chars (ipart ++ f)) by (apply Forall_app; now split).
    rewrite !length_digitChars.
    destruct exponent as [[neg x]|]; [rewrite (Hexp neg x eq_refl)|];
      reflexivity.
  - unfold mant. rewrite !app_nil_r.
    destruct (digitChars ipart) eqn:E.
    { destruct ipart; [congruence | discriminate]. }
    rewrite <- E. clear E.
    rewrite (digitsValue_chars ipart Hi). cbn [digitsValue].
    destruct exponent as [[neg x]|]; [rewrite (Hexp neg x eq_refl)|];
      reflexivity.
Qed.

Lemma digitsOf_nonempty (n : Z) : (0 <= n)%Z -> digitsOf n <> [].
Proof.
  intros H. destruct (digitsOf_last n H) as [front ->].
  now destruct front.
Qed.

Lemma renderDigits_exponent (sd : list Z) (n : Z) :
  let k := Z.of_nat (length sd) in
  (((k <=? n) && (n <=? 21)) || ((0 <? n) && (n <=? 21))
   || ((-6 <? n) && (n <=? 0)))%Z = false ->
  renderDigits sd n
  = match sd with
    | [] => []
    | [d] =>
        literalText [d] None
          (Some ((n - 1 <? 0)%Z, digitsOf (Z.abs (n - 1))))
    | d :: rest =>
        literalText [d] (Some rest)
          (Some ((n - 1 <? 0)%Z, digitsOf (Z.abs (n - 1))))
    end.
Proof.
  intros k H. unfold renderDigits. fold k.
  apply orb_false_iff in H as [H H3]. apply orb_false_iff in H as [H1 H2].
  rewrite H1, H2, H3.
  destruct sd as [|d [|d2 rest]]; [reflexivity| |];
    unfold literalText; destruct (n - 1 <? 0)%Z;
    cbn [js list_ascii_of_string app digitChars map]; rewrite ?app_nil_r;
    try reflexivity; now rewrite <- app_assoc.
Qed.

Lemma parseUnsignedDecimal_render (sd : list Z) (n : Z) :
  sd <> [] -> Forall isDigitValue sd ->
  parseUnsignedDecimal (renderDigits sd n) = Some (decimalOf sd n).
Proof.
  intros Hne Hd. unfold decimalOf.
  set (k := Z.of_nat (length sd)).
  assert (Hk : (0 < k)%Z) by (destruct sd; [congruence | unfold k; simpl; lia]).
  destruct (((k <=? n) && (n <=? 21))%Z) eqn:C1.
  { (* digits followed by zeros *)
    apply andb_prop in C1 as [C1 C1']. apply Z.leb_le in C1, C1'.
    unfold renderDigits. fold k.
    replace ((k <=? n) && (n <=? 21))%Z with true
      by (symmetry; apply andb_true_intro; split; now apply Z.leb_le).
    replace (digitChars sd ++ repeat "0"%char (Z.to_nat (n - k)))
      with (literalText (sd ++ repeat 0%Z (Z.to_nat (n - k))) None None)
      by (unfold literalText;
          now rewrite !app_nil_r, digitChars_app, digitChars_zeros).
    rewrite parseUnsignedDecimal_literal.
    - cbn [fractionDigits exponentValue length Z.of_nat Z.leb Z.compare].
      rewrite app_nil_r, digitsNumber_app, digitsNumber_zeros.
      rewrite Z2Nat.id by lia.
      replace (k <=? n)%Z with true by (symmetry; now apply Z.leb_le).
      do 2 f_equal. change (0 - 0)%Z with 0%Z. lia.
    - destruct sd; [congruence | discriminate].
    - apply Forall_app. split; [exact Hd|].
      apply Forall_forall. intros x Hx. apply repeat_spec in Hx. subst.
      split; lia.
    - constructor.
    - discriminate. }
  destruct (((0 <? n) && (n <=? 21))%Z) eqn:C2.
  { (* digits around a decimal point *)
    apply andb_prop in C2 as [C2 C2']. apply Z.ltb_lt in C2. apply Z.leb_le in C2'.
    assert (Hn : (n < k)%Z).
    { apply andb_false_iff in C1 as [C1|C1];
        [now apply Z.leb_gt in C1 | apply Z.leb_gt in C1; lia]. }
    unfold renderDigits. fold k. rewrite C1.
    replace ((0 <? n) && (n <=? 21))%Z with true
      by (symmetry; apply andb_true_intro; split;
          [now apply Z.ltb_lt | now apply Z.leb_le]).
    replace (digitChars (firstn (Z.to_nat n) sd) ++ js "."
             ++ digitChars (skipn (Z.to_nat n) sd))
      with (literalText (firstn (Z.to_nat n) sd)
              (Some (skipn (Z.to_nat n) sd)) None)
      by (unfold literalText; now rewrite app_nil_r).
    rewrite parseUnsignedDecimal_literal.
    - cbn [fractionDigits exponentValue].
      rewrite firstn_skipn, length_skipn.
      replace (Z.of_nat (length sd - Z.to_nat n) <=? 0)%Z with false
        by (symmetry; apply Z.leb_gt; unfold k in Hn; lia).
      replace (k <=? n)%Z with false by (symmetry; apply Z.leb_gt; lia).
      do 2 f_equal. unfold k. lia.
    - destruct sd as [|d sd]; [congruence|].
      destruct (Z.to_nat n) eqn:E; [lia | discriminate].
    - rewrite <- (firstn_skipn (Z.to_nat n) sd) in Hd.
      now apply Forall_app in Hd as [Hd _].
    - cbn [fractionDigits].
      rewrite <- (firstn_skipn (Z.to_nat n) sd) in Hd.
      now apply Forall_app in Hd as [_ Hd].
    - discriminate. }
  destruct (((-6 <? n) && (n <=? 0))%Z) eqn:C3.
  { (* a zero, the point, zeros, the digits *)
    apply andb_prop in C3 as [C3 C3']. apply Z.ltb_lt in C3. apply Z.leb_le in C3'.
    unfold renderDigits. fold k. rewrite C1, C2.
    replace ((-6 <? n) && (n <=? 0))%Z with true
      by (symmetry; apply andb_true_intro; split;
          [now apply Z.ltb_lt | now apply Z.leb_le]).
    replace (js "0." ++ repeat "0"%char (Z.to_nat (- n)) ++ digitChars sd)
      with (literalText [0%Z] (Some (repeat 0%Z (Z.to_nat (- n)) ++ sd)) None)
      by (unfold literalText;
          now rewrite app_nil_r, digitChars_app, digitChars_zeros).
    rewrite parseUnsignedDecimal_literal.
    - cbn [fractionDigits exponentValue].
      change ([0%Z] ++ repeat 0%Z (Z.to_nat (- n)) ++ sd)
        with (repeat 0%Z (S (Z.to_nat (- n))) ++ sd).
      rewrite digitsNumber_leading_zeros, length_app, repeat_length.
      replace (Z.of_nat (Z.to_nat (- n) + length sd) <=? 0)%Z with false
        by (symmetry; apply Z.leb_gt; unfold k in Hk; lia).
      replace (k <=? n)%Z with false by (symmetry; apply Z.leb_gt; lia).
      do 2 f_equal. unfold k. lia.
    - discriminate.
    - repeat constructor; lia.
    - cbn [fractionDigits]. apply Forall_app. split; [|exact Hd].
      apply Forall_forall. intros x Hx. apply repeat_spec in Hx. subst.
      split; lia.
    - discriminate. }
  (* exponent notation *)
  rewrite renderDigits_exponent by (fold k; now rewrite C1, C2, C3).
  assert (Hx : forall (neg : bool) (x : list Z),
             Some ((n - 1 <? 0)%Z, digitsOf (Z.abs (n - 1))) = Some (neg, x) ->
             x <> [] /\ Forall isDigitValue x).
  { intros neg x [= <- <-]. split.
    - apply digitsOf_nonempty. lia.
    - apply digitsOf_range. lia. }
  assert (He : exponentValue (Some ((n - 1 <? 0)%Z, digitsOf (Z.abs (n - 1))))
               = (n - 1)%Z).
  { unfold exponentValue. rewrite digitsOf_number by lia.
    destruct (Z.ltb_spec (n - 1) 0); lia. }
  destruct sd as [|d [|d2 rest]]; [congruence| |].
  - rewrite parseUnsignedDecimal_literal;
      [|discriminate | exact Hd | constructor | exact Hx].
    rewrite He. cbn [fractionDigits length Z.of_nat]. rewrite app_nil_r.
    unfold k. cbn [length Z.of_nat Pos.of_succ_nat].
    destruct (Z.leb_spec 0 (n - 1)), (Z.leb_spec 1 n); try lia.
    + now replace (n - 1 - 0)%Z with (n - 1)%Z by lia.
    + now replace (Z.to_nat (0 - (n - 1))) with (Z.to_nat (1 - n)) by lia.
  - inversion Hd as [|? ? Hd1 Hd2]; subst.
    rewrite parseUnsignedDecimal_literal;
      [|discriminate | constructor; [exact Hd1 | constructor] | exact Hd2
       | exact Hx].
    rewrite He. cbn [fractionDigits app].
    assert (Ek : k = (Z.of_nat (length (d2 :: rest)) + 1)%Z)
      by (unfold k; cbn [length]; lia).
    destruct (Z.leb_spec (Z.of_nat (length (d2 :: rest))) (n - 1)),
             (Z.leb_spec k n); try lia.
    + now replace (n - 1 - Z.of_nat (length (d2 :: rest)))%Z with (n - k)%Z by lia.
    + now replace (Z.to_nat (Z.of_nat (length (d2 :: rest)) - (n - 1)))
        with (Z.to_nat (k - n)) by lia.
Qed.

Lemma isNumChar_not_ws (c : ascii) : isNumChar c = true -> is_ws c = false.
Proof.
  destruct c as [[] [] [] [] [] [] [] []]; cbv; congruence.
Qed.

Lemma isDigit_isNumChar (c : ascii) : isDigit c = true -> isNumChar c = true.
Proof. unfold isNumChar. now intros ->. Qed.

Lemma digitChars_isDigit (ds : list Z) :
  Forall isDigitValue ds -> Forall (fun c => isDigit c = true) (digitChars ds).
Proof.
  intros H. unfold digitChars. apply Forall_map.
  eapply Forall_impl; [|exact H]. intros d. apply digitChar_isDigit.
Qed.

Lemma digitChars_isNumChar (ds : list Z) :
  Forall isDigitValue ds -> Forall (fun c => isNumChar c = true) (digitChars ds).
Proof.
  intros H. eapply Forall_impl; [|apply digitChars_isDigit, H].
  intros c. apply isDigit_isNumChar.
Qed.

Lemma zeros_isNumChar (z : nat) :
  Forall (fun c => isNumChar c = true) (repeat "0"%char z).
Proof.
  apply Forall_forall. intros c Hc. apply repeat_spec in Hc. now subst.
Qed.

Lemma renderDigits_chars (sd : list Z) (n : Z) :
  Forall isDigitValue sd ->
  Forall (fun c => isNumChar c = true) (renderDigits sd n).
Proof.
  intros Hd. unfold renderDigits.
  assert (Hfirst : Forall isDigitValue (firstn (Z.to_nat n) sd)).
  { rewrite <- (firstn_skipn (Z.to_nat n) sd) in Hd.
    now apply Forall_app in Hd as [Hd _]. }
  assert (Hskip : Forall isDigitValue (skipn (Z.to_nat n) sd)).
  { rewrite <- (firstn_skipn (Z.to_nat n) sd) in Hd.
    now apply Forall_app in Hd as [_ Hd]. }
  assert (He : Forall (fun c => isNumChar c = true)
                 ((if (n - 1 <? 0)%Z then js "-" else js "+")
                  ++ digitChars (digitsOf (Z.abs (n - 1))))).
  { apply Forall_app. split.
    - destruct (n - 1 <? 0)%Z; repeat constructor.
    - apply digitChars_isNumChar, digitsOf_range. lia. }
  assert (H1 : forall d, isDigitValue d ->
                         Forall (fun c => isNumChar c = true) (digitChars [d])).
  { intros d H. apply digitChars_isNumChar.
    constructor; [exact H | constructor]. }
  destruct ((_ <=? n) && (n <=? 21))%Z.
  { apply Forall_app. split;
      [now apply digitChars_isNumChar | apply zeros_isNumChar]. }
  destruct ((0 <? n) && (n <=? 21))%Z.
  { apply Forall_app. split; [now apply digitChars_isNumChar|].
    apply Forall_app. split;
      [repeat constructor | now apply digitChars_isNumChar]. }
  destruct ((-6 <? n) && (n <=? 0))%Z.
  { apply Forall_app. split; [repeat constructor|].
    apply Forall_app. split;
      [apply zeros_isNumChar | now apply digitChars_isNumChar]. }
  destruct sd as [|d [|d2 rest]]; [constructor| |];
    inversion Hd as [|? ? Hd1 Hd2]; subst.
  - apply Forall_app. split; [now apply H1|].
    apply Forall_app. split; [repeat constructor | exact He].
  - apply Forall_app. split; [now apply H1|].
    apply Forall_app. split; [repeat constructor|].
    apply Forall_app. split; [now apply digitChars_isNumChar|].
    apply Forall_app. split; [repeat constructor | exact He].
Qed.

Lemma renderDigits_head (sd : list Z) (n : Z) :
  sd <> [] -> Forall isDigitValue sd ->
  exists c rest, renderDigits sd n = c :: rest /\ isDigit c = true.
Proof.
  intros Hne Hd. destruct sd as [|d sd]; [congruence|].
  inversion Hd as [|? ? Hd1 Hd2]; subst.
  assert (H1 := digitChar_isDigit d Hd1).
  unfold renderDigits.
  destruct ((_ <=? n) && (n <=? 21))%Z; [cbn [digitChars map app]; eauto|].
  destruct ((0 <? n) && (n <=? 21))%Z eqn:C2.
  - apply andb_prop in C2 as [C2 _]. apply Z.ltb_lt in C2.
    destruct (Z.to_nat n) eqn:E; [lia|]. cbn [firstn digitChars map app]. eauto.
  - destruct ((-6 <? n) && (n <=? 0))%Z; [cbn [js list_ascii_of_string app]; eauto|].
    destruct sd; cbn [digitChars map app]; eauto.
Qed.

Lemma trim_no_whitespace (s : jsstring) :
  Forall (fun c => is_ws c = false) s -> trim s = s.
Proof.
  intros H. unfold trim, trimStart, trimEnd.
  assert (D : forall l, Forall (fun c => is_ws c = false) l ->
                        dropWhile is_ws l = l).
  { intros l Hl. destruct Hl as [|c l Hc _]; [reflexivity|].
    cbn [dropWhile]. now rewrite Hc. }
  rewrite (D s H), D; [apply rev_involutive|].
  now apply Forall_rev.
Qed.

Lemma prefixedBy_numeric (a b : ascii) (t : jsstring) :
  isNumChar a = false -> isNumChar b = false ->
  Forall (fun c => isNumChar c = true) t -> prefixedBy a b t = None.
Proof.
  intros Ha Hb Ht. destruct t as [|z [|x t]]; try reflexivity.
  inversion Ht as [|? ? _ Ht']; subst. inversion Ht' as [|? ? Hx _]; subst.
  unfold prefixedBy.
  destruct (Ascii.eqb_spec x a) as [->|_]; [congruence|].
  destruct (Ascii.eqb_spec x b) as [->|_]; [congruence|].
  now rewrite andb_false_r.
Qed.

Lemma significant_digits (m : Z) (scale : nat) :
  (0 < m)%Z -> (scale = O \/ (m mod 10 <> 0)%Z) ->
  let ds := digitsOf m in
  let sd := stripTrailingZeros ds in
  sd <> [] /\ Forall isDigitValue sd
  /\ decimalOf sd (Z.of_nat (length ds) - Z.of_nat scale) = Dec m scale.
Proof.
  intros Hm Hnormal ds sd.
  assert (Hds : Forall isDigitValue ds) by (apply digitsOf_range; lia).
  assert (Hval : digitsNumber ds 0 = m) by (apply digitsOf_number; lia).
  destruct (stripTrailingZeros_split ds) as (z & E & L). fold sd in E, L.
  assert (Hrel : (digitsNumber sd 0 * 10 ^ Z.of_nat z)%Z = m).
  { rewrite <- digitsNumber_zeros, <- digitsNumber_app, <- E. exact Hval. }
  assert (Hsd : sd <> []).
  { intros E0. rewrite E0 in Hrel. cbn in Hrel. lia. }
  split; [exact Hsd|].
  split; [now apply stripTrailingZeros_range|].
  unfold decimalOf.
  destruct Hnormal as [->|Hmod].
  - replace (Z.of_nat (length sd) <=? Z.of_nat (length ds) - Z.of_nat 0)%Z
      with true by (symmetry; apply Z.leb_le; lia).
    f_equal. rewrite <- Hrel. f_equal. f_equal. lia.
  - destruct (digitsOf_last m ltac:(lia)) as [front Hlast]. fold ds in Hlast.
    assert (Esd : sd = ds).
    { unfold sd. rewrite Hlast. now apply stripTrailingZeros_nonzero_last. }
    rewrite Esd, Hval.
    destruct scale as [|s'].
    + replace (Z.of_nat (length ds) <=? Z.of_nat (length ds) - Z.of_nat 0)%Z
        with true by (symmetry; apply Z.leb_le; lia).
      f_equal. replace (Z.of_nat (length ds) - Z.of_nat 0 - Z.of_nat (length ds))%Z
        with 0%Z by lia. lia.
    + replace (Z.of_nat (length ds) <=? Z.of_nat (length ds) - Z.of_nat (S s'))%Z
        with false by (symmetry; apply Z.leb_gt; lia).
      replace (Z.to_nat (Z.of_nat (length ds)
                         - (Z.of_nat (length ds) - Z.of_nat (S s'))))
        with (S s') by lia.
      cbn [normalize]. apply Z.eqb_neq in Hmod. now rewrite Hmod.
Qed.

Lemma numToString_chars (n : num) :
  Forall (fun c => is_ws c = false) (numToString n) /\ numToString n <> [].
Proof.
  destruct n as [m scale|[|]].
  - unfold numToString. destruct (Z.eqb_spec m 0) as [->|Hm].
    + split; [repeat constructor | discriminate].
    + assert (Hr : Forall (fun c => isNumChar c = true)
                     (renderDigits (stripTrailingZeros (digitsOf (Z.abs m)))
                        (Z.of_nat (length (digitsOf (Z.abs m))) - Z.of_nat scale))).
      { apply renderDigits_chars, stripTrailingZeros_range, digitsOf_range. lia. }
      destruct (significant_digits (Z.abs m) 0 ltac:(lia) (or_introl eq_refl))
        as (Hsd & Hd & _).
      destruct (renderDigits_head _ (Z.of_nat (length (digitsOf (Z.abs m)))
                                     - Z.of_nat scale) Hsd Hd)
        as (c & rest & E & _).
      split.
      * apply Forall_app. split.
        -- destruct (m <? 0)%Z; repeat constructor.
        -- eapply Forall_impl; [|exact Hr]. intros x. apply isNumChar_not_ws.
      * rewrite E. now destruct (m <? 0)%Z.
  - split; [repeat constructor | discriminate].
  - split; [repeat constructor | discriminate].
Qed.

Lemma mod10_abs (m : Z) : (m mod 10 <> 0)%Z -> (Z.abs m mod 10 <> 0)%Z.
Proof.
  intros H E. apply H.
  apply Z.mod_divide in E; [|lia]. apply Z.mod_divide; [lia|].
  exact (proj1 (Z.divide_abs_r 10 m) E).
Qed.

Lemma Number_numeric (t : jsstring) :
  Forall (fun c => isNumChar c = true) t -> t <> [] ->
  Number t = parseSignedDecimal t.
Proof.
  intros Ht Hne. unfold Number.
  rewrite trim_no_whitespace
    by (eapply Forall_impl; [|exact Ht]; intros x; apply isNumChar_not_ws).
  destruct t as [|c t]; [congruence|].
  rewrite (prefixedBy_numeric "x" "X" _ eq_refl eq_refl Ht).
  rewrite (prefixedBy_numeric "o" "O" _ eq_refl eq_refl Ht).
  now rewrite (prefixedBy_numeric "b" "B" _ eq_refl eq_refl Ht).
Qed.

(** Reading back a printed number gives the number. *)
Lemma Number_numToString (n : num) :
  numNormal n -> Number (numToString n) = Some n.
Proof.
  destruct n as [m scale|[|]]; [|reflexivity|reflexivity].
  intros Hnormal.
  unfold numToString.
  destruct (Z.eqb_spec m 0) as [->|Hm].
  { destruct Hnormal as [->|H]; [reflexivity | now elim H]. }
  set (ds := digitsOf (Z.abs m)).
  set (sd := stripTrailingZeros ds).
  set (pos := (Z.of_nat (length ds) - Z.of_nat scale)%Z).
  assert (Hn' : scale = O \/ (Z.abs m mod 10 <> 0)%Z).
  { destruct Hnormal as [H|H]; [now left | right; now apply mod10_abs]. }
  destruct (significant_digits (Z.abs m) scale ltac:(lia) Hn')
    as (Hsd & Hd & Hdec).
  fold ds in Hsd, Hd, Hdec. fold sd in Hsd, Hd, Hdec. fold pos in Hdec.
  assert (Hr := renderDigits_chars sd pos Hd).
  assert (Hp := parseUnsignedDecimal_render sd pos Hsd Hd).
  destruct (renderDigits_head sd pos Hsd Hd) as (c & rest & E & Hc).
  rewrite Number_numeric.
  - destruct (Z.ltb_spec m 0) as [Hneg|Hpos].
    + cbn [js list_ascii_of_string app parseSignedDecimal Ascii.eqb Bool.eqb].
      rewrite Hp, Hdec. cbn [option_map negate]. do 2 f_equal. lia.
    + cbn [app]. rewrite E in *. cbn [parseSignedDecimal].
      rewrite (isDigit_not_char "-" c eq_refl Hc).
      rewrite (isDigit_not_char "+" c eq_refl Hc).
      rewrite Hp, Hdec. do 2 f_equal. lia.
  - apply Forall_app. split; [destruct (m <? 0)%Z; repeat constructor | exact Hr].
  - rewrite E. now destruct (m <? 0)%Z.
Qed.

Lemma numToString_numeric (m : Z) (scale : nat) :
  Forall (fun c => isNumChar c = true) (numToString (Dec m scale))
  /\ numToString (Dec m scale) <> [].
Proof.
  unfold numToString. destruct (Z.eqb_spec m 0) as [->|Hm].
  - split; [repeat constructor | discriminate].
  - destruct (significant_digits (Z.abs m) 0 ltac:(lia) (or_introl eq_refl))
      as (Hsd & Hd & _).
    destruct (renderDigits_head _ (Z.of_nat (length (digitsOf (Z.abs m)))
                                   - Z.of_nat scale) Hsd Hd)
      as (c & rest & E & _).
    split.
    + apply Forall_app. split; [destruct (m <? 0)%Z; repeat constructor|].
      now apply renderDigits_chars.
    + rewrite E. now destruct (m <? 0)%Z.
Qed.

Lemma numeric_not_word (t w : jsstring) :
  Forall (fun c => isNumChar c = true) t -> t <> [] ->
  match w with
  | c :: _ => isNumChar c = false
  | [] => True
  end ->
  str_eqb t w = false.
Proof.
  intros Ht Hne Hw. destruct t as [|x t]; [congruence|].
  destruct w as [|c w]; [reflexivity|].
  inversion Ht as [|? ? Hx _]; subst. cbn [str_eqb].
  destruct (Ascii.eqb_spec x c) as [->|_]; [congruence | reflexivity].
Qed.

Lemma coerce_numToString (n : num) :
  numNormal n -> coerce (numToString n) = VNum n.
Proof.
  intros Hn. destruct n as [m scale|[|]]; [|reflexivity|reflexivity].
  destruct (numToString_numeric m scale) as [Hc Hne].
  unfold coerce, isNaN.
  rewrite (numeric_not_word _ (js "true") Hc Hne eq_refl).
  rewrite (numeric_not_word _ (js "false") Hc Hne eq_refl).
  rewrite (numeric_not_word _ (js "null") Hc Hne eq_refl).
  rewrite (numeric_not_word _ [] Hc Hne I).
  now rewrite (Number_numToString _ Hn).
Qed.

Lemma coerce_plainString (s : jsstring) : plainString s -> coerce s = VStr s.
Proof.
  intros (_ & _ & Hne & Ht & Hf & Hn & Hnan).
  unfold coerce, isNaN.
  apply str_eqb_neq in Hne, Ht, Hf, Hn.
  now rewrite Ht, Hf, Hn, Hne, Hnan.
Qed.

Lemma metaLine_text (k : jsstring) (v : value) :
  metaLine (k, v) = k ++ js ": " ++ valueText v.
Proof. now destruct v. Qed.

Lemma not_In_nl_no_ws (s : jsstring) :
  Forall (fun c => is_ws c = false) s -> ~ In nl s.
Proof.
  intros H Hin. rewrite Forall_forall in H. now specialize (H nl Hin).
Qed.

Lemma valueOk_text (v : value) :
  valueOk v ->
  trim (valueText v) = valueText v
  /\ ~ In nl (valueText v)
  /\ coerce (valueText v) = v.
Proof.
  destruct v as [| |[|]|n|s|items]; cbn [valueOk valueText ToString];
    try contradiction.
  - intros _. repeat split. cbv. intuition discriminate.
  - intros _. repeat split. cbv. intuition discriminate.
  - intros _. repeat split. cbv. intuition discriminate.
  - intros Hn. destruct (numToString_chars n) as [Hws _].
    split; [now apply trim_no_whitespace|].
    split; [now apply not_In_nl_no_ws | now apply coerce_numToString].
  - intros Hs. split; [apply Hs|]. split; [apply Hs|].
    now apply coerce_plainString.
Qed.

(** ** Lines *)

Lemma split_line (l : jsstring) :
  ~ In nl l -> forall rest, split nl (l ++ nl :: rest) = l :: split nl rest.
Proof.
  induction l as [|c l IH]; intros Hl rest.
  - cbn [app split]. now rewrite Ascii.eqb_refl.
  - cbn [app split].
    destruct (Ascii.eqb_spec c nl) as [->|_]; [elim Hl; now left|].
    rewrite IH by (intros H; apply Hl; now right). reflexivity.
Qed.

Lemma split_last (l : jsstring) : ~ In nl l -> split nl l = [l].
Proof.
  induction l as [|c l IH]; intros Hl; [reflexivity|].
  cbn [split].
  destruct (Ascii.eqb_spec c nl) as [->|_]; [elim Hl; now left|].
  rewrite IH by (intros H; apply Hl; now right). reflexivity.
Qed.

Lemma join_cons (sep l : jsstring) (lines : list jsstring) :
  lines <> [] -> join sep (l :: lines) = l ++ sep ++ join sep lines.
Proof. destruct lines; [intros H; now elim H | reflexivity]. Qed.

Lemma split_join (lines : list jsstring) :
  lines <> [] -> Forall (fun l => ~ In nl l) lines ->
  split nl (join [nl] lines) = lines.
Proof.
  intros Hne H. revert Hne.
  induction H as [|l lines Hl Hrest IH]; intros Hne; [now elim Hne|].
  destruct lines as [|l' lines].
  - now apply split_last.
  - rewrite join_cons by discriminate. cbn [app].
    rewrite split_line by exact Hl. f_equal. apply IH. discriminate.
Qed.

Lemma join_app (sep : jsstring) (a b : list jsstring) :
  a <> [] -> b <> [] -> join sep (a ++ b) = join sep a ++ sep ++ join sep b.
Proof.
  intros Ha Hb. induction a as [|l a IH]; [now elim Ha|].
  destruct a as [|l' a].
  - cbn [app]. now rewrite join_cons.
  - change ((l :: l' :: a) ++ b) with (l :: (l' :: a) ++ b).
    rewrite join_cons by discriminate. rewrite IH by discriminate.
    rewrite (join_cons sep l (l' :: a)) by discriminate.
    now rewrite <- !app_assoc.
Qed.

Lemma startsWith_app (p r : jsstring) : startsWith p (p ++ r) = true.
Proof.
  induction p as [|c p IH]; [reflexivity|].
  cbn [app startsWith]. now rewrite Ascii.eqb_refl.
Qed.

Lemma startsWith_extended (p k : jsstring) (c : ascii) (r : jsstring) :
  startsWith p k = false -> ~ In c p -> startsWith p (k ++ c :: r) = false.
Proof.
  revert k. induction p as [|x p IH]; intros k Hk Hc; [discriminate|].
  destruct k as [|y k]; cbn [app startsWith] in *.
  - destruct (Ascii.eqb_spec x c) as [->|_]; [elim Hc; now left | reflexivity].
  - destruct (Ascii.eqb x y); [|reflexivity]. cbn [andb] in *.
    apply IH; [exact Hk | intros H; apply Hc; now right].
Qed.

Lemma findSub_here (p r : jsstring) : findSub p (p ++ r) = Some ([], r).
Proof.
  assert (E : skipn (length p) (p ++ r) = r).
  { induction p as [|c p IH]; [reflexivity | exact IH]. }
  assert (S := startsWith_app p r).
  destruct p as [|c p]; [now destruct r|].
  cbn [app] in *. cbn [findSub]. now rewrite S, E.
Qed.

(** In a block of lines none of which, after the first, starts with the
    delimiter, the first line break followed by the delimiter is the one
    that closes the block. *)
Lemma findSub_closing (lines : list jsstring) (rest : jsstring) :
  Forall (fun l => ~ In nl l) lines ->
  Forall (fun l => startsWith delimiter l = false) (tl lines) ->
  lines <> [] ->
  findSub (nl :: delimiter) (join [nl] lines ++ (nl :: delimiter) ++ rest)
  = Some (join [nl] lines, rest).
Proof.
  intros Hnl. revert rest.
  induction Hnl as [|l lines Hl Hrest IH]; intros rest Hd Hne;
    [now elim Hne|].
  clear Hne.
  assert (Hskip : forall tail found r,
             findSub (nl :: delimiter) tail = Some (found, r) ->
             findSub (nl :: delimiter) (l ++ tail) = Some (l ++ found, r)).
  { intros tail found r Ht. clear -Hl Ht.
    induction l as [|c l IHl]; [exact Ht|].
    cbn [app findSub startsWith].
    destruct (Ascii.eqb_spec nl c) as [<-|_]; [elim Hl; now left|].
    cbn [andb]. rewrite IHl by (intros H; apply Hl; now right). reflexivity. }
  destruct lines as [|l' lines].
  - cbn [join]. rewrite (Hskip _ [] rest); [now rewrite app_nil_r|].
    apply findSub_here.
  - rewrite join_cons by discriminate. rewrite <- !app_assoc.
    cbn [tl] in Hd. inversion Hd as [|? ? Hl' Hd']; subst.
    apply Hskip.
    change ([nl] ++ join [nl] (l' :: lines) ++ (nl :: delimiter) ++ rest)
      with (nl :: (join [nl] (l' :: lines) ++ (nl :: delimiter) ++ rest)).
    assert (Hno : startsWith (nl :: delimiter)
                    (nl :: (join [nl] (l' :: lines) ++ (nl :: delimiter) ++ rest))
                  = false).
    { cbn [startsWith]. rewrite Ascii.eqb_refl. cbn [andb].
      destruct lines as [|l'' lines].
      - cbn [join]. apply startsWith_extended; [exact Hl'|].
        cbv. intuition discriminate.
      - rewrite join_cons by discriminate. rewrite <- !app_assoc.
        apply startsWith_extended; [exact Hl'|].
        cbv. intuition discriminate. }
    cbn [findSub]. rewrite Hno.
    rewrite (IH rest); [reflexivity | exact Hd' | discriminate].
Qed.

(** ** Decoding an encoded block *)

Lemma trim_cons_ws (c : ascii) (s : jsstring) :
  is_ws c = true -> trim (c :: s) = trim s.
Proof. intros H. unfold trim, trimStart. cbn [dropWhile]. now rewrite H. Qed.

Lemma hasOwn_false (k : jsstring) (m : obj) :
  ~ In k (map fst m) -> hasOwn k m = false.
Proof.
  intros H. unfold hasOwn. destruct (existsb _ m) eqn:E; [|reflexivity].
  apply existsb_exists in E as ([k' v] & Hin & Hk). apply str_eqb_eq in Hk.
  cbn [fst] in Hk. subst. elim H. now apply (in_map fst) in Hin.
Qed.

Lemma insertIndexed_last (i : Z) (k : jsstring) (v : value) (m : obj) :
  arrayIndex k = Some i ->
  Forall (fun k' => keyBefore k' k) (map fst m) ->
  insertIndexed i k v m = m ++ [(k, v)].
Proof.
  intros Hi. induction m as [|[k' v'] m IH]; intros H; [reflexivity|].
  cbn [map fst] in H. inversion H as [|? ? Hk Hm]; subst.
  cbn [insertIndexed app]. unfold keyBefore in Hk. rewrite Hi in Hk.
  destruct (arrayIndex k') as [j|]; [|contradiction].
  apply Z.ltb_lt in Hk. rewrite Hk. now rewrite IH.
Qed.

Lemma obj_set_append (k : jsstring) (v : value) (m : obj) :
  k <> js "__proto__" -> ~ In k (map fst m) ->
  Forall (fun k' => keyBefore k' k) (map fst m) ->
  obj_set k v m = m ++ [(k, v)].
Proof.
  intros Hp Hin Hb. unfold obj_set, defineOwn.
  apply str_eqb_neq in Hp. rewrite Hp, (hasOwn_false _ _ Hin).
  destruct (arrayIndex k) as [i|] eqn:E; [|reflexivity].
  now apply insertIndexed_last.
Qed.

Lemma StronglySorted_before (A : Type) (R : A -> A -> Prop) (l1 : list A)
  (x : A) (l2 : list A) :
  StronglySorted R (l1 ++ x :: l2) -> Forall (fun y => R y x) l1.
Proof.
  induction l1 as [|a l1 IH]; intros H; [constructor|].
  cbn [app] in H. inversion H as [|? ? Hs Hall]; subst.
  constructor; [|now apply IH].
  rewrite Forall_forall in Hall. apply Hall. apply in_or_app. right. now left.
Qed.

(** Under a key other than [__proto__] the loop assigns as on any
    object literal, whether the prototype is there or not. *)
Lemma assignMeta_own (k : jsstring) (v : value) (bare : bool) (m : obj) :
  k <> js "__proto__" -> assignMeta k v (bare, m) = (bare, obj_set k v m).
Proof.
  intros Hp. unfold assignMeta. apply str_eqb_neq in Hp. now rewrite Hp.
Qed.

Lemma parseLine_metaLine (k : jsstring) (v : value) (bare : bool) (m : obj) :
  keyOk k -> valueOk v ->
  parseLine (bare, m) (metaLine (k, v)) = (bare, obj_set k v m).
Proof.
  intros (Hk & Hcolon & _ & Hp) Hv.
  destruct (valueOk_text v Hv) as (Ht & _ & Hc).
  unfold parseLine. rewrite metaLine_text.
  assert (Hcut : cutAt ":" (k ++ js ": " ++ valueText v)
                 = Some (k, " "%char :: valueText v)).
  { unfold cutAt. apply (cutWhere_first _ k ":" (" "%char :: valueText v));
      [|reflexivity].
    apply Forall_forall. intros c Hc' .
    destruct (Ascii.eqb_spec c ":") as [->|_]; [contradiction | reflexivity]. }
  rewrite Hcut, Hk, trim_cons_ws by reflexivity. rewrite Ht, Hc.
  now apply assignMeta_own.
Qed.

Lemma metaLine_one_line (k : jsstring) (v : value) :
  keyOk k -> valueOk v -> ~ In nl (metaLine (k, v)).
Proof.
  intros (_ & _ & Hnl & _) Hv. destruct (valueOk_text v Hv) as (_ & Ht & _).
  rewrite metaLine_text. intros H.
  apply in_app_or in H as [H|H]; [contradiction|].
  cbn [js list_ascii_of_string app] in H.
  destruct H as [H|[H|H]]; [discriminate | discriminate | contradiction].
Qed.

Lemma metaLine_not_delimiter (k : jsstring) (v : value) :
  startsWith delimiter k = false -> startsWith delimiter (metaLine (k, v)) = false.
Proof.
  intros H. rewrite metaLine_text. cbn [js list_ascii_of_string app].
  apply startsWith_extended; [exact H|]. cbv. intuition discriminate.
Qed.

Lemma parse_lines (m2 : obj) (bare : bool) :
  forall m1,
    NoDup (map fst (m1 ++ m2)) ->
    StronglySorted keyBefore (map fst (m1 ++ m2)) ->
    Forall (fun p => keyOk (fst p) /\ valueOk (snd p)) m2 ->
    fold_left parseLine (map metaLine m2) (bare, m1) = (bare, m1 ++ m2).
Proof.
  induction m2 as [|[k v] m2 IH]; intros m1 Hnd Hs Hok.
  - now rewrite app_nil_r.
  - inversion Hok as [|? ? [Hk Hv] Hok']; subst. cbn [fst snd] in *.
    cbn [map fold_left]. rewrite parseLine_metaLine by assumption.
    rewrite map_app in Hnd, Hs. cbn [map fst] in Hnd, Hs.
    rewrite obj_set_append.
    + replace (m1 ++ (k, v) :: m2) with ((m1 ++ [(k, v)]) ++ m2)
        by now rewrite <- app_assoc.
      apply IH; [| |exact Hok'];
        rewrite !map_app; cbn [map fst]; now rewrite <- app_assoc.
    + apply Hk.
    + now apply NoDup_remove_2 in Hnd; intros H; apply Hnd, in_or_app; left.
    + now apply StronglySorted_before in Hs.
Qed.

Lemma buildYamlFrontMatter_shape (m : obj) (d : jsstring) :
  m <> [] ->
  buildYamlFrontMatter m d
  = delimiter ++ nl :: (join [nl] (map metaLine m)
                        ++ (nl :: delimiter) ++ nl :: nl :: d).
Proof.
  intros Hm. unfold buildYamlFrontMatter.
  assert (Hl : map metaLine m <> []) by (destruct m; [congruence | discriminate]).
  change ([delimiter] ++ map metaLine m ++ [delimiter; []; d])
    with (delimiter :: (map metaLine m ++ [delimiter; []; d])).
  rewrite join_cons by (destruct (map metaLine m); discriminate).
  rewrite join_app by (assumption || discriminate).
  reflexivity.
Qed.

(** C1 - Metadata codec round trip, for what the code carries through.
    For every metadata map with at least one entry, whose keys are
    distinct and in enumeration order, trimmed, free of colons and line
    breaks, other than [__proto__] and, after the first, not starting with
    the delimiter, and whose values are booleans, null, numbers (NaN
    excepted) or plain strings (trimmed, on one line, not empty, and not
    the text of a boolean, of null or of a number), and for every trimmed
    description, decoding the encoded body returns the map and the
    description. *)
Theorem front_matter_round_trip (m : obj) (d : jsstring) :
  m <> [] ->
  objWellFormed m ->
  Forall (fun p => keyOk (fst p) /\ valueOk (snd p)) m ->
  Forall (fun k => startsWith delimiter k = false) (tl (map fst m)) ->
  trim d = d ->
  parseYamlFrontMatter (buildYamlFrontMatter m d)
  = {| meta := m; description := d |}.
Proof.
  intros Hm [Hnd Hs] Hok Hdelim Hd.
  assert (Hlines : map metaLine m <> [])
    by (destruct m; [congruence | discriminate]).
  assert (Hone : Forall (fun l => ~ In nl l) (map metaLine m)).
  { apply Forall_map. eapply Forall_impl; [|exact Hok].
    intros [k v] [Hk Hv]. now apply metaLine_one_line. }
  assert (Hnot : Forall (fun l => startsWith delimiter l = false)
                   (tl (map metaLine m))).
  { destruct m as [|p m]; [constructor|]. cbn [map tl] in *.
    apply Forall_map. rewrite Forall_map in Hdelim.
    eapply Forall_impl; [|exact Hdelim].
    intros [k v] H. now apply metaLine_not_delimiter. }
  rewrite buildYamlFrontMatter_shape by exact Hm.
  unfold parseYamlFrontMatter.
  cbn [delimiter js list_ascii_of_string app].
  unfold matchFrontMatter.
  cbn [delimiter js list_ascii_of_string app startsWith skipn Ascii.eqb Bool.eqb
       andb].
  change ([nl] ++ ?x) with (nl :: x).
  change (nl :: "-"%char :: "-"%char :: "-"%char :: nl :: nl :: d)
    with ((nl :: delimiter) ++ nl :: nl :: d).
  rewrite Ascii.eqb_refl. cbn [andb].
  change [nl; "-"%char; "-"%char; "-"%char] with (nl :: delimiter).
  rewrite (findSub_closing _ (nl :: nl :: d) Hone Hnot Hlines).
  rewrite Ascii.eqb_refl.
  rewrite (split_join _ Hlines Hone).
  unfold parseLines. rewrite (parse_lines m false [] Hnd Hs Hok).
  rewrite trim_cons_ws by reflexivity. now rewrite Hd.
Qed.

Lemma front_matter_round_trip_witness :
  parseYamlFrontMatter
    (buildYamlFrontMatter
       [ (js "priority", VStr (js "high")); (js "due_date", VStr (js "2026-02-10"));
         (js "estimated_hours", VNum (Dec 25 1)); (js "my_day", VBool false);
         (js "parent_task", VNull) ]
       (js "Fix the login bug"))
  = {| meta :=
         [ (js "priority", VStr (js "high"));
           (js "due_date", VStr (js "2026-02-10"));
           (js "estimated_hours", VNum (Dec 25 1)); (js "my_day", VBool false);
           (js "parent_task", VNull) ];
       description := js "Fix the login bug" |}.
Proof.
  apply front_matter_round_trip.
  - discriminate.
  - split.
    + repeat constructor; cbv; intuition discriminate.
    + repeat constructor.
  - repeat constructor; cbv; intuition discriminate.
  - repeat constructor.
  - reflexivity.
Defined.

(** The claim C1 as stated fails: a description that starts with white
    space is returned without it. *)
Lemma front_matter_counterexample :
  parseYamlFrontMatter
    (buildYamlFrontMatter [(js "priority", VStr (js "high"))]
       (js "    indented code"))
  = {| meta := [(js "priority", VStr (js "high"))];
       description := js "indented code" |}
  /\ js "    indented code" <> js "indented code"
  /\ startsWith delimiter (js "    indented code") = false.
Proof.
  split; [vm_compute; reflexivity|]. split; [discriminate | reflexivity].
Qed.

(** A list value is written without brackets and read back as one
    string; an empty map is not read back at all. *)
Lemma front_matter_lists_and_empty_maps :
  meta (parseYamlFrontMatter
          (buildYamlFrontMatter [(js "tags", VArr [js "a"; js "b"])] (js "x")))
  = [(js "tags", VStr (js "a, b"))]
  /\ parseYamlFrontMatter (buildYamlFrontMatter [] (js "x"))
     = {| meta := []; description := buildYamlFrontMatter [] (js "x") |}
  /\ meta (parseYamlFrontMatter
             (buildYamlFrontMatter [(js "note", VStr (js "42"))] (js "x")))
     = [(js "note", VNum (Dec 42 0))].
Proof.
  vm_compute. repeat split.
Qed.

(** ** My Day buckets *)

Lemma str_ltb_irrefl (s : jsstring) : str_ltb s s = false.
Proof.
  induction s as [|c s IH]; [reflexivity|].
  cbn [str_ltb]. now rewrite Nat.ltb_irrefl.
Qed.

(** Apart from [overdue] against [in_progress], the buckets of
    [getMyDayTasks] exclude one another: a flagged task is in [my_day]
    only, and a task due today is in [due_today] only. *)
Lemma my_day_other_buckets_disjoint (today : jsstring) (tasks : list Task.t) :
  let r := myDayOf today tasks in
  (forall t, In t (MyDay.my_day r) ->
             ~ In t (MyDay.due_today r) /\ ~ In t (MyDay.overdue r)
             /\ ~ In t (MyDay.in_progress r))
  /\ (forall t, In t (MyDay.due_today r) ->
                ~ In t (MyDay.overdue r) /\ ~ In t (MyDay.in_progress r)).
Proof.
  cbn [myDayOf MyDay.my_day MyDay.due_today MyDay.overdue MyDay.in_progress].
  split; intros t Ht; apply filter_In in Ht as [_ Ht].
  - apply andb_prop in Ht as [Hmy _].
    repeat split; intros H; apply filter_In in H as [_ H];
      rewrite Hmy in H; cbn [negb] in H;
      rewrite ?andb_false_r in H; discriminate.
  - apply andb_prop in Ht as [Ht _]. apply andb_prop in Ht as [Heq _].
    split; intros H; apply filter_In in H as [_ H].
    + destruct (Task.due_date t) as [| | | |s|]; try discriminate.
      cbn [strictEqStr] in Heq. apply str_eqb_eq in Heq. subst s.
      cbn [ltStr] in H. rewrite str_ltb_irrefl in H.
      rewrite andb_false_r in H. discriminate.
    + rewrite Heq in H. cbn [negb] in H. rewrite andb_false_r in H.
      discriminate.
Qed.

(** * Further properties *)

(** ** Reading back any encoded value *)

Lemma cutAt_colon (k rest : jsstring) :
  ~ In ":"%char k -> cutAt ":" (k ++ ":"%char :: rest) = Some (k, rest).
Proof.
  intros Hcolon. unfold cutAt.
  apply (cutWhere_first _ k ":" rest); [|reflexivity].
  apply Forall_forall. intros c Hc.
  destruct (Ascii.eqb_spec c ":") as [->|_]; [contradiction | reflexivity].
Qed.

Lemma parseLine_metaLine_readBack (k : jsstring) (v : value) (bare : bool)
  (m : obj) :
  keyOk k ->
  parseLine (bare, m) (metaLine (k, v)) = (bare, obj_set k (readBack v) m).
Proof.
  intros (Hk & Hcolon & _ & Hp). unfold parseLine. rewrite metaLine_text.
  change (k ++ js ": " ++ valueText v)
    with (k ++ ":"%char :: " "%char :: valueText v).
  rewrite (cutAt_colon _ _ Hcolon), Hk, trim_cons_ws by reflexivity.
  now apply assignMeta_own.
Qed.

Lemma metaLine_on_one_line (k : jsstring) (v : value) :
  ~ In nl k -> oneLine v -> ~ In nl (metaLine (k, v)).
Proof.
  intros Hk Hv. rewrite metaLine_text. intros H.
  apply in_app_or in H as [H|H]; [contradiction|].
  cbn [js list_ascii_of_string app] in H.
  destruct H as [H|[H|H]]; [discriminate | discriminate | contradiction].
Qed.

Lemma parse_lines_readBack (m2 : obj) (bare : bool) :
  forall m1,
    NoDup (map fst (m1 ++ m2)) ->
    StronglySorted keyBefore (map fst (m1 ++ m2)) ->
    Forall (fun p => keyOk (fst p)) m2 ->
    fold_left parseLine (map metaLine m2) (bare, m1)
    = (bare, m1 ++ map readBackEntry m2).
Proof.
  induction m2 as [|[k v] m2 IH]; intros m1 Hnd Hs Hok.
  - now rewrite app_nil_r.
  - inversion Hok as [|? ? Hk Hok']; subst. cbn [fst snd] in *.
    cbn [map fold_left].
    rewrite parseLine_metaLine_readBack by exact Hk.
    rewrite map_app in Hnd, Hs. cbn [map fst] in Hnd, Hs.
    rewrite obj_set_append.
    + change (readBackEntry (k, v) :: map readBackEntry m2)
        with ([(k, readBack v)] ++ map readBackEntry m2).
      rewrite app_assoc.
      apply IH; [| |exact Hok'];
        rewrite !map_app; cbn [map fst]; now rewrite <- app_assoc.
    + apply Hk.
    + now apply NoDup_remove_2 in Hnd; intros H; apply Hnd, in_or_app; left.
    + now apply StronglySorted_before in Hs.
Qed.

Lemma decode_encoded (m : obj) (d : jsstring) :
  m <> [] ->
  objWellFormed m ->
  Forall (fun p => keyOk (fst p) /\ oneLine (snd p)) m ->
  Forall (fun k => startsWith delimiter k = false) (tl (map fst m)) ->
  parseYamlFrontMatter (buildYamlFrontMatter m d)
  = {| meta := map readBackEntry m; description := trim d |}.
Proof.
  intros Hm [Hnd Hs] Hok Hdelim.
  assert (Hlines : map metaLine m <> [])
    by (destruct m; [congruence | discriminate]).
  assert (Hone : Forall (fun l => ~ In nl l) (map metaLine m)).
  { apply Forall_map. eapply Forall_impl; [|exact Hok].
    intros [k v] [Hk Hv]. apply metaLine_on_one_line; [apply Hk | exact Hv]. }
  assert (Hnot : Forall (fun l => startsWith delimiter l = false)
                   (tl (map metaLine m))).
  { destruct m as [|p m]; [constructor|]. cbn [map tl] in *.
    apply Forall_map. rewrite Forall_map in Hdelim.
    eapply Forall_impl; [|exact Hdelim].
    intros [k v] H. now apply metaLine_not_delimiter. }
  assert (Hkeys : Forall (fun p => keyOk (fst p)) m).
  { eapply Forall_impl; [|exact Hok]. now intros p [H _]. }
  rewrite buildYamlFrontMatter_shape by exact Hm.
  unfold parseYamlFrontMatter.
  cbn [delimiter js list_ascii_of_string app].
  unfold matchFrontMatter.
  cbn [delimiter js list_ascii_of_string app startsWith skipn Ascii.eqb Bool.eqb
       andb].
  change ([nl] ++ ?x) with (nl :: x).
  change (nl :: "-"%char :: "-"%char :: "-"%char :: nl :: nl :: d)
    with ((nl :: delimiter) ++ nl :: nl :: d).
  rewrite Ascii.eqb_refl. cbn [andb].
  change [nl; "-"%char; "-"%char; "-"%char] with (nl :: delimiter).
  rewrite (findSub_closing _ (nl :: nl :: d) Hone Hnot Hlines).
  rewrite Ascii.eqb_refl.
  rewrite (split_join _ Hlines Hone).
  unfold parseLines. rewrite (parse_lines_readBack m false [] Hnd Hs Hkeys).
  now rewrite trim_cons_ws by reflexivity.
Qed.

(** ** Array-index keys *)

Lemma radixDigit_decimal (c : ascii) (d : Z) :
  radixDigit 10 c = Some d -> isDigitValue d /\ c = digitChar d.
Proof.
  unfold radixDigit, hexDigitOf, code, digitChar, isDigitValue.
  pose proof (ascii_nat_embedding c) as Hc.
  revert Hc. generalize (nat_of_ascii c). intros n Hc.
  destruct (Nat.leb_spec 48 n); destruct (Nat.leb_spec n 57); cbn [andb].
  1: { destruct (Z.ltb_spec (Z.of_nat (n - 48)) 10); [|discriminate].
       intros [= <-]. split; [lia|]. rewrite Nat2Z.id, <- Hc. f_equal. lia. }
  all: destruct (Nat.leb_spec 97 n); destruct (Nat.leb_spec n 102);
    destruct (Nat.leb_spec 65 n); destruct (Nat.leb_spec n 70);
    cbn [andb]; try discriminate; try lia;
    match goal with
    | |- context [(?x <? 10)%Z] => destruct (Z.ltb_spec x 10)
    end; try discriminate; lia.
Qed.

Lemma digitsValue_bounds (s : jsstring) :
  forall acc v,
    (0 <= acc)%Z -> digitsValue 10 acc s = Some v ->
    (acc * 10 ^ Z.of_nat (length s) <= v
     < (acc + 1) * 10 ^ Z.of_nat (length s))%Z.
Proof.
  induction s as [|c s IH]; intros acc v Hacc H.
  - injection H as <-. cbn [length]. change (10 ^ Z.of_nat 0)%Z with 1%Z. lia.
  - cbn [digitsValue] in H.
    destruct (radixDigit 10 c) as [d|] eqn:E; [|discriminate].
    apply radixDigit_decimal in E as [Hd _]. unfold isDigitValue in Hd.
    apply IH in H; [|lia].
    cbn [length]. rewrite Nat2Z.inj_succ, Z.pow_succ_r by lia.
    assert (0 < 10 ^ Z.of_nat (length s))%Z by (apply Z.pow_pos_nonneg; lia).
    nia.
Qed.

Lemma digitsValue_inj (s : jsstring) :
  forall s' acc acc' v,
    length s = length s' ->
    digitsValue 10 acc s = Some v -> digitsValue 10 acc' s' = Some v ->
    acc = acc' /\ s = s'.
Proof.
  induction s as [|c s IH]; intros [|c' s'] acc acc' v Hlen H H';
    try discriminate.
  - cbn [digitsValue] in *. split; congruence.
  - cbn [digitsValue] in *.
    destruct (radixDigit 10 c) as [d|] eqn:E; [|discriminate].
    destruct (radixDigit 10 c') as [d'|] eqn:E'; [|discriminate].
    apply radixDigit_decimal in E as [Hd ->], E' as [Hd' ->].
    injection Hlen as Hlen.
    destruct (IH s' _ _ v Hlen H H') as [Hacc ->].
    unfold isDigitValue in *.
    assert (acc = acc') by lia. assert (d = d') by lia. now subst.
Qed.

Lemma arrayIndex_digits (k : jsstring) (i : Z) :
  arrayIndex k = Some i ->
  exists c rest d,
    k = c :: rest /\ radixDigit 10 c = Some d
    /\ (rest <> [] -> d <> 0%Z)
    /\ digitsValue 10 d rest = Some i.
Proof.
  destruct k as [|c rest]; [discriminate|]. unfold arrayIndex.
  destruct (Ascii.eqb_spec c "0") as [->|Hc]; cbn [andb].
  - destruct rest as [|x rest]; cbn [str_eqb negb]; [|discriminate].
    intros H. injection H as <-. exists "0"%char, [], 0%Z.
    repeat split; try reflexivity. intros H; now elim H.
  - unfold numeral. cbn [digitsValue].
    destruct (radixDigit 10 c) as [d|] eqn:E; [|discriminate].
    destruct (digitsValue 10 (10 * 0 + d) rest) as [v|] eqn:V; [|discriminate].
    destruct (v <=? 4294967294)%Z; [|discriminate].
    intros [= <-]. exists c, rest, d.
    split; [reflexivity|]. split; [exact E|]. split; [|exact V].
    intros _ ->. apply radixDigit_decimal in E as [_ E]. now apply Hc.
Qed.

Lemma arrayIndex_inj (k k' : jsstring) (i : Z) :
  arrayIndex k = Some i -> arrayIndex k' = Some i -> k = k'.
Proof.
  intros H H'.
  apply arrayIndex_digits in H as (c & rest & d & -> & E & Hz & V).
  apply arrayIndex_digits in H' as (c' & rest' & d' & -> & E' & Hz' & V').
  apply radixDigit_decimal in E as [Hd ->], E' as [Hd' ->].
  unfold isDigitValue in *.
  pose proof (digitsValue_bounds rest d i ltac:(lia) V) as B.
  pose proof (digitsValue_bounds rest' d' i ltac:(lia) V') as B'.
  assert (Hlen : length rest = length rest').
  { destruct (Nat.lt_trichotomy (length rest) (length rest')) as [L|[L|L]];
      [exfalso | exact L | exfalso].
    - assert (d' <> 0%Z) by (apply Hz'; intros ->; cbn [length] in L; lia).
      assert (10 * 10 ^ Z.of_nat (length rest) <= 10 ^ Z.of_nat (length rest'))%Z.
      { rewrite <- Z.pow_succ_r by lia. apply Z.pow_le_mono_r; lia. }
      assert (0 < 10 ^ Z.of_nat (length rest))%Z by (apply Z.pow_pos_nonneg; lia).
      nia.
    - assert (d <> 0%Z) by (apply Hz; intros ->; cbn [length] in L; lia).
      assert (10 * 10 ^ Z.of_nat (length rest') <= 10 ^ Z.of_nat (length rest))%Z.
      { rewrite <- Z.pow_succ_r by lia. apply Z.pow_le_mono_r; lia. }
      assert (0 < 10 ^ Z.of_nat (length rest'))%Z by (apply Z.pow_pos_nonneg; lia).
      nia. }
  destruct (digitsValue_inj rest rest' d d' i Hlen V V') as [-> ->].
  reflexivity.
Qed.

(** ** Assignment to and lookup in a dictionary *)

Lemma replaceProp_keys (k : jsstring) (v : value) (m : obj) :
  map fst (replaceProp k v m) = map fst m.
Proof.
  induction m as [|[k' v'] m IH]; [reflexivity|].
  cbn [replaceProp]. destruct (str_eqb k' k); cbn [map fst]; [reflexivity|].
  now rewrite IH.
Qed.

Lemma replaceProp_In (k : jsstring) (v : value) (m : obj) (p : jsstring * value) :
  In p (replaceProp k v m) -> p = (k, v) \/ In p m.
Proof.
  induction m as [|[k' v'] m IH]; [intros []|].
  cbn [replaceProp]. destruct (str_eqb_spec k' k) as [->|_].
  - intros [<-|H]; [now left | right; now right].
  - intros [<-|H]; [right; now left|].
    destruct (IH H) as [E|E]; [now left | right; now right].
Qed.

Lemma insertIndexed_In (i : Z) (k : jsstring) (v : value) (m : obj)
  (p : jsstring * value) :
  In p (insertIndexed i k v m) <-> p = (k, v) \/ In p m.
Proof.
  induction m as [|[k' v'] m IH]; cbn [insertIndexed].
  - cbn [In]. intuition congruence.
  - destruct (arrayIndex k') as [j|]; [destruct (j <? i)%Z|]; cbn [In];
      rewrite ?IH; intuition congruence.
Qed.

Lemma defineOwn_In (k : jsstring) (v : value) (m : obj) (p : jsstring * value) :
  In p (defineOwn k v m) -> p = (k, v) \/ In p m.
Proof.
  unfold defineOwn.
  destruct (hasOwn k m); [apply replaceProp_In|].
  destruct (arrayIndex k) as [i|].
  - apply insertIndexed_In.
  - intros H. apply in_app_or in H as [H|[<-|[]]]; [now right | now left].
Qed.

Lemma obj_set_In (k : jsstring) (v : value) (m : obj) (p : jsstring * value) :
  In p (obj_set k v m) -> p = (k, v) \/ In p m.
Proof.
  unfold obj_set. destruct (str_eqb k (js "__proto__")); [now right|].
  apply defineOwn_In.
Qed.

Lemma hasOwn_In (k : jsstring) (m : obj) :
  hasOwn k m = true <-> In k (map fst m).
Proof.
  unfold hasOwn. rewrite existsb_exists, in_map_iff. split.
  - intros ([k' v] & Hin & E). apply str_eqb_eq in E. cbn [fst] in E. subst.
    now exists (k, v).
  - intros ([k' v] & E & Hin). cbn [fst] in E. subst.
    exists (k, v). split; [exact Hin | apply str_eqb_refl].
Qed.

Lemma insertIndexed_keys_In (i : Z) (k : jsstring) (v : value) (m : obj)
  (x : jsstring) :
  In x (map fst (insertIndexed i k v m)) <-> x = k \/ In x (map fst m).
Proof.
  rewrite !in_map_iff. split.
  - intros ([k' v'] & <- & H). apply insertIndexed_In in H as [[= -> ->]|H].
    + now left.
    + right. now exists (k', v').
  - intros [->|([k' v'] & <- & H)].
    + exists (k, v). split; [reflexivity|]. apply insertIndexed_In. now left.
    + exists (k', v'). split; [reflexivity|]. apply insertIndexed_In. now right.
Qed.

Lemma insertIndexed_NoDup (i : Z) (k : jsstring) (v : value) (m : obj) :
  ~ In k (map fst m) -> NoDup (map fst m) ->
  NoDup (map fst (insertIndexed i k v m)).
Proof.
  induction m as [|[k' v'] m IH]; intros Hin Hnd; cbn [insertIndexed].
  - repeat constructor. intros [].
  - cbn [map fst] in Hin, Hnd. inversion Hnd as [|? ? Hk' Hm]; subst.
    assert (Hcons : NoDup (map fst ((k, v) :: (k', v') :: m))).
    { cbn [map fst]. constructor; [exact Hin | exact Hnd]. }
    destruct (arrayIndex k') as [j|]; [|exact Hcons].
    destruct (j <? i)%Z; [|exact Hcons].
    cbn [map fst]. constructor.
    + rewrite insertIndexed_keys_In. intros [->|H]; [|contradiction].
      apply Hin. now left.
    + apply IH; [|exact Hm]. intros H. apply Hin. now right.
Qed.

Lemma insertIndexed_sorted (i : Z) (k : jsstring) (v : value) (m : obj) :
  arrayIndex k = Some i -> ~ In k (map fst m) ->
  StronglySorted keyBefore (map fst m) ->
  StronglySorted keyBefore (map fst (insertIndexed i k v m)).
Proof.
  intros Hi. induction m as [|[k' v'] m IH]; intros Hin Hs; cbn [insertIndexed].
  - repeat constructor.
  - cbn [map fst] in Hin, Hs. inversion Hs as [|? ? Hm Hall]; subst.
    assert (Hfront : arrayIndex k' = None
                     \/ (exists j, arrayIndex k' = Some j /\ (i < j)%Z) ->
                     StronglySorted keyBefore (map fst ((k, v) :: (k', v') :: m))).
    { intros Hk'. cbn [map fst]. constructor; [exact Hs|].
      constructor.
      - unfold keyBefore. rewrite Hi.
        destruct Hk' as [->|(j & -> & Hj)]; [exact I | exact Hj].
      - rewrite Forall_forall in Hall |- *. intros x Hx.
        specialize (Hall x Hx). unfold keyBefore in *. rewrite Hi.
        destruct (arrayIndex x) as [l|]; [|exact I].
        destruct Hk' as [E|(j & E & Hj)]; rewrite E in Hall;
          [contradiction | lia]. }
    destruct (arrayIndex k') as [j|] eqn:Ej; [|apply Hfront; now left].
    destruct (Z.ltb_spec j i) as [Hlt|Hge].
    + cbn [map fst]. constructor.
      * apply IH; [|exact Hm]. intros H. apply Hin. now right.
      * rewrite Forall_forall in Hall |- *. intros x Hx.
        apply insertIndexed_keys_In in Hx as [->|Hx]; [|now apply Hall].
        unfold keyBefore. now rewrite Ej, Hi.
    + apply Hfront. right. exists j. split; [reflexivity|].
      assert (j <> i); [|lia].
      intros ->. apply Hin. left. now apply (arrayIndex_inj _ _ i).
Qed.

Lemma StronglySorted_snoc (A : Type) (R : A -> A -> Prop) (l : list A) (x : A) :
  StronglySorted R l -> Forall (fun y => R y x) l ->
  StronglySorted R (l ++ [x]).
Proof.
  induction l as [|a l IH]; intros Hs Hall; cbn [app].
  - repeat constructor.
  - inversion Hs as [|? ? Hl Ha]; subst. inversion Hall as [|? ? Hax Hall']; subst.
    constructor; [now apply IH|].
    apply Forall_app. split; [exact Ha | now constructor].
Qed.

Lemma defineOwn_wellFormed (k : jsstring) (v : value) (m : obj) :
  objWellFormed m -> objWellFormed (defineOwn k v m).
Proof.
  intros [Hnd Hs]. unfold defineOwn.
  destruct (hasOwn k m) eqn:Hown.
  - unfold objWellFormed. rewrite replaceProp_keys. now split.
  - assert (Hin : ~ In k (map fst m)).
    { intros H. apply hasOwn_In in H. congruence. }
    destruct (arrayIndex k) as [i|] eqn:Ei.
    + split; [now apply insertIndexed_NoDup | now apply insertIndexed_sorted].
    + unfold objWellFormed. rewrite map_app. cbn [map fst]. split.
      * apply NoDup_app; [exact Hnd | repeat constructor; intros [] |].
        intros x Hx [<-|[]]. contradiction.
      * apply StronglySorted_snoc; [exact Hs|].
        apply Forall_forall. intros x _. unfold keyBefore. rewrite Ei.
        now destruct (arrayIndex x).
Qed.

Lemma obj_set_wellFormed (k : jsstring) (v : value) (m : obj) :
  objWellFormed m -> objWellFormed (obj_set k v m).
Proof.
  intros H. unfold obj_set.
  destruct (str_eqb k (js "__proto__")); [exact H|].
  now apply defineOwn_wellFormed.
Qed.

Lemma obj_set_nonempty (k : jsstring) (v : value) (m : obj) :
  k <> js "__proto__" -> obj_set k v m <> [].
Proof.
  intros Hk. unfold obj_set, defineOwn. apply str_eqb_neq in Hk. rewrite Hk.
  destruct (hasOwn k m) eqn:Hown.
  - intros E. apply hasOwn_In in Hown.
    rewrite <- (replaceProp_keys k v m), E in Hown. exact Hown.
  - destruct (arrayIndex k) as [i|].
    + intros E. assert (H : In (k, v) (insertIndexed i k v m))
        by (apply insertIndexed_In; now left).
      rewrite E in H. exact H.
    + intros E. now apply app_eq_nil in E as [_ E].
Qed.

Lemma obj_get_replaceProp (k k' : jsstring) (v : value) (m : obj) :
  obj_get k' (replaceProp k v m)
  = if str_eqb k k' && hasOwn k m then v else obj_get k' m.
Proof.
  induction m as [|[x w] m IH]; cbn [replaceProp obj_get].
  - unfold hasOwn. cbn [existsb]. now rewrite andb_false_r.
  - unfold hasOwn in *. cbn [existsb fst].
    destruct (str_eqb_spec x k) as [->|Hx]; cbn [obj_get orb].
    + rewrite andb_true_r. destruct (str_eqb_spec k k') as [->|Hk]; reflexivity.
    + destruct (str_eqb_spec x k') as [->|Hx'].
      * destruct (str_eqb_spec k k') as [->|_]; [congruence | reflexivity].
      * exact IH.
Qed.

Lemma obj_get_absent (k : jsstring) (m : obj) :
  ~ In k (map fst m) -> obj_get k m = VUndefined.
Proof.
  induction m as [|[x w] m IH]; intros H; [reflexivity|].
  cbn [obj_get]. cbn [map fst In] in H.
  destruct (str_eqb_spec x k) as [->|_]; [elim H; now left|].
  apply IH. intros H'. apply H. now right.
Qed.

Lemma obj_get_insertIndexed (i : Z) (k k' : jsstring) (v : value) (m : obj) :
  ~ In k (map fst m) ->
  obj_get k' (insertIndexed i k v m)
  = if str_eqb k k' then v else obj_get k' m.
Proof.
  induction m as [|[x w] m IH]; intros Hin; cbn [insertIndexed].
  - reflexivity.
  - cbn [map fst In] in Hin.
    destruct (arrayIndex x) as [j|]; [destruct (j <? i)%Z|]; try reflexivity.
    cbn [obj_get]. rewrite IH by (intros H; apply Hin; now right).
    destruct (str_eqb_spec x k') as [->|_]; [|reflexivity].
    destruct (str_eqb_spec k k') as [->|_]; [elim Hin; now left | reflexivity].
Qed.

Lemma obj_get_app (k' : jsstring) (m m' : obj) :
  obj_get k' (m ++ m')
  = if hasOwn k' m then obj_get k' m else obj_get k' m'.
Proof.
  induction m as [|[x w] m IH]; [reflexivity|].
  cbn [app obj_get]. unfold hasOwn in *. cbn [existsb fst].
  destruct (str_eqb x k'); [reflexivity | exact IH].
Qed.

(** Reading a key after an assignment: the assigned value under the
    assigned key, the previous value under any other key. *)
Lemma obj_get_set (k k' : jsstring) (v : value) (m : obj) :
  k <> js "__proto__" ->
  obj_get k' (obj_set k v m) = if str_eqb k k' then v else obj_get k' m.
Proof.
  intros Hk. unfold obj_set, defineOwn. apply str_eqb_neq in Hk. rewrite Hk.
  destruct (hasOwn k m) eqn:Hown.
  - rewrite obj_get_replaceProp, Hown. now rewrite andb_true_r.
  - assert (Hin : ~ In k (map fst m)).
    { intros H. apply hasOwn_In in H. congruence. }
    destruct (arrayIndex k) as [i|].
    + now apply obj_get_insertIndexed.
    + rewrite obj_get_app. cbn [obj_get].
      destruct (str_eqb_spec k k') as [->|Hne].
      * rewrite Hown. reflexivity.
      * destruct (hasOwn k' m) eqn:Hown'; [reflexivity|].
        symmetry. apply obj_get_absent. intros H. apply hasOwn_In in H. congruence.
Qed.

(** ** What decoding returns *)

Lemma dropWhile_In (A : Type) (p : A -> bool) (x : A) (l : list A) :
  In x (dropWhile p l) -> In x l.
Proof.
  induction l as [|y l IH]; [intros []|].
  cbn [dropWhile]. destruct (p y); [intros H; right; now apply IH | tauto].
Qed.

Lemma dropWhile_idem (A : Type) (p : A -> bool) (l : list A) :
  dropWhile p (dropWhile p l) = dropWhile p l.
Proof.
  induction l as [|y l IH]; [reflexivity|].
  cbn [dropWhile]. destruct (p y) eqn:E; [exact IH|].
  cbn [dropWhile]. now rewrite E.
Qed.

Lemma dropWhile_suffix (A : Type) (p : A -> bool) (l : list A) :
  exists w, l = w ++ dropWhile p l.
Proof.
  induction l as [|y l [w IH]]; [now exists []|].
  cbn [dropWhile]. destruct (p y).
  - exists (y :: w). cbn [app]. now f_equal.
  - now exists [].
Qed.

Lemma dropWhile_head (A : Type) (p : A -> bool) (l : list A) (x : A)
  (rest : list A) :
  dropWhile p l = x :: rest -> p x = false.
Proof.
  induction l as [|y l IH]; [discriminate|].
  cbn [dropWhile]. destruct (p y) eqn:E; [exact IH|].
  intros [= -> _]. exact E.
Qed.

Lemma trim_In (c : ascii) (s : jsstring) : In c (trim s) -> In c s.
Proof.
  unfold trim, trimEnd, trimStart. intros H.
  apply in_rev, dropWhile_In, in_rev in H. now apply dropWhile_In in H.
Qed.

Lemma trim_idem (s : jsstring) : trim (trim s) = trim s.
Proof.
  unfold trim, trimEnd, trimStart.
  set (a := dropWhile is_ws s).
  set (b := rev (dropWhile is_ws (rev a))).
  assert (Hb : dropWhile is_ws b = b).
  { destruct (dropWhile_suffix _ is_ws (rev a)) as [w Hw].
    assert (Ha : a = b ++ rev w).
    { unfold b. rewrite <- rev_app_distr, <- Hw. now rewrite rev_involutive. }
    destruct b as [|x b']; [reflexivity|].
    cbn [dropWhile]. cbn [app] in Ha.
    unfold a in Ha. apply dropWhile_head in Ha. now rewrite Ha. }
  rewrite Hb. unfold b. now rewrite rev_involutive, dropWhile_idem.
Qed.

Lemma split_lines (s : jsstring) : Forall (fun l => ~ In nl l) (split nl s).
Proof.
  induction s as [|c s IH]; [repeat constructor; intros []|].
  cbn [split]. destruct (Ascii.eqb_spec c nl) as [->|Hc].
  - constructor; [intros [] | exact IH].
  - destruct (split nl s) as [|p ps].
    + repeat constructor. intros [E|[]]. now apply Hc.
    + inversion IH as [|? ? Hp Hps]; subst. constructor; [|exact Hps].
      intros [E|H]; [now apply Hc | contradiction].
Qed.

Lemma cutWhere_parts (p : ascii -> bool) (s k rest : jsstring) :
  cutWhere p s = Some (k, rest) ->
  (exists c, s = k ++ c :: rest /\ p c = true) /\ Forall (fun x => p x = false) k.
Proof.
  revert k. induction s as [|x s IH]; intros k; [discriminate|].
  cbn [cutWhere]. destruct (p x) eqn:E.
  - intros [= <- <-]. split; [now exists x | constructor].
  - destruct (cutWhere p s) as [[l r]|]; [|discriminate].
    intros [= <- <-]. destruct (IH l eq_refl) as [(c & -> & Hc) Hl].
    split; [now exists c | now constructor].
Qed.

Lemma cutAt_parts (c : ascii) (s k rest : jsstring) :
  cutAt c s = Some (k, rest) -> s = k ++ c :: rest /\ ~ In c k.
Proof.
  unfold cutAt. intros H. apply cutWhere_parts in H as [(x & -> & Hx) Hk].
  apply Ascii.eqb_eq in Hx. subst x. split; [reflexivity|].
  intros Hin. rewrite Forall_forall in Hk. specialize (Hk c Hin).
  now rewrite Ascii.eqb_refl in Hk.
Qed.

Lemma normalize_normal (scale : nat) :
  forall m, numNormal (normalize m scale).
Proof.
  induction scale as [|k IH]; intros m; cbn [normalize].
  - now left.
  - destruct (Z.eqb_spec (m mod 10) 0); [apply IH | now right].
Qed.

Lemma negate_normal (n : num) : numNormal n -> numNormal (negate n).
Proof.
  destruct n as [m scale|b]; [|trivial]. cbn [negate numNormal].
  intros [H|H]; [now left | right].
  intros E. apply H. apply Z.mod_divide in E; [|lia].
  apply Z.mod_divide; [lia|]. exact (proj1 (Z.divide_opp_r 10 m) E).
Qed.

Lemma parseUnsignedDecimal_normal (s : jsstring) (n : num) :
  parseUnsignedDecimal s = Some n -> numNormal n.
Proof.
  unfold parseUnsignedDecimal.
  destruct (str_eqb s (js "Infinity")); [now intros [= <-]|].
  destruct (match cutWhere _ s with Some (m, x) => _ | None => _ end)
    as [mant expo].
  destruct (match cutAt "." mant with Some (i, f) => _ | None => _ end)
    as [ipart fpart].
  destruct (ipart ++ fpart); [discriminate|].
  destruct (digitsValue 10 0 ipart); [|discriminate].
  destruct (digitsValue 10 0 fpart); [|discriminate].
  destruct (digitsValue 10 0 _) as [mval|]; [|discriminate].
  destruct (match expo with Some x => _ | None => _ end) as [e|]; [|discriminate].
  cbv zeta.
  destruct (_ <=? e)%Z; intros [= <-]; [now left | apply normalize_normal].
Qed.

Lemma Number_normal (s : jsstring) (n : num) :
  Number s = Some n -> numNormal n.
Proof.
  unfold Number. destruct (trim s) as [|c t]; [intros [= <-]; now left|].
  destruct (prefixedBy "x" "X" (c :: t)) as [h|].
  { destruct (numeral 16 h); [intros [= <-]; now left | discriminate]. }
  destruct (prefixedBy "o" "O" (c :: t)) as [o|].
  { destruct (numeral 8 o); [intros [= <-]; now left | discriminate]. }
  destruct (prefixedBy "b" "B" (c :: t)) as [b|].
  { destruct (numeral 2 b); [intros [= <-]; now left | discriminate]. }
  unfold parseSignedDecimal.
  destruct (Ascii.eqb c "-").
  - destruct (parseUnsignedDecimal t) as [x|] eqn:E; [|discriminate].
    intros [= <-]. apply negate_normal. now apply parseUnsignedDecimal_normal in E.
  - destruct (Ascii.eqb c "+"); apply parseUnsignedDecimal_normal.
Qed.

(** The coercion of a trimmed text on one line is a value the codec
    carries through unchanged. *)
Lemma coerce_valueOk (t : jsstring) :
  trim t = t -> ~ In nl t -> valueOk (coerce t).
Proof.
  intros Ht Hnl. unfold coerce, isNaN.
  destruct (str_eqb_spec t (js "true")) as [_|Htrue]; [exact I|].
  destruct (str_eqb_spec t (js "false")) as [_|Hfalse]; [exact I|].
  destruct (str_eqb_spec t (js "null")) as [_|Hnull]; [exact I|].
  destruct (str_eqb_spec t []) as [_|Hne]; cbn [orb]; [exact I|].
  destruct (Number t) as [n|] eqn:E; cbn [negb andb].
  - now apply Number_normal in E.
  - cbn [valueOk]. unfold plainString. repeat split; assumption.
Qed.

Lemma obj_set_entries (k : jsstring) (v : value) (m : obj) :
  (k <> js "__proto__" -> keyOk k) -> valueOk v ->
  Forall (fun p => keyOk (fst p) /\ valueOk (snd p)) m ->
  Forall (fun p => keyOk (fst p) /\ valueOk (snd p)) (obj_set k v m).
Proof.
  intros Hk Hv Hm. apply Forall_forall. intros p Hp.
  destruct (str_eqb_spec k (js "__proto__")) as [E|E].
  - unfold obj_set in Hp. rewrite E in Hp. cbn [str_eqb js list_ascii_of_string] in Hp.
    rewrite Forall_forall in Hm. apply Hm.
    now rewrite !Ascii.eqb_refl in Hp.
  - apply obj_set_In in Hp as [->|Hp].
    + split; [now apply Hk | exact Hv].
    + rewrite Forall_forall in Hm. now apply Hm.
Qed.

Lemma defineOwn_entries (k : jsstring) (v : value) (m : obj) :
  keyShape k -> valueOk v ->
  Forall (fun p => keyShape (fst p) /\ valueOk (snd p)) m ->
  Forall (fun p => keyShape (fst p) /\ valueOk (snd p)) (defineOwn k v m).
Proof.
  intros Hk Hv Hm. apply Forall_forall. intros p Hp.
  apply defineOwn_In in Hp as [->|Hp]; [now split|].
  rewrite Forall_forall in Hm. now apply Hm.
Qed.

Lemma assignMeta_decodedOk (k : jsstring) (v : value) (m : bool * obj) :
  keyShape k -> valueOk v -> decodedOk (snd m) ->
  decodedOk (snd (assignMeta k v m)).
Proof.
  intros Hk Hv. destruct m as [bare o]. cbn [snd]. intros [Hwf Hm].
  assert (Hown : decodedOk (defineOwn k v o)).
  { split; [now apply defineOwn_wellFormed | now apply defineOwn_entries]. }
  unfold assignMeta, obj_set.
  destruct (str_eqb k (js "__proto__")); [|exact Hown].
  destruct bare; [exact Hown | now split].
Qed.

Lemma parseLine_decodedOk (m : bool * obj) (line : jsstring) :
  ~ In nl line -> decodedOk (snd m) -> decodedOk (snd (parseLine m line)).
Proof.
  intros Hline Hm. unfold parseLine.
  destruct (cutAt ":" line) as [[k v]|] eqn:E; [|exact Hm].
  apply cutAt_parts in E as [-> Hcolon].
  apply assignMeta_decodedOk; [| |exact Hm].
  - unfold keyShape. split; [apply trim_idem|].
    split; [intros H; apply Hcolon; now apply trim_In in H|].
    intros H. apply trim_In in H. apply Hline, in_or_app. now left.
  - apply coerce_valueOk; [apply trim_idem|].
    intros H. apply trim_In in H. apply Hline, in_or_app. right. now right.
Qed.

Lemma fold_parseLine_decodedOk (lines : list jsstring) :
  Forall (fun l => ~ In nl l) lines ->
  forall m, decodedOk (snd m) -> decodedOk (snd (fold_left parseLine lines m)).
Proof.
  induction 1 as [|l lines Hl _ IH]; intros m Hm; [exact Hm|].
  cbn [fold_left]. apply IH. now apply parseLine_decodedOk.
Qed.

Lemma decodedOk_empty : decodedOk [].
Proof. repeat constructor. Qed.

Lemma parseYamlFrontMatter_decodedOk (body : jsstring) :
  decodedOk (meta (parseYamlFrontMatter body)).
Proof.
  unfold parseYamlFrontMatter. destruct body as [|c body]; [apply decodedOk_empty|].
  destruct (matchFrontMatter (c :: body)) as [[yaml rest]|];
    [|apply decodedOk_empty].
  cbn [meta]. unfold parseLines.
  apply fold_parseLine_decodedOk; [apply split_lines | apply decodedOk_empty].
Qed.

(** Decoded metadata without the key [__proto__] is carried through
    unchanged. *)
Lemma decodedOk_metaOk (m : obj) :
  decodedOk m -> ~ In (js "__proto__") (map fst m) -> metaOk m.
Proof.
  intros [Hwf Hm] Hp. split; [exact Hwf|].
  apply Forall_forall. intros p Hin.
  rewrite Forall_forall in Hm. destruct (Hm p Hin) as [(H1 & H2 & H3) Hv].
  split; [|exact Hv]. unfold keyOk. repeat split; try assumption.
  intros E. apply Hp. rewrite <- E. now apply in_map.
Qed.

Lemma parseYamlFrontMatter_metaOk (body : jsstring) :
  ~ In (js "__proto__") (map fst (meta (parseYamlFrontMatter body))) ->
  metaOk (meta (parseYamlFrontMatter body)).
Proof. apply decodedOk_metaOk, parseYamlFrontMatter_decodedOk. Qed.

Lemma parseYamlFrontMatter_trimmed (body : jsstring) :
  meta (parseYamlFrontMatter body) <> [] ->
  trim (description (parseYamlFrontMatter body))
  = description (parseYamlFrontMatter body).
Proof.
  unfold parseYamlFrontMatter. destruct body as [|c body]; [intros H; now elim H|].
  destruct (matchFrontMatter (c :: body)) as [[yaml rest]|];
    [|intros H; now elim H].
  intros _. cbn [description]. apply trim_idem.
Qed.

Lemma valueOk_readBack (v : value) : valueOk v -> readBack v = v.
Proof.
  intros Hv. unfold readBack. destruct (valueOk_text v Hv) as (Ht & _ & Hc).
  now rewrite Ht.
Qed.

Lemma valueOk_oneLine (v : value) : valueOk v -> oneLine v.
Proof. intros Hv. apply (valueOk_text v Hv). Qed.

Lemma map_readBackEntry_id (m : obj) :
  Forall (fun p => keyOk (fst p) /\ valueOk (snd p)) m ->
  map readBackEntry m = m.
Proof.
  induction 1 as [|[k v] m [_ Hv] _ IH]; [reflexivity|].
  cbn [map]. unfold readBackEntry at 1. cbn [fst snd] in *.
  now rewrite (valueOk_readBack v Hv), IH.
Qed.

Lemma decode_encoded_ok (m : obj) (d : jsstring) :
  m <> [] -> metaOk m ->
  Forall (fun k => startsWith delimiter k = false) (tl (map fst m)) ->
  parseYamlFrontMatter (buildYamlFrontMatter m d)
  = {| meta := m; description := trim d |}.
Proof.
  intros Hm [Hwf Hok] Hdelim.
  rewrite decode_encoded; [now rewrite map_readBackEntry_id | exact Hm | exact Hwf
                           | | exact Hdelim].
  eapply Forall_impl; [|exact Hok].
  intros p [Hk Hv]. split; [exact Hk | now apply valueOk_oneLine].
Qed.

(** X1 - Decoding an encoded block, whatever the values.  For every
    metadata map with at least one entry, whose keys are distinct and in
    enumeration order, trimmed, free of colons and line breaks, other than
    [__proto__] and, after the first, not starting with the delimiter, and
    whose values print without a line break, decoding the encoded body
    returns, under each key, the coercion of the trimmed text the value was
    printed as (a list comes back as one string, or as null when it is
    empty), and the description without the white space around it. *)
Theorem encoded_block_reads_back (m : obj) (d : jsstring) :
  m <> [] ->
  objWellFormed m ->
  Forall (fun p => keyOk (fst p) /\ oneLine (snd p)) m ->
  Forall (fun k => startsWith delimiter k = false) (tl (map fst m)) ->
  parseYamlFrontMatter (buildYamlFrontMatter m d)
  = {| meta := map (fun p => (fst p, coerce (trim (valueText (snd p))))) m;
       description := trim d |}.
Proof. exact (decode_encoded m d). Qed.

Lemma encoded_block_reads_back_witness :
  parseYamlFrontMatter
    (buildYamlFrontMatter
       [ (js "tags", VArr [js "api"; js "login"]); (js "labels", VArr []);
         (js "note", VStr (js " 42 ")); (js "my_day", VBool true) ]
       (js "  Fix the login bug "))
  = {| meta :=
         [ (js "tags", VStr (js "api, login")); (js "labels", VNull);
           (js "note", VNum (Dec 42 0)); (js "my_day", VBool true) ];
       description := js "Fix the login bug" |}.
Proof.
  refine (eq_trans (encoded_block_reads_back _ _ _ _ _ _) _).
  - discriminate.
  - split.
    + repeat constructor; cbv; intuition discriminate.
    + repeat constructor.
  - repeat constructor; cbv; intuition discriminate.
  - repeat constructor.
  - vm_compute. reflexivity.
Defined.

(** X2 - What decoding can return.  Whatever the body, the decoded
    metadata is a map with distinct keys in enumeration order; every key
    is trimmed and free of colons and line breaks; every value is a
    boolean, null, a number in normal form or a plain string, never a
    list; and when the map is not empty the description has no white
    space around it.  The key [__proto__] can be among the keys: a line
    that gives it the value null removes the prototype of the map, and a
    later line under that key is stored like any other. *)
Theorem decoded_metadata_is_well_formed (body : jsstring) :
  let fm := parseYamlFrontMatter body in
  objWellFormed (meta fm)
  /\ Forall (fun p => keyShape (fst p) /\ valueOk (snd p)) (meta fm)
  /\ (meta fm <> [] -> trim (description fm) = description fm)
  /\ meta (parseYamlFrontMatter protoBody) = [(js "__proto__", VNum (Dec 5 0))].
Proof.
  cbv zeta. destruct (parseYamlFrontMatter_decodedOk body) as [Hwf Hok].
  split; [exact Hwf|]. split; [exact Hok|].
  split; [apply parseYamlFrontMatter_trimmed | vm_compute; reflexivity].
Qed.

(** X3 - Encoding what was decoded is stable.  For every body whose
    decoded metadata is not empty, has no key [__proto__] and has no key,
    after the first, that starts with the delimiter, encoding the decoded
    metadata and description and decoding again returns the same metadata
    and the same description. *)
Theorem reencoding_is_stable (body : jsstring) :
  let fm := parseYamlFrontMatter body in
  meta fm <> [] ->
  ~ In (js "__proto__") (map fst (meta fm)) ->
  Forall (fun k => startsWith delimiter k = false) (tl (map fst (meta fm))) ->
  parseYamlFrontMatter (buildYamlFrontMatter (meta fm) (description fm)) = fm.
Proof.
  cbv zeta. intros Hne Hproto Hdelim.
  rewrite decode_encoded_ok;
    [|exact Hne | now apply parseYamlFrontMatter_metaOk | exact Hdelim].
  rewrite parseYamlFrontMatter_trimmed by exact Hne.
  now destruct (parseYamlFrontMatter body).
Qed.

Lemma reencoding_is_stable_witness :
  parseYamlFrontMatter
    (buildYamlFrontMatter (meta (parseYamlFrontMatter handWrittenBody))
       (description (parseYamlFrontMatter handWrittenBody)))
  = {| meta :=
         [ (js "7", VNum (Dec 16 0)); (js "due_date", VStr (js "2026-02-10"));
           (js "note", VStr (js "see: the wiki")); (js "my_day", VBool true) ];
       description := js "Ship it" |}.
Proof.
  refine (eq_trans (reencoding_is_stable handWrittenBody _ _ _) _).
  - vm_compute. discriminate.
  - vm_compute. intuition discriminate.
  - vm_compute. repeat constructor.
  - vm_compute. reflexivity.
Defined.

(** A decoded key [__proto__] does not survive the encoding: the encoded
    line is read on a map that has its prototype, where the assignment
    stores nothing. *)
Lemma reencoding_loses_proto_key :
  let fm := parseYamlFrontMatter protoBody in
  fm = {| meta := [(js "__proto__", VNum (Dec 5 0))]; description := js "x" |}
  /\ parseYamlFrontMatter (buildYamlFrontMatter (meta fm) (description fm))
     = {| meta := []; description := js "x" |}.
Proof. split; vm_compute; reflexivity. Qed.

(** ** Creating a task *)

Lemma createTask_result (s : Store.t) (title : jsstring) (o : Options.t)
  (a : Assigned.t) (names : list jsstring) (ms : option (Z * jsstring)) :
  allSome (Payload.labels (createPayload title o)) = Some names ->
  match Payload.milestone (createPayload title o) with
  | None | Some None => Some None
  | Some (Some k) =>
      option_map (fun t => Some (k, t)) (lookup_Z k (Store.milestones s))
  end = Some ms ->
  requestOk s (createPayload title o) = true ->
  createTask s title o a
  = Some (withIssues s (newIssue (createPayload title o) names ms a
                          :: Store.issues s),
          issueToTask (restView a (newIssue (createPayload title o) names ms a))).
Proof.
  intros Hl Hm Hok. unfold createTask, ghApiPostIssue. now rewrite Hl, Hm, Hok.
Qed.

(** The tracker accepts the title and the assignee of the request
    [createTask] sends exactly when the title is not blank and the
    assignee, if one is given, can be assigned. *)
Lemma requestOk_create (s : Store.t) (title : jsstring) (o : Options.t) :
  requestOk s (createPayload title o) = true <->
  trim title <> []
  /\ (forall login, whenTruthy (Options.assignee o) = Some login ->
                    In login (Store.assignable s)).
Proof.
  unfold requestOk. cbn [createPayload Payload.title Payload.assignees].
  rewrite andb_true_iff, negb_true_iff.
  assert (Ht : str_eqb (trim title) [] = false <-> trim title <> []).
  { destruct (str_eqb_spec (trim title) []); split; congruence. }
  rewrite Ht.
  destruct (whenTruthy (Options.assignee o)) as [login|].
  - cbn [forallb]. rewrite andb_true_r. unfold includes.
    split; intros [H1 H2]; (split; [exact H1|]).
    + intros x [= <-]. apply existsb_exists in H2 as (y & Hy & E).
      apply str_eqb_eq in E. now subst.
    + apply existsb_exists. exists login.
      split; [now apply H2 | apply str_eqb_refl].
  - split; intros [H1 _]; (split; [exact H1|]); [discriminate | reflexivity].
Qed.

Lemma createTask_rejected (s : Store.t) (title : jsstring) (o : Options.t)
  (a : Assigned.t) :
  requestOk s (createPayload title o) = false -> createTask s title o a = None.
Proof.
  intros Hok. unfold createTask, ghApiPostIssue. rewrite Hok.
  destruct (allSome _); [|reflexivity].
  now destruct (match Payload.milestone _ with
                | None | Some None => _
                | Some (Some k) => _
                end).
Qed.

(** The REST view and the gh view of a new issue convert to the same
    task. *)
Lemma issueToTask_restView (a : Assigned.t) (p : Payload.t)
  (names : list jsstring) (ms : option (Z * jsstring)) :
  Assigned.link a <> [] ->
  issueToTask (restView a (newIssue p names ms a))
  = issueToTask (newIssue p names ms a).
Proof.
  intros Hlink. unfold issueToTask.
  cbn [restView newIssue Issue.number Issue.title Issue.body Issue.state
       Issue.labels Issue.assignees Issue.assignee Issue.milestone
       Issue.createdAt Issue.created_at Issue.updatedAt Issue.updated_at
       Issue.html_url Issue.url].
  destruct (Assigned.link a) as [|c l]; [now elim Hlink|].
  destruct (Assigned.stamp a) as [|c' l'];
    destruct (match Payload.assignees p with Some l0 => l0 | None => [] end)
      as [|[|x login] rest];
    reflexivity.
Qed.

Lemma known_status (st : jsstring) :
  In st (map fst STATUS_LABELS) ->
  exists label,
    entryOf st STATUS_LABELS = Some (Some label) /\ label <> []
    /\ In (st, label) STATUS_LABELS /\ startsWith (js "tp:") label = true.
Proof.
  cbn [STATUS_LABELS map fst In].
  intros [<-|[<-|[<-|[<-|[]]]]]; eexists;
    (split; [reflexivity|]); (split; [discriminate|]);
    (split; [cbn [STATUS_LABELS In]; tauto | reflexivity]).
Qed.

Lemma known_priority (pr : jsstring) :
  In pr (map fst PRIORITY_LABELS) ->
  exists label,
    entryOf pr PRIORITY_LABELS = Some (Some label) /\ label <> []
    /\ In (pr, label) PRIORITY_LABELS /\ startsWith (js "tp:") label = true.
Proof.
  cbn [PRIORITY_LABELS map fst In].
  intros [<-|[<-|[<-|[<-|[]]]]]; eexists;
    (split; [reflexivity|]); (split; [discriminate|]);
    (split; [cbn [PRIORITY_LABELS In]; tauto | reflexivity]).
Qed.

Lemma status_labels_apart (k l : jsstring) :
  In (k, l) STATUS_LABELS -> ~ In l (map snd PRIORITY_LABELS).
Proof.
  cbn [STATUS_LABELS In]. intros [E|[E|[E|[E|[]]]]]; injection E as <- <-;
    cbv; intuition discriminate.
Qed.

Lemma priority_labels_apart (k l : jsstring) :
  In (k, l) PRIORITY_LABELS -> ~ In l (map snd STATUS_LABELS).
Proof.
  cbn [PRIORITY_LABELS In]. intros [E|[E|[E|[E|[]]]]]; injection E as <- <-;
    cbv; intuition discriminate.
Qed.

Lemma STATUS_LABELS_inj (k k' l : jsstring) :
  In (k, l) STATUS_LABELS -> In (k', l) STATUS_LABELS -> k = k'.
Proof.
  unfold STATUS_LABELS, js. cbn [list_ascii_of_string In].
  intros [E|[E|[E|[E|[]]]]] [E'|[E'|[E'|[E'|[]]]]]; congruence.
Qed.

Lemma PRIORITY_LABELS_inj (k k' l : jsstring) :
  In (k, l) PRIORITY_LABELS -> In (k', l) PRIORITY_LABELS -> k = k'.
Proof.
  unfold PRIORITY_LABELS, js. cbn [list_ascii_of_string In].
  intros [E|[E|[E|[E|[]]]]] [E'|[E'|[E'|[E'|[]]]]]; congruence.
Qed.

(** The status read from a list of names that holds exactly one status
    label. *)
Lemma status_of_single_label (names : list jsstring) (st label : jsstring) :
  In (st, label) STATUS_LABELS -> In label names ->
  (forall n, In n names -> In n (map snd STATUS_LABELS) -> n = label) ->
  getStatusFromLabels (map LabelObject names) = st.
Proof.
  intros Hin Hl Honly. unfold getStatusFromLabels.
  rewrite map_map. cbn [labelName]. rewrite map_id.
  rewrite (firstIncluded_only STATUS_LABELS names st label);
    [reflexivity | apply STATUS_LABELS_keys_NoDup | exact Hin | exact Hl |].
  intros k l Hk Hne Hn. apply Hne.
  assert (l = label).
  { apply Honly; [exact Hn|]. change l with (snd (k, l)). now apply in_map. }
  subst l. now apply (STATUS_LABELS_inj k st label).
Qed.

Lemma priority_of_single_label (names : list jsstring) (pr label : jsstring) :
  In (pr, label) PRIORITY_LABELS -> In label names ->
  (forall n, In n names -> In n (map snd PRIORITY_LABELS) -> n = label) ->
  getPriorityFromLabels (map LabelObject names) = pr.
Proof.
  intros Hin Hl Honly. unfold getPriorityFromLabels.
  rewrite map_map. cbn [labelName]. rewrite map_id.
  rewrite (firstIncluded_only PRIORITY_LABELS names pr label);
    [reflexivity | apply PRIORITY_LABELS_keys_NoDup | exact Hin | exact Hl |].
  intros k l Hk Hne Hn. apply Hne.
  assert (l = label).
  { apply Honly; [exact Hn|]. change l with (snd (k, l)). now apply in_map. }
  subst l. now apply (PRIORITY_LABELS_inj k pr label).
Qed.

Lemma issueToTask_labels (i : Issue.t) (names : list jsstring) :
  Issue.labels i = map LabelObject names ->
  Task.status (issueToTask i) = getStatusFromLabels (map LabelObject names)
  /\ Task.priority (issueToTask i)
     = VStr (getPriorityFromLabels (map LabelObject names))
  /\ Task.labels (issueToTask i) = getUserLabels (map LabelObject names).
Proof.
  intros E. unfold issueToTask.
  cbn [Task.status Task.priority Task.labels]. rewrite E, map_map.
  cbn [labelName]. change (fun x : jsstring => LabelObject x) with LabelObject.
  split; [reflexivity|]. split; [|reflexivity].
  unfold js_or.
  assert (H : truthy (VStr (getPriorityFromLabels (map LabelObject names))) = true).
  { unfold getPriorityFromLabels.
    destruct (firstIncluded PRIORITY_LABELS _) as [k|] eqn:F; [|reflexivity].
    apply firstIncluded_key in F. cbn [PRIORITY_LABELS map fst In] in F.
    destruct F as [<-|[<-|[<-|[<-|[]]]]]; reflexivity. }
  now rewrite H.
Qed.

(** The first open issue of the store with a label in the reserved name
    space is in the default listing. *)
Lemma listTasks_first_issue lc (s : Store.t) (i : Issue.t) (rest : list Issue.t)
  (tasks : list Task.t) :
  Store.issues s = i :: rest ->
  Issue.state i = js "open" -> hasTpLabel i = true ->
  listTasks lc s Filters.none = Some tasks -> In (issueToTask i) tasks.
Proof.
  intros Hs Hopen Htp H. unfold listTasks in H.
  cbn [Filters.none Filters.status Filters.priority Filters.assignee
       Filters.sprint_id Filters.include_done isDone whenTruthy orElse app] in H.
  unfold ghIssueList in H. rewrite tasksFromIssues_ghJson in H.
  apply tasksFromIssues_perm in H.
  apply (Permutation_in _ (Permutation_sym H)).
  cbn [Filters.my_day negb orb]. apply filter_In. split; [|reflexivity].
  apply in_map. apply filter_In. split; [|exact Htp].
  rewrite Hs. cbn [filter forallb andb].
  unfold stateMatches. rewrite Hopen. cbn. now left.
Qed.

Lemma createPayload_labels (title : jsstring) (o : Options.t) (l1 l2 : jsstring) :
  entryOf (textOr (js "todo") (Options.status o)) STATUS_LABELS = Some (Some l1) ->
  entryOf (textOr (js "medium") (Options.priority o)) PRIORITY_LABELS
  = Some (Some l2) ->
  l1 <> [] -> l2 <> [] ->
  allSome (Payload.labels (createPayload title o)) = Some [l1; l2].
Proof.
  intros E1 E2 H1 H2. cbn [createPayload Payload.labels].
  rewrite E1, E2. destruct l1; [now elim H1|]. destruct l2; [now elim H2|].
  reflexivity.
Qed.

Lemma storedIssue_new (s : Store.t) (i : Issue.t) :
  storedIssue (withIssues s (i :: Store.issues s)) (Issue.number i) = Some i.
Proof.
  unfold storedIssue. cbn [withIssues Store.issues find].
  now rewrite Z.eqb_refl.
Qed.

Lemma storedIssue_old (s : Store.t) (i : Issue.t) (n : Z) :
  n <> Issue.number i ->
  storedIssue (withIssues s (i :: Store.issues s)) n = storedIssue s n.
Proof.
  intros Hn. unfold storedIssue. cbn [withIssues Store.issues find].
  destruct (Z.eqb_spec (Issue.number i) n); [congruence | reflexivity].
Qed.

Lemma getTask_new (s : Store.t) (i : Issue.t) :
  getTask (withIssues s (i :: Store.issues s)) (Issue.number i)
  = Some (issueToTask i).
Proof. unfold getTask, ghIssueView. now rewrite storedIssue_new. Qed.

Lemma createTask_with_known_names lc (s : Store.t) (title : jsstring) (o : Options.t)
  (a : Assigned.t) :
  let st := textOr (js "todo") (Options.status o) in
  let pr := textOr (js "medium") (Options.priority o) in
  In st (map fst STATUS_LABELS) ->
  In pr (map fst PRIORITY_LABELS) ->
  (forall n, Options.sprint_id o = Some n -> n <> 0%Z ->
             lookup_Z n (Store.milestones s) <> None) ->
  Assigned.link a <> [] ->
  trim title <> [] ->
  (forall login, whenTruthy (Options.assignee o) = Some login ->
                 In login (Store.assignable s)) ->
  exists s' t,
    createTask s title o a = Some (s', t)
    /\ Task.id t = Assigned.number a
    /\ Task.title t = title
    /\ Task.status t = st
    /\ Task.priority t = VStr pr
    /\ Task.labels t = []
    /\ Task.assignee t = whenTruthy (Options.assignee o)
    /\ Task.sprint_id t
       = match Options.sprint_id o with
         | Some n => if (n =? 0)%Z then None else Some n
         | None => None
         end
    /\ getTask s' (Assigned.number a) = Some t
    /\ option_map Issue.state (storedIssue s' (Assigned.number a))
       = Some (js "open")
    /\ (forall n, n <> Assigned.number a -> storedIssue s' n = storedIssue s n)
    /\ (forall tasks, listTasks lc s' Filters.none = Some tasks -> In t tasks).
Proof.
  intros st pr Hst Hpr Hsprint Hlink Htitle Hlogin.
  destruct (known_status st Hst) as (l1 & E1 & N1 & I1 & P1).
  destruct (known_priority pr Hpr) as (l2 & E2 & N2 & I2 & P2).
  assert (Hms : exists ms,
             match Payload.milestone (createPayload title o) with
             | None | Some None => Some None
             | Some (Some k) =>
                 option_map (fun t => Some (k, t)) (lookup_Z k (Store.milestones s))
             end = Some ms
             /\ match ms with
                | Some (n, _) => if (n =? 0)%Z then None else Some n
                | None => None
                end
                = match Options.sprint_id o with
                  | Some n => if (n =? 0)%Z then None else Some n
                  | None => None
                  end).
  { cbn [createPayload Payload.milestone].
    destruct (Options.sprint_id o) as [n|] eqn:En; [|now exists None].
    destruct (Z.eqb_spec n 0) as [->|Hn]; [now exists None|].
    destruct (lookup_Z n (Store.milestones s)) as [t|] eqn:El;
      [|now elim (Hsprint n eq_refl Hn)].
    exists (Some (n, t)). split; [reflexivity|].
    apply Z.eqb_neq in Hn. now rewrite Hn. }
  destruct Hms as (ms & Hms & Hsid).
  pose proof (createPayload_labels title o l1 l2 E1 E2 N1 N2) as Hl.
  assert (Hok : requestOk s (createPayload title o) = true)
    by (apply requestOk_create; now split).
  set (i := newIssue (createPayload title o) [l1; l2] ms a).
  assert (Hlabels : Issue.labels i = map LabelObject [l1; l2]) by reflexivity.
  destruct (issueToTask_labels i [l1; l2] Hlabels) as (Hs & Hp & Hu).
  exists (withIssues s (i :: Store.issues s)), (issueToTask i).
  split.
  { rewrite (createTask_result s title o a [l1; l2] ms Hl Hms Hok).
    now rewrite (issueToTask_restView a _ _ _ Hlink). }
  split; [reflexivity|]. split; [reflexivity|].
  split.
  { rewrite Hs. apply (status_of_single_label _ st l1 I1); [now left|].
    intros n [<-|[<-|[]]] Hn; [reflexivity|].
    now elim (priority_labels_apart pr l2 I2). }
  split.
  { rewrite Hp. f_equal. apply (priority_of_single_label _ pr l2 I2);
      [right; now left|].
    intros n [<-|[<-|[]]] Hn; [|reflexivity].
    now elim (status_labels_apart st l1 I1). }
  split.
  { rewrite Hu. unfold getUserLabels. cbn [map labelName filter].
    now rewrite P1, P2. }
  split.
  { unfold issueToTask. cbn [Task.assignee i newIssue Issue.assignees
                              Issue.assignee createPayload Payload.assignees].
    destruct (Options.assignee o) as [[|c login]|]; reflexivity. }
  split.
  { unfold issueToTask. cbn [Task.sprint_id i newIssue Issue.milestone].
    exact Hsid. }
  split.
  { change (Assigned.number a) with (Issue.number i). apply getTask_new. }
  split.
  { change (Assigned.number a) with (Issue.number i).
    now rewrite (storedIssue_new s i). }
  split.
  { intros n Hn. now apply storedIssue_old. }
  intros tasks Hlist.
  apply (listTasks_first_issue lc (withIssues s (i :: Store.issues s)) i
           (Store.issues s) tasks);
    [reflexivity | reflexivity | | exact Hlist].
  unfold hasTpLabel. rewrite Hlabels. cbn [map existsb]. now rewrite P1.
Qed.

(** X4 - Create, then read.  With a status and a priority among the four
    names each (or left to their defaults), a sprint that exists (or none)
    and a browser link that is not empty: when the title is not blank and
    the assignee, if one is given, can be assigned in the repository,
    [createTask] succeeds; the returned task has the number the tracker
    assigned, the title, the status and the priority that were asked for,
    no user labels, and the assignee and sprint that were given; the
    stored record is open, every other record is untouched, [getTask] on
    the new number returns the same task, and the default listing,
    whenever it returns, contains it.  When the title is blank or the
    assignee cannot be assigned, the tracker rejects the request and
    [createTask] throws. *)
Theorem create_then_get lc (s : Store.t) (title : jsstring) (o : Options.t)
  (a : Assigned.t) :
  let st := textOr (js "todo") (Options.status o) in
  let pr := textOr (js "medium") (Options.priority o) in
  In st (map fst STATUS_LABELS) ->
  In pr (map fst PRIORITY_LABELS) ->
  (forall n, Options.sprint_id o = Some n -> n <> 0%Z ->
             lookup_Z n (Store.milestones s) <> None) ->
  Assigned.link a <> [] ->
  (trim title <> [] ->
   (forall login, whenTruthy (Options.assignee o) = Some login ->
                  In login (Store.assignable s)) ->
   exists s' t,
     createTask s title o a = Some (s', t)
     /\ Task.id t = Assigned.number a
     /\ Task.title t = title
     /\ Task.status t = st
     /\ Task.priority t = VStr pr
     /\ Task.labels t = []
     /\ Task.assignee t = whenTruthy (Options.assignee o)
     /\ Task.sprint_id t
        = match Options.sprint_id o with
          | Some n => if (n =? 0)%Z then None else Some n
          | None => None
          end
     /\ getTask s' (Assigned.number a) = Some t
     /\ option_map Issue.state (storedIssue s' (Assigned.number a))
        = Some (js "open")
     /\ (forall n, n <> Assigned.number a -> storedIssue s' n = storedIssue s n)
     /\ (forall tasks, listTasks lc s' Filters.none = Some tasks -> In t tasks))
  /\ (trim title = []
      \/ (exists login, whenTruthy (Options.assignee o) = Some login
                        /\ ~ In login (Store.assignable s)) ->
      createTask s title o a = None).
Proof.
  intros st pr Hst Hpr Hsprint Hlink. split.
  - intros Htitle Hlogin.
    exact (createTask_with_known_names lc s title o a Hst Hpr Hsprint Hlink
             Htitle Hlogin).
  - intros Hbad. apply createTask_rejected.
    destruct (requestOk s (createPayload title o)) eqn:E; [|reflexivity].
    apply requestOk_create in E as [Htitle Hlogin].
    destruct Hbad as [Hblank|(login & Hl & Hno)]; [contradiction|].
    elim Hno. now apply Hlogin.
Qed.

Lemma create_then_get_witness :
  exists s' t,
    createTask (sampleStore [lateIssue]) (js "Write the report")
      urgentInProgress firstAssigned = Some (s', t)
    /\ Task.id t = 7%Z
    /\ Task.status t = js "in-progress"
    /\ Task.priority t = VStr (js "urgent")
    /\ Task.assignee t = Some (js "octocat")
    /\ getTask s' 7 = Some t.
Proof.
  destruct (create_then_get codeUnitCompare (sampleStore [lateIssue])
              (js "Write the report") urgentInProgress firstAssigned)
    as (H & _).
  - cbn. tauto.
  - cbn. tauto.
  - intros n H. discriminate.
  - discriminate.
  - destruct H as (s' & t & Hc & Hid & _ & Hst & Hpr & _ & Has & _ & Hget & _).
    + discriminate.
    + intros login [= <-]. now left.
    + exists s', t. repeat split; assumption.
Defined.

Lemma createMeta_decodes (o : Options.t) (d : jsstring) :
  oneLine (VStr (textOr (js "medium") (Options.priority o))) ->
  oneLine (withDefault VNull (Options.due_date o)) ->
  oneLine (withDefault (VNum (Dec 0 0)) (Options.estimated_hours o)) ->
  oneLine (withDefault (VArr []) (Options.tags o)) ->
  oneLine (withDefault (VBool false) (Options.my_day o)) ->
  oneLine (withDefault VNull (Options.parent_task o)) ->
  parseYamlFrontMatter (buildYamlFrontMatter (createMeta o) d)
  = {| meta := map readBackEntry (createMeta o); description := trim d |}.
Proof.
  intros H1 H2 H3 H4 H5 H6. apply decode_encoded.
  - discriminate.
  - unfold createMeta. split; cbn [map fst].
    + repeat constructor; cbv; intuition discriminate.
    + repeat constructor.
  - unfold createMeta.
    repeat (constructor; [split; [cbv; intuition discriminate | cbn [snd]]|]);
      try assumption; try constructor.
    cbv. intuition discriminate.
  - unfold createMeta. cbn [map fst tl]. repeat constructor.
Qed.

Lemma createTask_task (s : Store.t) (title : jsstring) (o : Options.t)
  (a : Assigned.t) (s' : Store.t) (t : Task.t) :
  createTask s title o a = Some (s', t) ->
  exists names ms,
    s' = withIssues s (newIssue (createPayload title o) names ms a :: Store.issues s)
    /\ t = issueToTask (restView a (newIssue (createPayload title o) names ms a))
    /\ allSome (Payload.labels (createPayload title o)) = Some names
    /\ match Payload.milestone (createPayload title o) with
       | None | Some None => Some None
       | Some (Some k) =>
           option_map (fun t => Some (k, t)) (lookup_Z k (Store.milestones s))
       end = Some ms
    /\ requestOk s (createPayload title o) = true.
Proof.
  unfold createTask, ghApiPostIssue.
  destruct (allSome _) as [names|]; [|discriminate].
  destruct (match Payload.milestone _ with
            | None | Some None => _
            | Some (Some k) => _
            end) as [ms|] eqn:E; [|discriminate].
  destruct (requestOk s _) eqn:Hok; [|discriminate].
  intros [= <- <-]. now exists names, ms.
Qed.

(** X5 - The metadata of a created task.  Whenever [createTask] returns,
    for options whose priority, due date, My Day flag, estimate, parent
    and tags each print on one line: the due date, the flag, the estimate,
    the parent and the tags of the returned task are each what the printed
    text of the given value reads back as, that is the coercion of its
    trimmed text, or the default of the field when that is falsy; the
    hours spent are zero and the description is the given one without the
    white space around it.  A boolean, null, a number or a plain string
    reads back as itself; a text such as 20260301 reads back as a number,
    and a list of tags as its joined text. *)
Theorem create_keeps_metadata (s : Store.t) (title : jsstring) (o : Options.t)
  (a : Assigned.t) (s' : Store.t) (t : Task.t) :
  oneLine (VStr (textOr (js "medium") (Options.priority o))) ->
  oneLine (withDefault VNull (Options.due_date o)) ->
  oneLine (withDefault (VBool false) (Options.my_day o)) ->
  oneLine (withDefault (VNum (Dec 0 0)) (Options.estimated_hours o)) ->
  oneLine (withDefault VNull (Options.parent_task o)) ->
  oneLine (withDefault (VArr []) (Options.tags o)) ->
  createTask s title o a = Some (s', t) ->
  Task.due_date t = js_or (readBack (withDefault VNull (Options.due_date o))) VNull
  /\ Task.my_day t
     = js_or (readBack (withDefault (VBool false) (Options.my_day o)))
         (VBool false)
  /\ Task.estimated_hours t
     = js_or (readBack (withDefault (VNum (Dec 0 0)) (Options.estimated_hours o)))
         (VNum (Dec 0 0))
  /\ Task.actual_hours t = VNum (Dec 0 0)
  /\ Task.parent_task t
     = js_or (readBack (withDefault VNull (Options.parent_task o))) VNull
  /\ Task.tags t
     = js_or (readBack (withDefault (VArr []) (Options.tags o))) (VArr [])
  /\ Task.body t = trim (textOr [] (Options.description o))
  /\ (forall v, valueOk v -> readBack v = v)
  /\ readBack (VStr (js "20260301")) = VNum (Dec 20260301 0)
  /\ readBack (VArr [js "api"; js "login"]) = VStr (js "api, login").
Proof.
  intros Hpr Hdue Hmy Hest Hparent Htags Hc.
  apply createTask_task in Hc as (names & ms & _ & -> & _).
  unfold issueToTask.
  cbn [restView newIssue Issue.body orEmpty createPayload Payload.body
       Task.due_date Task.my_day Task.estimated_hours Task.actual_hours
       Task.parent_task Task.tags Task.body].
  rewrite createMeta_decodes by assumption.
  unfold createMeta, readBackEntry.
  cbn [meta description map fst snd].
  cbn [obj_get str_eqb js list_ascii_of_string Ascii.eqb Bool.eqb andb].
  repeat (split; [reflexivity|]).
  split; [exact valueOk_readBack|].
  split; vm_compute; reflexivity.
Qed.

Lemma create_keeps_metadata_witness :
  exists s' t,
    createTask (sampleStore []) (js "Write the report") urgentInProgress
      firstAssigned = Some (s', t)
    /\ Task.due_date t = VStr (js "2026-02-10")
    /\ Task.my_day t = VBool true
    /\ Task.estimated_hours t = VNum (Dec 25 1)
    /\ Task.body t = js "Quarterly numbers".
Proof.
  destruct (createTask (sampleStore []) (js "Write the report") urgentInProgress
              firstAssigned) as [[s' t]|] eqn:E; [|vm_compute in E; discriminate].
  exists s', t. split; [reflexivity|].
  destruct (create_keeps_metadata (sampleStore []) (js "Write the report")
              urgentInProgress firstAssigned s' t)
    as (Hdue & Hmy & Hest & _ & _ & _ & Hbody & _).
  - cbv. intuition discriminate.
  - cbv. intuition discriminate.
  - cbv. intuition discriminate.
  - cbv. intuition discriminate.
  - cbv. intuition discriminate.
  - cbv. tauto.
  - exact E.
  - rewrite Hdue, Hmy, Hest, Hbody. repeat split.
Defined.

Lemma storedIssue_None (s : Store.t) (n : Z) (i : Issue.t) :
  storedIssue s n = None -> In i (Store.issues s) -> Issue.number i <> n.
Proof.
  unfold storedIssue. intros H Hin E.
  apply (find_none _ _ H) in Hin. apply Z.eqb_neq in Hin. contradiction.
Qed.

(** Where a listed task comes from: a stored record with a label object
    in the reserved name space, in the state the listing asked for, and
    carrying the label of every name the filters gave. *)
Lemma listTasks_source lc (s : Store.t) (f : Filters.t) (tasks : list Task.t)
  (t : Task.t) :
  listTasks lc s f = Some tasks -> In t tasks ->
  exists i,
    In i (Store.issues s) /\ hasTpLabel i = true /\ t = issueToTask i
    /\ (isDone (Filters.status f) = true -> Issue.state i = js "closed")
    /\ (isDone (Filters.status f) = false -> Filters.include_done f = false ->
        Issue.state i = js "open")
    /\ (forall x, whenTruthy (Filters.status f) = Some x -> x <> js "done" ->
        hasLabelNamed (argument x STATUS_LABELS) i = true)
    /\ (forall x, whenTruthy (Filters.priority f) = Some x ->
        hasLabelNamed (argument x PRIORITY_LABELS) i = true).
Proof.
  unfold listTasks, ghIssueList. intros H Ht.
  rewrite tasksFromIssues_ghJson in H. apply tasksFromIssues_perm in H.
  apply (Permutation_in _ H) in Ht. apply filter_In in Ht as [Ht _].
  apply in_map_iff in Ht as (i & <- & Hi). apply filter_In in Hi as [Hi Htp].
  apply In_firstn in Hi.
  apply filter_In in Hi as [Hi Hc].
  apply andb_prop in Hc as [Hc _]. apply andb_prop in Hc as [Hc _].
  apply andb_prop in Hc as [Hstate Hlabels].
  rewrite forallb_forall in Hlabels.
  exists i. split; [exact Hi|]. split; [exact Htp|]. split; [reflexivity|].
  split; [|split; [|split]].
  - intros Hd. rewrite Hd in Hstate. unfold stateMatches in Hstate.
    cbn [str_eqb js list_ascii_of_string Ascii.eqb Bool.eqb andb orb] in Hstate.
    now apply str_eqb_eq in Hstate.
  - intros Hd Hinc. rewrite Hd, Hinc in Hstate. unfold stateMatches in Hstate.
    cbn [str_eqb js list_ascii_of_string Ascii.eqb Bool.eqb andb orb] in Hstate.
    now apply str_eqb_eq in Hstate.
  - intros x Hx Hnd. apply Hlabels. apply in_or_app. left. rewrite Hx.
    apply str_eqb_neq in Hnd. rewrite Hnd. now left.
  - intros x Hx. apply Hlabels. apply in_or_app. right. rewrite Hx. now left.
Qed.

(** X6 - A task created under unknown names is listed nowhere.  When
    neither the status nor the priority given to [createTask] is a name of
    the tables or a name every object inherits, no sprint is given, the
    title is not blank, the assignee, if one is given, can be assigned,
    and the number the tracker assigns is new, the request carries no
    label: the task is created, is returned as a [todo] task of [medium]
    priority and can be read by its number, and no listing, under any
    filters, ever contains it. *)
Theorem create_with_unknown_names_is_unlisted lc (s : Store.t)
  (title : jsstring) (o : Options.t) (a : Assigned.t) :
  entryOf (textOr (js "todo") (Options.status o)) STATUS_LABELS = None ->
  entryOf (textOr (js "medium") (Options.priority o)) PRIORITY_LABELS = None ->
  Options.sprint_id o = None ->
  trim title <> [] ->
  (forall login, whenTruthy (Options.assignee o) = Some login ->
                 In login (Store.assignable s)) ->
  storedIssue s (Assigned.number a) = None ->
  exists s' t,
    createTask s title o a = Some (s', t)
    /\ Task.id t = Assigned.number a
    /\ Task.status t = js "todo"
    /\ Task.priority t = VStr (js "medium")
    /\ option_map Task.id (getTask s' (Assigned.number a))
       = Some (Assigned.number a)
    /\ (forall f tasks, listTasks lc s' f = Some tasks ->
                        ~ In (Assigned.number a) (map Task.id tasks)).
Proof.
  intros E1 E2 Hsprint Htitle Hlogin Hfresh.
  assert (Hl : allSome (Payload.labels (createPayload title o)) = Some []).
  { cbn [createPayload Payload.labels]. now rewrite E1, E2. }
  assert (Hms : match Payload.milestone (createPayload title o) with
                | None | Some None => Some None
                | Some (Some k) =>
                    option_map (fun t => Some (k, t))
                      (lookup_Z k (Store.milestones s))
                end = Some None).
  { cbn [createPayload Payload.milestone]. now rewrite Hsprint. }
  assert (Hok : requestOk s (createPayload title o) = true)
    by (apply requestOk_create; now split).
  set (i := newIssue (createPayload title o) [] None a).
  exists (withIssues s (i :: Store.issues s)), (issueToTask (restView a i)).
  split; [exact (createTask_result s title o a [] None Hl Hms Hok)|].
  split; [reflexivity|]. split; [reflexivity|]. split; [reflexivity|].
  split.
  { change (Assigned.number a) with (Issue.number i).
    now rewrite (getTask_new s i). }
  intros f tasks Hlist Hin.
  apply in_map_iff in Hin as (t & Hid & Ht).
  destruct (listTasks_source lc _ f tasks t Hlist Ht) as (j & Hj & Htp & -> & _).
  cbn [withIssues Store.issues In] in Hj. destruct Hj as [<-|Hj].
  - discriminate.
  - now apply (storedIssue_None s (Assigned.number a) j Hfresh Hj).
Qed.

Lemma create_with_unknown_names_is_unlisted_witness :
  exists s' t,
    createTask (sampleStore [lateIssue]) (js "Call the bank") unknownNames
      firstAssigned = Some (s', t)
    /\ Task.status t = js "todo"
    /\ listTasks codeUnitCompare s' Filters.none = Some [issueToTask lateIssue].
Proof.
  destruct (create_with_unknown_names_is_unlisted codeUnitCompare
              (sampleStore [lateIssue]) (js "Call the bank") unknownNames
              firstAssigned)
    as (s' & t & Hc & _ & Hst & _);
    try reflexivity; try discriminate.
  exists s', t. split; [exact Hc|]. split; [exact Hst|].
  vm_compute in Hc. injection Hc as <- _. vm_compute. reflexivity.
Defined.

(** X7 - A task created as done stays open.  [createTask] with the status
    [done], a priority among the four names, no sprint, a title that is
    not blank, an assignee, if one is given, that can be assigned, a
    browser link that is not empty and a number that is new creates a
    record that carries the label of [done] and is open: the returned
    task is done, the default listing, whenever it returns, contains it,
    and no listing that filters on the status [done] does. *)
Theorem create_done_stays_open lc (s : Store.t) (title : jsstring)
  (o : Options.t) (a : Assigned.t) :
  Options.status o = Some (js "done") ->
  In (textOr (js "medium") (Options.priority o)) (map fst PRIORITY_LABELS) ->
  Options.sprint_id o = None ->
  Assigned.link a <> [] ->
  trim title <> [] ->
  (forall login, whenTruthy (Options.assignee o) = Some login ->
                 In login (Store.assignable s)) ->
  storedIssue s (Assigned.number a) = None ->
  exists s' t,
    createTask s title o a = Some (s', t)
    /\ Task.id t = Assigned.number a
    /\ Task.status t = js "done"
    /\ option_map Issue.state (storedIssue s' (Assigned.number a))
       = Some (js "open")
    /\ (forall tasks, listTasks lc s' Filters.none = Some tasks -> In t tasks)
    /\ (forall f tasks, Filters.status f = Some (js "done") ->
                        listTasks lc s' f = Some tasks ->
                        ~ In (Assigned.number a) (map Task.id tasks)).
Proof.
  intros Hst Hpr Hsprint Hlink Htitle Hlogin Hfresh.
  destruct (createTask_with_known_names lc s title o a)
    as (s' & t & Hc & Hid & _ & Hstatus & _ & _ & _ & _ & _ & Hopen & _ & Hlist).
  - rewrite Hst. cbn. tauto.
  - exact Hpr.
  - intros n Hn. congruence.
  - exact Hlink.
  - exact Htitle.
  - exact Hlogin.
  - exists s', t. split; [exact Hc|]. split; [exact Hid|].
    split; [now rewrite Hstatus, Hst|]. split; [exact Hopen|].
    split; [exact Hlist|].
    intros f tasks Hf Hl Hin.
    apply in_map_iff in Hin as (t' & Hid' & Ht').
    destruct (listTasks_source lc _ f tasks t' Hl Ht')
      as (j & Hj & _ & -> & Hclosed & _).
    rewrite Hf in Hclosed. specialize (Hclosed eq_refl).
    apply createTask_task in Hc as (names & ms & -> & _ & _).
    cbn [withIssues Store.issues In] in Hj. destruct Hj as [<-|Hj].
    + discriminate.
    + now apply (storedIssue_None s (Assigned.number a) j Hfresh Hj).
Qed.

Lemma create_done_stays_open_witness :
  exists s' t,
    createTask (sampleStore [lateIssue]) (js "Already shipped") bornDone
      firstAssigned = Some (s', t)
    /\ Task.status t = js "done"
    /\ option_map Issue.state (storedIssue s' 7) = Some (js "open")
    /\ option_map (map Task.id) (listTasks codeUnitCompare s' Filters.none)
       = Some [1%Z; 7%Z].
Proof.
  destruct (create_done_stays_open codeUnitCompare (sampleStore [lateIssue])
              (js "Already shipped") bornDone firstAssigned)
    as (s' & t & Hc & _ & Hst & Hopen & _);
    try reflexivity; try discriminate.
  - cbn. tauto.
  - exists s', t. split; [exact Hc|]. split; [exact Hst|].
    split; [exact Hopen|].
    vm_compute in Hc. injection Hc as <- _. vm_compute. reflexivity.
Defined.

(** ** Updating a task *)

Lemma updateTask_task (s : Store.t) (taskId : Z) (u : Updates.t)
  (cur : Issue.t) (s' : Store.t) (t : Task.t) :
  ghIssueView s taskId = Some cur ->
  updateTask s taskId u = Some (s', t) ->
  exists names ms,
    allSome (Payload.labels (updatePayload cur u)) = Some names
    /\ t = issueToTask (patchIssue (updatePayload cur u) names ms cur)
    /\ s' = withIssues s (updateIssue taskId
                            (patchIssue (updatePayload cur u) names ms)
                            (Store.issues s))
    /\ (Payload.milestone (updatePayload cur u) = None ->
        ms = Issue.milestone cur).
Proof.
  intros Hview. destruct (ghIssueView_stored _ _ _ Hview) as (i & Hi & ->).
  unfold updateTask, ghApiPatchIssue. rewrite Hview, Hi.
  destruct (allSome _) as [names|]; [|discriminate].
  destruct (requestOk s (updatePayload (ghJson i) u));
    [|now destruct (match Payload.milestone _ with
                    | Some (Some k) => _
                    | Some None => _
                    | None => _
                    end)].
  destruct (Payload.milestone (updatePayload (ghJson i) u)) as [[k|]|] eqn:Em.
  - destruct (lookup_Z k (Store.milestones s)) as [title|]; [|discriminate].
    cbn [option_map]. intros [= <- <-]. exists names, (Some (k, title)).
    repeat split. discriminate.
  - intros [= <- <-]. exists names, None. repeat split. discriminate.
  - intros [= <- <-]. exists names, (Issue.milestone i). repeat split.
Qed.

Lemma updateTask_defined (s : Store.t) (taskId : Z) (u : Updates.t)
  (cur : Issue.t) (names : list jsstring) :
  ghIssueView s taskId = Some cur ->
  allSome (Payload.labels (updatePayload cur u)) = Some names ->
  Payload.milestone (updatePayload cur u) = None ->
  requestOk s (updatePayload cur u) = true ->
  updateTask s taskId u
  = Some (withIssues s (updateIssue taskId
                          (patchIssue (updatePayload cur u) names
                             (Issue.milestone cur))
                          (Store.issues s)),
          issueToTask (patchIssue (updatePayload cur u) names
                         (Issue.milestone cur) cur)).
Proof.
  intros Hview Hl Hm Hok.
  destruct (ghIssueView_stored _ _ _ Hview) as (i & Hi & ->).
  unfold updateTask, ghApiPatchIssue.
  now rewrite Hview, Hi, Hl, Hm, Hok.
Qed.

Lemma allSome_map_Some (A : Type) (l : list A) : allSome (map Some l) = Some l.
Proof.
  induction l as [|x l IH]; [reflexivity|]. cbn [map allSome]. now rewrite IH.
Qed.

Lemma allSome_inv (A : Type) (l : list (option A)) (r : list A) :
  allSome l = Some r -> l = map Some r.
Proof.
  revert r. induction l as [|[x|] l IH]; intros r; cbn [allSome].
  - now intros [= <-].
  - destruct (allSome l) as [r'|]; [|discriminate].
    intros [= <-]. cbn [map]. f_equal. now apply IH.
  - discriminate.
Qed.

Lemma map_Some_no_None (A : Type) (r : list A) : ~ In None (map Some r).
Proof. intros H. apply in_map_iff in H as (x & E & _). discriminate. Qed.

Lemma replaceLabel_None (table : list (jsstring * jsstring)) (key : jsstring)
  (labels : list (option jsstring)) :
  In None labels -> In None (replaceLabel table key labels).
Proof.
  intros H. unfold replaceLabel. apply in_or_app. left.
  apply filter_In. now split.
Qed.

Lemma replaceLabel_names (table : list (jsstring * jsstring)) (key : jsstring)
  (ns names : list jsstring) :
  replaceLabel table key (map Some ns) = map Some names ->
  exists lab,
    lookup key table = Some lab
    /\ names = filter (fun n => negb (includes n (map snd table))) ns ++ [lab].
Proof.
  unfold replaceLabel. intros H.
  assert (F : filter (fun l : option jsstring =>
                        match l with
                        | Some n => negb (includes n (map snd table))
                        | None => true
                        end) (map Some ns)
              = map Some (filter (fun n => negb (includes n (map snd table))) ns)).
  { clear H. induction ns as [|n ns IH]; [reflexivity|].
    cbn [map filter]. destruct (negb _); cbn [map]; now rewrite IH. }
  rewrite F in H. clear F.
  destruct (lookup key table) as [lab|].
  - exists lab. split; [reflexivity|].
    change [Some lab] with (map Some [lab]) in H. rewrite <- map_app in H.
    apply (f_equal (@allSome jsstring)) in H. rewrite !allSome_map_Some in H.
    now injection H as <-.
  - exfalso. apply (map_Some_no_None _ names). rewrite <- H.
    apply in_or_app. right. now left.
Qed.

Lemma no_None_map_Some (A : Type) (l : list (option A)) :
  ~ In None l -> exists r, l = map Some r.
Proof.
  induction l as [|[x|] l IH]; intros H.
  - now exists [].
  - destruct IH as [r ->]; [intros Hin; apply H; now right|].
    now exists (x :: r).
  - elim H. now left.
Qed.

Lemma replaceLabel_inv (table : list (jsstring * jsstring)) (key : jsstring)
  (labels : list (option jsstring)) (names : list jsstring) :
  replaceLabel table key labels = map Some names ->
  exists ns lab,
    labels = map Some ns /\ lookup key table = Some lab
    /\ names = filter (fun n => negb (includes n (map snd table))) ns ++ [lab].
Proof.
  intros H.
  destruct (no_None_map_Some _ labels) as [ns ->].
  { intros Hin. apply (map_Some_no_None _ names). rewrite <- H.
    now apply replaceLabel_None. }
  destruct (replaceLabel_names table key ns names H) as (lab & E & ->).
  now exists ns, lab.
Qed.

Lemma label_names_inv (labels : list Label) (ns : list jsstring) :
  map (fun l => match l with
                | LabelObject n => Some n
                | LabelString _ => None
                end) labels = map Some ns ->
  ns = map labelName labels /\ labels = map LabelObject ns.
Proof.
  revert ns. induction labels as [|[x|n] ls IH]; intros [|m ns] H;
    try discriminate.
  - now split.
  - cbn [map] in H. injection H as -> H. destruct (IH ns H) as [-> E].
    cbn [map labelName]. split; [reflexivity|]. now rewrite <- E.
Qed.

(** The labels an accepted update sends: the names of the current labels,
    with the status labels replaced by the one asked for when a status is
    given, and likewise for the priority. *)
Lemma update_names (cur : Issue.t) (u : Updates.t) (names : list jsstring) :
  allSome (Payload.labels (updatePayload cur u)) = Some names ->
  exists ns0 ns1,
    Issue.labels cur = map LabelObject ns0
    /\ match whenTruthy (Updates.status u) with
       | Some st =>
           exists lab,
             lookup st STATUS_LABELS = Some lab
             /\ ns1 = filter (fun n => negb (includes n (map snd STATUS_LABELS)))
                        ns0 ++ [lab]
       | None => ns1 = ns0
       end
    /\ match whenTruthy (Updates.priority u) with
       | Some pr =>
           exists lab,
             lookup pr PRIORITY_LABELS = Some lab
             /\ names
                = filter (fun n => negb (includes n (map snd PRIORITY_LABELS)))
                    ns1 ++ [lab]
       | None => names = ns1
       end.
Proof.
  intros H. apply allSome_inv in H.
  cbn [updatePayload Payload.labels] in H.
  assert (H1 : exists ns1,
             match whenTruthy (Updates.status u) with
             | Some st =>
                 replaceLabel STATUS_LABELS st
                   (map (fun l => match l with
                                  | LabelObject n => Some n
                                  | LabelString _ => None
                                  end) (Issue.labels cur))
             | None =>
                 map (fun l => match l with
                               | LabelObject n => Some n
                               | LabelString _ => None
                               end) (Issue.labels cur)
             end = map Some ns1
             /\ match whenTruthy (Updates.priority u) with
                | Some pr =>
                    exists lab,
                      lookup pr PRIORITY_LABELS = Some lab
                      /\ names
                         = filter (fun n => negb (includes n
                                                   (map snd PRIORITY_LABELS)))
                             ns1 ++ [lab]
                | None => names = ns1
                end).
  { destruct (whenTruthy (Updates.priority u)) as [pr|].
    - apply replaceLabel_inv in H as (ns1 & lab & E & Hl & ->).
      exists ns1. split; [exact E|]. now exists lab.
    - exists names. now split. }
  destruct H1 as (ns1 & H1 & Hp). clear H.
  destruct (whenTruthy (Updates.status u)) as [st|].
  - apply replaceLabel_inv in H1 as (ns0 & lab & E & Hl & ->).
    apply label_names_inv in E as [_ E].
    exists ns0, (filter (fun n => negb (includes n (map snd STATUS_LABELS))) ns0
                 ++ [lab]).
    split; [exact E|]. split; [now exists lab | exact Hp].
  - apply label_names_inv in H1 as [_ E].
    exists ns1, ns1. split; [exact E|]. split; [reflexivity | exact Hp].
Qed.

Lemma lookup_In (A : Type) (k : jsstring) (table : list (jsstring * A)) (v : A) :
  lookup k table = Some v -> In (k, v) table.
Proof.
  induction table as [|[k' v'] table IH]; cbn [lookup]; [discriminate|].
  destruct (str_eqb_spec k' k) as [->|_].
  - intros [= ->]. now left.
  - intros H. right. now apply IH.
Qed.

Lemma In_relabel (table : list (jsstring * jsstring)) (ns : list jsstring)
  (lab x : jsstring) :
  In x (filter (fun n => negb (includes n (map snd table))) ns ++ [lab])
  <-> (In x ns /\ ~ In x (map snd table)) \/ x = lab.
Proof.
  rewrite in_app_iff, filter_In. cbn [In]. split.
  - intros [[H N]|[E|[]]]; [left | right; now symmetry].
    split; [exact H|]. apply includes_not_In. now destruct (includes x _).
  - intros [[H N]|E]; [left | right; left; now symmetry].
    split; [exact H|]. apply includes_not_In in N. now rewrite N.
Qed.

Lemma firstIncluded_ext (table : list (jsstring * jsstring))
  (ns ns' : list jsstring) :
  (forall lab, In lab (map snd table) -> (In lab ns <-> In lab ns')) ->
  firstIncluded table ns = firstIncluded table ns'.
Proof.
  induction table as [|[k lab] table IH]; intros H; [reflexivity|].
  cbn [firstIncluded].
  assert (E : includes lab ns = includes lab ns').
  { destruct (includes lab ns) eqn:E1; symmetry.
    - apply includes_In. apply H; [now left | now apply includes_In].
    - apply includes_not_In. intros Hin. apply includes_not_In in E1.
      apply E1. apply H; [now left | exact Hin]. }
  rewrite E. destruct (includes lab ns'); [reflexivity|].
  apply IH. intros l Hl. apply H. now right.
Qed.

Lemma names_of_objects (ns : list jsstring) :
  map labelName (map LabelObject ns) = ns.
Proof. rewrite map_map. cbn [labelName]. apply map_id. Qed.

Lemma system_label_prefix (table : list (jsstring * jsstring)) (n : jsstring) :
  table = STATUS_LABELS \/ table = PRIORITY_LABELS ->
  In n (map snd table) -> startsWith (js "tp:") n = true.
Proof.
  intros [->| ->]; cbn [STATUS_LABELS PRIORITY_LABELS map snd In];
    intros [<-|[<-|[<-|[<-|[]]]]]; reflexivity.
Qed.

Lemma userLabels_relabel (table : list (jsstring * jsstring))
  (ns : list jsstring) (lab : jsstring) :
  table = STATUS_LABELS \/ table = PRIORITY_LABELS ->
  In lab (map snd table) ->
  getUserLabels
    (map LabelObject
       (filter (fun n => negb (includes n (map snd table))) ns ++ [lab]))
  = getUserLabels (map LabelObject ns).
Proof.
  intros Ht Hlab. unfold getUserLabels. rewrite !names_of_objects.
  rewrite filter_app. cbn [filter].
  rewrite (system_label_prefix table lab Ht Hlab). cbn [negb].
  rewrite app_nil_r.
  induction ns as [|n ns IH]; [reflexivity|].
  cbn [filter]. destruct (includes n (map snd table)) eqn:E; cbn [negb filter].
  - apply includes_In in E. rewrite (system_label_prefix table n Ht E).
    cbn [negb]. exact IH.
  - destruct (negb (startsWith (js "tp:") n)); [now rewrite IH | exact IH].
Qed.

(** X8 - What an accepted update does to the labels.  Whenever
    [updateTask] succeeds: a status that was given (and is not empty) is
    one of the four names and is the status of the returned task, and a
    priority that was given likewise; a status or priority that was not
    given is unchanged; the user labels are those the task had. *)
Theorem update_relabels (s : Store.t) (taskId : Z) (u : Updates.t)
  (cur : Issue.t) (s' : Store.t) (t : Task.t) :
  ghIssueView s taskId = Some cur ->
  updateTask s taskId u = Some (s', t) ->
  (forall st, Updates.status u = Some st -> st <> [] ->
              In st (map fst STATUS_LABELS) /\ Task.status t = st)
  /\ (whenTruthy (Updates.status u) = None ->
      Task.status t = Task.status (issueToTask cur))
  /\ (forall pr, Updates.priority u = Some pr -> pr <> [] ->
                 In pr (map fst PRIORITY_LABELS) /\ Task.priority t = VStr pr)
  /\ (whenTruthy (Updates.priority u) = None ->
      Task.priority t = Task.priority (issueToTask cur))
  /\ Task.labels t = Task.labels (issueToTask cur).
Proof.
  intros Hview Hu.
  destruct (updateTask_task s taskId u cur s' t Hview Hu)
    as (names & ms & Hnames & -> & _ & _).
  destruct (update_names cur u names Hnames) as (ns0 & ns1 & Hcur & Hs & Hp).
  destruct (issueToTask_labels (patchIssue (updatePayload cur u) names ms cur)
              names eq_refl) as (Es & Ep & El).
  destruct (issueToTask_labels cur ns0 Hcur) as (Es0 & Ep0 & El0).
  rewrite Es, Ep, El, Es0, Ep0, El0. clear Es Ep El Es0 Ep0 El0.
  assert (Hstatus_names :
            forall lab, In lab (map snd STATUS_LABELS) ->
                        (In lab names <-> In lab ns1)).
  { intros lab Hlab. destruct (whenTruthy (Updates.priority u)) as [pr|].
    - destruct Hp as (plab & Hl & ->). rewrite In_relabel. split.
      + intros [[H _]| ->]; [exact H|].
        apply lookup_In in Hl. now elim (priority_labels_apart pr plab Hl).
      + intros H. left. split; [exact H|]. intros Hin.
        apply in_map_iff in Hlab as ([k l] & <- & Hk).
        now apply (status_labels_apart k l Hk).
    - now subst. }
  assert (Hpriority_ns1 :
            forall lab, In lab (map snd PRIORITY_LABELS) ->
                        (In lab ns1 <-> In lab ns0)).
  { intros lab Hlab. destruct (whenTruthy (Updates.status u)) as [st|].
    - destruct Hs as (slab & Hl & ->). rewrite In_relabel. split.
      + intros [[H _]| ->]; [exact H|].
        apply lookup_In in Hl. now elim (status_labels_apart st slab Hl).
      + intros H. left. split; [exact H|]. intros Hin.
        apply in_map_iff in Hlab as ([k l] & <- & Hk).
        now apply (priority_labels_apart k l Hk).
    - now subst. }
  split; [|split; [|split; [|split]]].
  - intros st Est Hne.
    assert (Hw : whenTruthy (Updates.status u) = Some st)
      by (apply whenTruthy_Some; now split).
    rewrite Hw in Hs. destruct Hs as (slab & Hl & Hns1).
    apply lookup_In in Hl.
    split; [change st with (fst (st, slab)); now apply in_map|].
    apply (status_of_single_label names st slab Hl).
    + apply Hstatus_names; [change slab with (snd (st, slab)); now apply in_map|].
      rewrite Hns1. apply In_relabel. now right.
    + intros n Hn Hsys. apply (Hstatus_names n Hsys) in Hn.
      rewrite Hns1 in Hn. apply In_relabel in Hn as [[_ N]|E];
        [contradiction | exact E].
  - intros Hw. rewrite Hw in Hs. subst ns1.
    unfold getStatusFromLabels. rewrite !names_of_objects.
    now rewrite (firstIncluded_ext STATUS_LABELS names ns0 Hstatus_names).
  - intros pr Epr Hne.
    assert (Hw : whenTruthy (Updates.priority u) = Some pr)
      by (apply whenTruthy_Some; now split).
    rewrite Hw in Hp. destruct Hp as (plab & Hl & Hn).
    apply lookup_In in Hl.
    split; [change pr with (fst (pr, plab)); now apply in_map|].
    f_equal. apply (priority_of_single_label names pr plab Hl).
    + rewrite Hn. apply In_relabel. now right.
    + intros n Hin Hsys. rewrite Hn in Hin.
      apply In_relabel in Hin as [[_ N]|E]; [contradiction | exact E].
  - intros Hw. rewrite Hw in Hp. subst names. f_equal.
    unfold getPriorityFromLabels. rewrite !names_of_objects.
    now rewrite (firstIncluded_ext PRIORITY_LABELS ns1 ns0 Hpriority_ns1).
  - transitivity (getUserLabels (map LabelObject ns1)).
    + destruct (whenTruthy (Updates.priority u)) as [pr|]; [|now subst].
      destruct Hp as (plab & Hl & ->). apply lookup_In in Hl.
      apply userLabels_relabel; [now right|].
      change plab with (snd (pr, plab)). now apply in_map.
    + destruct (whenTruthy (Updates.status u)) as [st|]; [|now subst].
      destruct Hs as (slab & Hl & ->). apply lookup_In in Hl.
      apply userLabels_relabel; [now left|].
      change slab with (snd (st, slab)). now apply in_map.
Qed.

Lemma update_relabels_witness :
  exists s' t,
    updateTask (sampleStore [labelledIssue]) 3 backToTodo = Some (s', t)
    /\ Task.status t = js "todo"
    /\ Task.priority t = VStr (js "high")
    /\ Task.labels t = [js "bug"; js "help wanted"].
Proof.
  destruct (updateTask (sampleStore [labelledIssue]) 3 backToTodo)
    as [[s' t]|] eqn:E; [|vm_compute in E; discriminate].
  exists s', t. split; [reflexivity|].
  destruct (update_relabels (sampleStore [labelledIssue]) 3 backToTodo
              (ghJson labelledIssue) s' t eq_refl E) as (Hs & _ & _ & Hp & Hl).
  split; [apply (Hs (js "todo")); [reflexivity | discriminate]|].
  split; [now rewrite Hp | now rewrite Hl].
Defined.

Lemma labelObjects_names (i : Issue.t) :
  labelObjects i ->
  map (fun l => match l with
                | LabelObject n => Some n
                | LabelString _ => None
                end) (Issue.labels i)
  = map Some (map labelName (Issue.labels i))
  /\ map LabelObject (map labelName (Issue.labels i)) = Issue.labels i.
Proof.
  unfold labelObjects. induction 1 as [|l ls [n ->] _ [IH1 IH2]]; [now split|].
  cbn [map labelName]. now rewrite IH1, IH2.
Qed.

Lemma obj_set_keys (k : jsstring) (v : value) (m : obj) (x : jsstring) :
  In x (map fst (obj_set k v m)) -> x = k \/ In x (map fst m).
Proof.
  intros H. apply in_map_iff in H as ([k' v'] & <- & H).
  apply obj_set_In in H as [[= -> ->]|H]; [now left | right].
  change k' with (fst (k', v')). now apply in_map.
Qed.

Lemma Forall_tl (A : Type) (P : A -> Prop) (l : list A) :
  Forall P l -> Forall P (tl l).
Proof. intros [|x l' _ H]; [constructor | exact H]. Qed.


(** X9 - Toggling My Day.  For a stored record whose title is not blank,
    whose labels are objects and whose decoded metadata has no key
    [__proto__] and no key that starts with the delimiter, [toggleMyDay]
    with a boolean succeeds; the returned task carries the new flag and is
    the task [getTask] then returns; its number, title, status, priority,
    due date, labels, estimate, hours spent, tags, parent, assignee,
    sprint, name of the sprint, time of creation and link are those it
    had, its description is the one it had without the white space around
    it, and the state of the record is unchanged.  The time of the last
    update, which the tracker sets, is no part of the statement. *)
Theorem toggle_my_day_sets_flag (s : Store.t) (taskId : Z) (b : bool)
  (cur : Issue.t) :
  storedIssue s taskId = Some cur ->
  trim (Issue.title cur) <> [] ->
  labelObjects cur ->
  ~ In (js "__proto__")
      (map fst (meta (parseYamlFrontMatter (orEmpty (Issue.body cur))))) ->
  Forall (fun k => startsWith delimiter k = false)
    (map fst (meta (parseYamlFrontMatter (orEmpty (Issue.body cur))))) ->
  exists s' t,
    toggleMyDay s taskId (VBool b) = Some (s', t)
    /\ Task.my_day t = VBool b
    /\ getTask s' taskId = Some t
    /\ option_map Issue.state (storedIssue s' taskId) = Some (Issue.state cur)
    /\ (let t0 := issueToTask cur in
        Task.id t = Task.id t0 /\ Task.title t = Task.title t0
        /\ Task.status t = Task.status t0 /\ Task.priority t = Task.priority t0
        /\ Task.due_date t = Task.due_date t0 /\ Task.labels t = Task.labels t0
        /\ Task.estimated_hours t = Task.estimated_hours t0
        /\ Task.actual_hours t = Task.actual_hours t0
        /\ Task.tags t = Task.tags t0
        /\ Task.parent_task t = Task.parent_task t0
        /\ Task.assignee t = Task.assignee t0
        /\ Task.sprint_id t = Task.sprint_id t0
        /\ Task.sprint_name t = Task.sprint_name t0
        /\ Task.created_at t = Task.created_at t0
        /\ Task.html_url t = Task.html_url t0
        /\ Task.body t = trim (Task.body t0)).
Proof.
  intros Hstored Htitle Hobj Hproto Hdelim.
  assert (Hview : ghIssueView s taskId = Some (ghJson cur))
    by (unfold ghIssueView; now rewrite Hstored).
  set (v := ghJson cur) in *.
  assert (Hobjv : labelObjects v) by exact Hobj.
  destruct (labelObjects_names v Hobjv) as [Hnames Hlabels].
  set (u := {| Updates.title := None; Updates.description := None;
               Updates.status := None; Updates.priority := None;
               Updates.due_date := None; Updates.my_day := Some (VBool b);
               Updates.estimated_hours := None; Updates.actual_hours := None;
               Updates.tags := None; Updates.parent_task := None;
               Updates.assignee := None; Updates.sprint_id := None |}).
  set (fm := parseYamlFrontMatter (orEmpty (Issue.body cur))) in *.
  set (m' := obj_set (js "my_day") (VBool b) (meta fm)).
  set (names := map labelName (Issue.labels v)) in *.
  assert (Hbody : Payload.body (updatePayload v u)
                  = buildYamlFrontMatter m' (description fm)) by reflexivity.
  assert (Hl : allSome (Payload.labels (updatePayload v u)) = Some names).
  { cbn [updatePayload Payload.labels u Updates.status Updates.priority
         whenTruthy orElse].
    rewrite Hnames. apply allSome_map_Some. }
  assert (Hok : requestOk s (updatePayload v u) = true).
  { unfold requestOk.
    cbn [updatePayload Payload.title Payload.assignees u Updates.title
         Updates.assignee whenTruthy orElse v ghJson Issue.title].
    destruct (str_eqb_spec (trim (Issue.title cur)) []);
      [contradiction | reflexivity]. }
  set (p := updatePayload v u) in *.
  assert (Hparse : parseYamlFrontMatter (buildYamlFrontMatter m' (description fm))
                   = {| meta := m'; description := trim (description fm) |}).
  { destruct (parseYamlFrontMatter_metaOk (orEmpty (Issue.body cur)) Hproto)
      as [Hwf Hmeta]. fold fm in Hwf, Hmeta.
    apply decode_encoded_ok.
    - apply obj_set_nonempty. discriminate.
    - split; [now apply obj_set_wellFormed|].
      apply obj_set_entries; [| exact I | exact Hmeta].
      intros _. cbv. intuition discriminate.
    - apply Forall_tl. apply Forall_forall. intros x Hx.
      apply obj_set_keys in Hx as [->|Hx]; [reflexivity|].
      rewrite Forall_forall in Hdelim. now apply Hdelim. }
  assert (Hget : forall k, str_eqb (js "my_day") k = false ->
                           obj_get k m' = obj_get k (meta fm)).
  { intros k Hk. unfold m'. rewrite obj_get_set by discriminate. now rewrite Hk. }
  set (s' := withIssues s (updateIssue taskId
                             (patchIssue p names (Issue.milestone v))
                             (Store.issues s))).
  assert (Hstored' : storedIssue s' taskId
                     = Some (patchIssue p names (Issue.milestone v) cur)).
  { unfold storedIssue, s'. cbn [withIssues Store.issues].
    apply find_updateIssue; [reflexivity | exact Hstored]. }
  exists s', (issueToTask (patchIssue p names (Issue.milestone v) v)).
  split; [exact (updateTask_defined s taskId u v _ Hview Hl eq_refl Hok)|].
  split.
  { unfold issueToTask. cbn [Task.my_day patchIssue Issue.body orEmpty].
    rewrite Hbody, Hparse. cbn [meta]. unfold m'.
    rewrite obj_get_set by discriminate. now destruct b. }
  split.
  { unfold getTask, ghIssueView. rewrite Hstored'. reflexivity. }
  split.
  { rewrite Hstored'. reflexivity. }
  cbv zeta. unfold issueToTask.
  cbn [Task.id Task.title Task.status Task.priority Task.due_date
       Task.labels Task.estimated_hours Task.actual_hours Task.tags
       Task.parent_task Task.assignee Task.sprint_id Task.sprint_name
       Task.created_at Task.html_url Task.body
       patchIssue Issue.body orEmpty].
  rewrite Hbody, Hparse. fold fm. cbn [meta description].
  rewrite !Hget by reflexivity.
  cbn [patchIssue Issue.number Issue.title Issue.labels Issue.assignees
       Issue.assignee Issue.milestone Issue.createdAt Issue.created_at
       Issue.html_url Issue.url].
  rewrite Hlabels.
  cbn [p updatePayload Payload.title Payload.assignees u Updates.title
       Updates.assignee whenTruthy orElse v ghJson Issue.number Issue.title
       Issue.labels Issue.assignees Issue.assignee Issue.milestone
       Issue.createdAt Issue.created_at Issue.html_url Issue.url].
  repeat split.
Qed.

Lemma toggle_my_day_sets_flag_witness :
  exists s' t,
    toggleMyDay (sampleStore [lateIssue]) 1 (VBool true) = Some (s', t)
    /\ Task.my_day t = VBool true
    /\ Task.due_date t = VStr (js "2026-02-01")
    /\ Task.status t = js "in-progress".
Proof.
  destruct (toggle_my_day_sets_flag (sampleStore [lateIssue]) 1 true lateIssue)
    as (s' & t & Ht & Hmy & _ & _ & _ & _ & Hst & _ & Hdue & _).
  - reflexivity.
  - discriminate.
  - repeat constructor; eexists; reflexivity.
  - vm_compute. intuition discriminate.
  - vm_compute. repeat constructor.
  - exists s', t. split; [exact Ht|]. split; [exact Hmy|].
    split; [now rewrite Hdue | now rewrite Hst].
Defined.

Lemma startsWith_longer (p q s : jsstring) :
  startsWith p s = false -> startsWith (p ++ q) s = false.
Proof.
  revert s. induction p as [|x p IH]; intros s; [discriminate|].
  destruct s as [|y s]; cbn [app startsWith]; [reflexivity|].
  destruct (Ascii.eqb x y); cbn [andb]; [apply IH | reflexivity].
Qed.

Lemma parse_plain_body (b : jsstring) :
  startsWith delimiter b = false ->
  parseYamlFrontMatter b = {| meta := []; description := b |}.
Proof.
  intros H. unfold parseYamlFrontMatter. destruct b as [|c b]; [reflexivity|].
  unfold matchFrontMatter. now rewrite (startsWith_longer _ [nl] _ H).
Qed.

Lemma findSub_cons_None (p : jsstring) (x : ascii) (s : jsstring) :
  startsWith p (x :: s) = false -> findSub p s = None ->
  findSub p (x :: s) = None.
Proof. intros H1 H2. cbn [findSub]. now rewrite H1, H2. Qed.

Lemma parse_empty_block (b : jsstring) :
  startsWith delimiter b = false ->
  findSub (nl :: delimiter) b = None ->
  parseYamlFrontMatter (buildYamlFrontMatter [] b)
  = {| meta := []; description := buildYamlFrontMatter [] b |}.
Proof.
  intros Hstart Hfind.
  assert (E : buildYamlFrontMatter [] b
              = delimiter ++ nl :: delimiter ++ nl :: nl :: b) by reflexivity.
  assert (F : findSub (nl :: delimiter) (delimiter ++ nl :: nl :: b) = None).
  { cbn [delimiter js list_ascii_of_string app].
    repeat (apply findSub_cons_None; [reflexivity|]).
    apply findSub_cons_None; [|exact Hfind].
    cbn [startsWith]. now rewrite Ascii.eqb_refl. }
  rewrite E. clear E.
  set (body := delimiter ++ nl :: delimiter ++ nl :: nl :: b).
  assert (Hs : startsWith (delimiter ++ [nl]) body = true) by reflexivity.
  assert (Hk : skipn 4 body = delimiter ++ nl :: nl :: b) by reflexivity.
  unfold parseYamlFrontMatter, matchFrontMatter. rewrite Hs, Hk, F.
  reflexivity.
Qed.

(** X10 - Moving a task whose body has no front matter.  For a stored
    record whose body does not start with the delimiter and has no line
    that starts with it, an accepted update that only gives a status (the
    quick actions move, start, block, done and reopen) stores the body
    behind an empty front-matter block, which the decoder does not
    recognise: the description of the returned task is the old
    description with two delimiter lines and an empty line in front of
    it. *)
Theorem move_wraps_plain_description (s : Store.t) (taskId : Z) (st : jsstring)
  (cur : Issue.t) (s' : Store.t) (t : Task.t) :
  ghIssueView s taskId = Some cur ->
  startsWith delimiter (orEmpty (Issue.body cur)) = false ->
  findSub (nl :: delimiter) (orEmpty (Issue.body cur)) = None ->
  updateTask s taskId (moveTo st) = Some (s', t) ->
  Task.body (issueToTask cur) = orEmpty (Issue.body cur)
  /\ Task.body t
     = delimiter ++ nl :: delimiter ++ nl :: nl :: orEmpty (Issue.body cur)
  /\ option_map Issue.body (ghIssueView s' taskId) = Some (Some (Task.body t)).
Proof.
  intros Hview Hstart Hfind Hu.
  destruct (updateTask_task s taskId (moveTo st) cur s' t Hview Hu)
    as (names & ms & _ & -> & -> & _).
  assert (Hbody : Payload.body (updatePayload cur (moveTo st))
                  = buildYamlFrontMatter [] (orEmpty (Issue.body cur))).
  { cbn [updatePayload Payload.body moveTo Updates.priority Updates.due_date
         Updates.my_day Updates.estimated_hours Updates.actual_hours
         Updates.tags Updates.parent_task Updates.description whenTruthy
         orElse setIfDefined].
    now rewrite (parse_plain_body _ Hstart). }
  assert (Hnew : Task.body
                   (issueToTask (patchIssue (updatePayload cur (moveTo st))
                                   names ms cur))
                 = buildYamlFrontMatter [] (orEmpty (Issue.body cur))).
  { unfold issueToTask. cbn [Task.body patchIssue Issue.body orEmpty].
    rewrite Hbody. now rewrite (parse_empty_block _ Hstart Hfind). }
  split.
  { unfold issueToTask. cbn [Task.body]. now rewrite (parse_plain_body _ Hstart). }
  split; [exact Hnew|].
  destruct (ghIssueView_stored _ _ _ Hview) as (i0 & Hi0 & _).
  rewrite Hnew. unfold ghIssueView, storedIssue in *.
  cbn [withIssues Store.issues].
  rewrite (find_updateIssue taskId
             (patchIssue (updatePayload cur (moveTo st)) names ms) i0
             (fun _ => eq_refl) _ Hi0).
  cbn [option_map ghJson patchIssue Issue.body]. now rewrite Hbody.
Qed.

Lemma move_wraps_plain_description_witness :
  exists s' t,
    updateTask (sampleStore [plainIssue]) 4 (moveTo (js "in-progress"))
    = Some (s', t)
    /\ Task.body (issueToTask plainIssue) = js "Steps to reproduce"
    /\ Task.body t
       = delimiter ++ nl :: delimiter ++ nl :: nl :: js "Steps to reproduce".
Proof.
  destruct (updateTask (sampleStore [plainIssue]) 4 (moveTo (js "in-progress")))
    as [[s' t]|] eqn:E; [|vm_compute in E; discriminate].
  exists s', t. split; [reflexivity|].
  destruct (move_wraps_plain_description (sampleStore [plainIssue]) 4
              (js "in-progress") (ghJson plainIssue) s' t)
    as (H0 & H1 & _); try reflexivity.
  - exact E.
  - split; [exact H0 | exact H1].
Defined.

(** ** Listing *)

Lemma firstn_app_exact (A : Type) (l1 l2 : list A) :
  firstn (length l1) (l1 ++ l2) = l1.
Proof.
  induction l1 as [|x l1 IH]; [now destruct l2|].
  cbn [length app firstn]. now rewrite IH.
Qed.


(** X11 - The listing reads the first hundred records only.  A listing
    never returns more than 100 tasks; and when the first hundred records
    of the store are open and none of them carries a label in the
    reserved name space, the default listing is empty, whatever tasks
    follow them. *)
Theorem listing_reads_first_hundred lc (front rest : list Issue.t)
  (milestones : list (Z * jsstring)) (assignable : list jsstring) :
  length front = 100%nat ->
  Forall (fun i => Issue.state i = js "open" /\ hasTpLabel i = false) front ->
  (forall f tasks,
      listTasks lc {| Store.issues := front ++ rest;
                      Store.milestones := milestones;
                      Store.assignable := assignable |} f = Some tasks ->
      (length tasks <= 100)%nat)
  /\ listTasks lc {| Store.issues := front ++ rest;
                     Store.milestones := milestones;
                     Store.assignable := assignable |} Filters.none = Some [].
Proof.
  intros Hlen Hfront. split.
  - intros f tasks H. now apply listTasks_length in H.
  - unfold listTasks.
    cbn [Filters.none Filters.status Filters.priority Filters.assignee
         Filters.sprint_id Filters.include_done isDone whenTruthy orElse app].
    unfold ghIssueList. cbn [Store.issues forallb andb].
    assert (Hf : filter (fun i => stateMatches (js "open") i && true && true && true)
                   front = front).
    { apply forallb_filter_id. apply forallb_forall. intros i Hi.
      rewrite Forall_forall in Hfront. destruct (Hfront i Hi) as [Hopen _].
      unfold stateMatches. rewrite Hopen. reflexivity. }
    rewrite filter_app, Hf, <- Hlen, firstn_app_exact.
    rewrite tasksFromIssues_ghJson.
    unfold tasksFromIssues, unsortedTasks. cbn [Filters.my_day].
    assert (Hnone : filter hasTpLabel front = []).
    { clear -Hfront. induction Hfront as [|i l [_ Hi] _ IH]; [reflexivity|].
      cbn [filter]. now rewrite Hi. }
    now rewrite Hnone.
Qed.

Lemma listing_reads_first_hundred_witness :
  In lateIssue (Store.issues crowdedStore)
  /\ hasTpLabel lateIssue = true
  /\ listTasks codeUnitCompare crowdedStore Filters.none = Some [].
Proof.
  split; [apply in_or_app; right; now left|]. split; [reflexivity|].
  refine (proj2 (listing_reads_first_hundred codeUnitCompare
                   (map (fun n => sampleIssue (Z.of_nat n) (js "open") None
                                    (js "Unrelated report") ["bug"]%string)
                        (seq 2 100))
                   [lateIssue] [] [js "octocat"] _ _)).
  - now rewrite length_map, length_seq.
  - apply Forall_map. apply Forall_forall. intros n _. now split.
Defined.

(** X12 - A sprint filter that names no sprint is ignored.  When the
    sprint of the filters is zero, or names no milestone of the store, or
    a milestone without a title, the listing is the listing without the
    sprint filter; the analytics of such a sprint are the analytics of
    the whole repository. *)
Theorem unknown_sprint_is_ignored lc (s : Store.t) (f : Filters.t) (n : Z) :
  Filters.sprint_id f = Some n ->
  n = 0%Z \/ whenTruthy (lookup_Z n (Store.milestones s)) = None ->
  listTasks lc s f = listTasks lc s (withoutSprint f)
  /\ forall today, getAnalytics lc s (Some n) today = getAnalytics lc s None today.
Proof.
  intros Hf Hn.
  assert (E : (if (n =? 0)%Z then None
               else whenTruthy (lookup_Z n (Store.milestones s))) = None).
  { destruct Hn as [->|Hn]; [reflexivity|]. rewrite Hn. now destruct (n =? 0)%Z. }
  split.
  - unfold listTasks, tasksFromIssues, unsortedTasks.
    cbn [withoutSprint Filters.status Filters.priority Filters.assignee
         Filters.sprint_id Filters.include_done Filters.my_day].
    now rewrite Hf, E.
  - intros today. unfold getAnalytics.
    destruct (Z.eqb_spec n 0) as [_|Hne]; [reflexivity|].
    f_equal. unfold listTasks, tasksFromIssues, unsortedTasks.
    cbn [withDone Filters.none Filters.status Filters.priority Filters.assignee
         Filters.sprint_id Filters.include_done Filters.my_day].
    destruct Hn as [->|Hn]; [now elim Hne|].
    apply Z.eqb_neq in Hne. now rewrite Hne, Hn.
Qed.

Lemma unknown_sprint_is_ignored_witness :
  listTasks codeUnitCompare (sampleStore [lateIssue; foreignIssue]) sprintNine
  = Some [issueToTask lateIssue; issueToTask foreignIssue].
Proof.
  refine (eq_trans
            (proj1 (unknown_sprint_is_ignored codeUnitCompare
                      (sampleStore [lateIssue; foreignIssue]) sprintNine 9
                      eq_refl _)) _).
  - now right.
  - vm_compute. reflexivity.
Defined.

(** X13 - What a status filter returns.  Whenever a listing filtered on
    one of the statuses [todo], [in-progress] or [blocked] returns, every
    task in it is the conversion of a stored record that carries the
    label of that status and, unless done tasks were asked for, is open;
    under the filter [todo] every such task has the status [todo].
    Whenever a listing filtered on the status [done] returns, every task
    in it comes from a closed record. *)
Theorem status_filter_source lc (s : Store.t) (f : Filters.t) (st label : jsstring)
  (tasks : list Task.t) :
  Filters.status f = Some st ->
  lookup st STATUS_LABELS = Some label ->
  listTasks lc s f = Some tasks ->
  forall t, In t tasks ->
  exists i,
    In i (Store.issues s) /\ t = issueToTask i
    /\ (st = js "done" -> Issue.state i = js "closed")
    /\ (st <> js "done" ->
        hasLabelNamed label i = true
        /\ (Filters.include_done f = false -> Issue.state i = js "open")
        /\ (st = js "todo" -> Task.status t = js "todo")).
Proof.
  intros Hf Hl Hlist t Ht.
  destruct (listTasks_source lc s f tasks t Hlist Ht)
    as (i & Hi & _ & -> & Hclosed & Hopen & Hlab & _).
  exists i. split; [exact Hi|]. split; [reflexivity|].
  assert (Hne : st <> []).
  { intros ->. discriminate. }
  assert (Hw : whenTruthy (Filters.status f) = Some st)
    by (apply whenTruthy_Some; now split).
  rewrite Hf in Hclosed, Hopen. cbn [isDone] in Hclosed, Hopen.
  split.
  - intros ->. now apply Hclosed.
  - intros Hnd. specialize (Hlab st Hw Hnd). unfold argument in Hlab.
    rewrite Hl in Hlab. split; [exact Hlab|]. split.
    + apply Hopen. now apply str_eqb_neq.
    + intros ->. injection Hl as <-.
      unfold issueToTask. cbn [Task.status]. unfold getStatusFromLabels.
      rewrite map_map. cbn [labelName STATUS_LABELS firstIncluded].
      unfold hasLabelNamed in Hlab.
      replace (map (fun x => labelName x) (Issue.labels i))
        with (map labelName (Issue.labels i)) by reflexivity.
      change (includes (js "tp:todo") (map labelName (Issue.labels i)) = true)
        in Hlab.
      now rewrite Hlab.
Qed.

Lemma status_filter_source_witness :
  listTasks codeUnitCompare (sampleStore [labelledIssue; lateIssue]) onlyBlocked
  = Some [issueToTask labelledIssue]
  /\ Task.status (issueToTask labelledIssue) = js "in-progress"
  /\ exists i, In i [labelledIssue; lateIssue]
               /\ issueToTask labelledIssue = issueToTask i
               /\ hasLabelNamed (js "tp:blocked") i = true.
Proof.
  split; [vm_compute; reflexivity|]. split; [reflexivity|].
  destruct (status_filter_source codeUnitCompare
              (sampleStore [labelledIssue; lateIssue]) onlyBlocked
              (js "blocked") (js "tp:blocked") [issueToTask labelledIssue]
              eq_refl eq_refl)
    with (t := issueToTask labelledIssue) as (i & Hi & Ht & _ & H).
  - vm_compute. reflexivity.
  - now left.
  - exists i. split; [exact Hi|]. split; [exact Ht|].
    apply H. discriminate.
Defined.



(** ** Analytics and My Day *)

Lemma bump_sum (k : jsstring) (counts : list (jsstring * Z)) :
  sumOfCounts (bump k counts) = (sumOfCounts counts + 1)%Z.
Proof.
  unfold sumOfCounts. induction counts as [|[k' n] counts IH];
    cbn [bump map snd fold_right]; [lia|].
  destruct (str_eqb k' k); cbn [map snd fold_right]; lia.
Qed.

Lemma fold_bump_sum (A : Type) (g : A -> jsstring) (l : list A) :
  forall counts,
    sumOfCounts (fold_left (fun c t => bump (g t) c) l counts)
    = (sumOfCounts counts + Z.of_nat (length l))%Z.
Proof.
  induction l as [|t l IH]; intros counts; cbn [fold_left length]; [lia|].
  rewrite IH, bump_sum. lia.
Qed.

Lemma bump_keys (k : jsstring) (counts : list (jsstring * Z)) :
  In k (map fst counts) -> map fst (bump k counts) = map fst counts.
Proof.
  induction counts as [|[k' n] counts IH]; [intros []|].
  cbn [bump map fst In]. destruct (str_eqb_spec k' k) as [->|Hne].
  - reflexivity.
  - intros [E|H]; [congruence|]. cbn [map fst]. now rewrite IH.
Qed.

Lemma fold_bump_keys (A : Type) (g : A -> jsstring) (l : list A) :
  forall counts,
    (forall t, In t l -> In (g t) (map fst counts)) ->
    map fst (fold_left (fun c t => bump (g t) c) l counts) = map fst counts.
Proof.
  induction l as [|t l IH]; intros counts H; [reflexivity|].
  cbn [fold_left]. rewrite IH.
  - apply bump_keys. apply H. now left.
  - intros t' Ht'. rewrite bump_keys by (apply H; now left). apply H. now right.
Qed.

Lemma filter_disjoint_length (A : Type) (p q : A -> bool) (l : list A) :
  (forall x, p x = true -> q x = false) ->
  (length (filter p l) + length (filter q l)
   = length (filter (fun x => p x || q x) l))%nat.
Proof.
  intros H. induction l as [|x l IH]; [reflexivity|].
  cbn [filter]. destruct (p x) eqn:P.
  - rewrite (H x P). cbn [orb length]. lia.
  - destruct (q x); cbn [orb length]; lia.
Qed.

Lemma issueToTask_priority (i : Issue.t) :
  exists p, Task.priority (issueToTask i) = VStr p
            /\ In p (map fst PRIORITY_LABELS).
Proof.
  unfold issueToTask. cbn [Task.priority]. unfold getPriorityFromLabels.
  destruct (firstIncluded PRIORITY_LABELS _) as [k|] eqn:F.
  - pose proof (firstIncluded_key _ _ _ F) as Hk.
    exists k. split; [|exact Hk].
    cbn [PRIORITY_LABELS map fst In] in Hk.
    destruct Hk as [<-|[<-|[<-|[<-|[]]]]]; reflexivity.
  - exists (js "medium"). split; [reflexivity|]. cbn. tauto.
Qed.

Lemma orZeroPlusOne_whole (n : Z) :
  (0 < n)%Z -> orZeroPlusOne (VNum (Dec n 0)) = VNum (Dec (n + 1) 0).
Proof.
  intros Hn. unfold orZeroPlusOne, js_or. cbn [truthy num_isZero].
  destruct (Z.eqb_spec n 0) as [->|_]; [lia|]. reflexivity.
Qed.

Lemma obj_get_whole (k : jsstring) (counts : obj) :
  Forall (fun p => wholeCount (snd p)) counts -> hasOwn k counts = true ->
  wholeCount (obj_get k counts).
Proof.
  unfold hasOwn. induction 1 as [|[k' v] counts Hv _ IH]; [discriminate|].
  cbn [existsb obj_get fst]. destruct (str_eqb k' k); [intros _; exact Hv|].
  exact IH.
Qed.

Lemma sumOfNumbers_replaceProp (k : jsstring) (v : value) (counts : obj) :
  hasOwn k counts = true ->
  sumOfNumbers (replaceProp k v counts)
  = (sumOfNumbers counts - numberOf (obj_get k counts) + numberOf v)%Z.
Proof.
  unfold hasOwn, sumOfNumbers.
  induction counts as [|[k' w] counts IH]; [discriminate|].
  cbn [existsb replaceProp obj_get fst].
  destruct (str_eqb k' k); cbn [map fold_right snd orb].
  - intros _. lia.
  - intros H. rewrite (IH H). lia.
Qed.

Lemma sumOfNumbers_insertIndexed (i : Z) (k : jsstring) (v : value)
  (counts : obj) :
  sumOfNumbers (insertIndexed i k v counts)
  = (numberOf v + sumOfNumbers counts)%Z.
Proof.
  unfold sumOfNumbers. induction counts as [|[k' w] counts IH]; [reflexivity|].
  cbn [insertIndexed].
  destruct (arrayIndex k') as [j|]; [destruct (j <? i)%Z|]; try reflexivity.
  cbn [map fold_right snd] in *. rewrite IH. lia.
Qed.

Lemma sumOfNumbers_app (counts counts' : obj) :
  sumOfNumbers (counts ++ counts')
  = (sumOfNumbers counts + sumOfNumbers counts')%Z.
Proof.
  unfold sumOfNumbers. induction counts as [|p counts IH]; [reflexivity|].
  cbn [app map fold_right]. rewrite IH. lia.
Qed.

(** Counting under a key that no object inherits adds one to a table of
    whole numbers. *)
Lemma countUp_whole (k : jsstring) (counts : obj) :
  inheritedText k = None ->
  Forall (fun p => wholeCount (snd p)) counts ->
  Forall (fun p => wholeCount (snd p)) (countUp k counts)
  /\ sumOfNumbers (countUp k counts) = (sumOfNumbers counts + 1)%Z.
Proof.
  intros Hk Hall. unfold countUp. rewrite Hk.
  assert (Hp : str_eqb k (js "__proto__") = false).
  { unfold inheritedText in Hk.
    now destruct (str_eqb k (js "__proto__")). }
  unfold obj_set. rewrite Hp.
  destruct (hasOwn k counts) eqn:Hown.
  - destruct (obj_get_whole k counts Hall Hown) as (n & E & Hn).
    rewrite E, (orZeroPlusOne_whole n Hn). split.
    + apply Forall_forall. intros p Hin.
      apply defineOwn_In in Hin as [->|Hin].
      * exists (n + 1)%Z. split; [reflexivity | lia].
      * rewrite Forall_forall in Hall. now apply Hall.
    + unfold defineOwn. rewrite Hown.
      rewrite (sumOfNumbers_replaceProp k _ counts Hown), E.
      cbn [numberOf]. lia.
  - split.
    + apply Forall_forall. intros p Hin.
      apply defineOwn_In in Hin as [->|Hin].
      * exists 1%Z. split; [reflexivity | lia].
      * rewrite Forall_forall in Hall. now apply Hall.
    + unfold defineOwn. rewrite Hown.
      destruct (arrayIndex k) as [i|].
      * rewrite sumOfNumbers_insertIndexed. cbn [numberOf]. lia.
      * rewrite sumOfNumbers_app. unfold sumOfNumbers at 2.
        cbn [map fold_right snd numberOf]. lia.
Qed.

Lemma fold_countUp_whole (tasks : list Task.t) :
  forall counts,
    Forall (fun t => inheritedText (assigneeKey t) = None) tasks ->
    Forall (fun p => wholeCount (snd p)) counts ->
    Forall (fun p => wholeCount (snd p))
      (fold_left (fun c t => countUp (assigneeKey t) c) tasks counts)
    /\ sumOfNumbers (fold_left (fun c t => countUp (assigneeKey t) c) tasks counts)
       = (sumOfNumbers counts + Z.of_nat (length tasks))%Z.
Proof.
  induction tasks as [|t tasks IH]; intros counts Hk Hall.
  - cbn [fold_left length]. split; [exact Hall | lia].
  - apply Forall_cons_iff in Hk as [Ht Hk].
    destruct (countUp_whole _ counts Ht Hall) as [Hall' Hsum].
    cbn [fold_left length]. destruct (IH _ Hk Hall') as [H1 H2].
    split; [exact H1|]. rewrite H2, Hsum. lia.
Qed.

(** X15 - The counters of the analytics.  Whenever [getAnalytics]
    returns: the status counters are those of the four statuses, in the
    order the code writes them, and add up to the total; the priority
    counters are those of the four priorities and add up to the total;
    when no fetched task is assigned to a login that is a name every
    object inherits ([constructor], [toString], [valueOf] and the like),
    every assignee counter is a positive whole number and the assignee
    counters add up to the total; and the overdue tasks and the completed
    tasks together are at most the total.  A task assigned to the login
    [constructor] is counted under a text, not under a number. *)
Theorem analytics_counts_partition lc (s : Store.t) (sprintId : option Z)
  (today : jsstring) (r : Analytics.t) :
  getAnalytics lc s sprintId today = Some r ->
  map fst (Analytics.statusCounts r)
  = [js "todo"; js "in-progress"; js "done"; js "blocked"]
  /\ sumOfCounts (Analytics.statusCounts r) = Analytics.total r
  /\ map fst (Analytics.priorityCounts r)
     = [js "urgent"; js "high"; js "medium"; js "low"]
  /\ sumOfCounts (Analytics.priorityCounts r) = Analytics.total r
  /\ (Forall (fun t => inheritedText (assigneeKey t) = None)
        (Analytics.tasks r) ->
      Forall (fun p => wholeCount (snd p)) (Analytics.assigneeCounts r)
      /\ sumOfNumbers (Analytics.assigneeCounts r) = Analytics.total r)
  /\ (0 <= Analytics.overdue r)%Z
  /\ (Analytics.overdue r + Analytics.completed r <= Analytics.total r)%Z
  /\ Analytics.assigneeCounts (analyticsOf today [issueToTask constructorIssue])
     = [(js "constructor",
         VStr (js "function Object() { [native code] }1"))].
Proof.
  unfold getAnalytics. intros H.
  destruct (listTasks lc s _) as [tasks|] eqn:Hl; [|discriminate].
  injection H as <-.
  assert (Hsrc : forall t, In t tasks -> exists i, t = issueToTask i).
  { intros t Ht. destruct (listTasks_from_store _ _ _ _ Hl t Ht) as (i & _ & _ & E).
    now exists i. }
  cbn [analyticsOf Analytics.statusCounts Analytics.priorityCounts
       Analytics.assigneeCounts Analytics.total Analytics.overdue
       Analytics.completed Analytics.tasks].
  split.
  { rewrite fold_bump_keys; [reflexivity|].
    intros t Ht. destruct (Hsrc t Ht) as [i ->].
    pose proof (issueToTask_status i) as Hs. cbn in Hs |- *. tauto. }
  split; [now rewrite fold_bump_sum|].
  split.
  { rewrite fold_bump_keys; [reflexivity|].
    intros t Ht. destruct (Hsrc t Ht) as [i ->].
    destruct (issueToTask_priority i) as (p & -> & Hp). exact Hp. }
  split; [now rewrite fold_bump_sum|].
  split.
  { intros Hk. exact (fold_countUp_whole tasks [] Hk (Forall_nil _)). }
  split; [lia|].
  split; [|vm_compute; reflexivity].
  change (match lookup (js "done")
                  (fold_left (fun c t => bump (Task.status t) c) tasks
                     [(js "todo", 0%Z); (js "in-progress", 0%Z);
                      (js "done", 0%Z); (js "blocked", 0%Z)]) with
          | Some n => n
          | None => 0%Z
          end)
    with (countOf (js "done")
            (fold_left (fun c t => bump (Task.status t) c) tasks
               [(js "todo", 0%Z); (js "in-progress", 0%Z);
                (js "done", 0%Z); (js "blocked", 0%Z)])).
  rewrite countOf_fold.
  change (countOf (js "done") _) with 0%Z.
  pose proof (filter_disjoint_length _ (isOverdue today)
                (fun t => str_eqb (Task.status t) (js "done")) tasks) as Hd.
  pose proof (filter_length_le
                (fun t => isOverdue today t || str_eqb (Task.status t) (js "done"))
                tasks) as Hle.
  rewrite <- Hd in Hle; [lia|].
  intros t Ht. unfold isOverdue, notDone in Ht.
  apply andb_prop in Ht as [_ Ht]. now destruct (str_eqb _ _).
Qed.

Lemma needsFocus_split (today : jsstring) (t : Task.t) :
  needsFocus today t
  = (truthy (Task.my_day t) && notDone t)
    || ((strictEqStr (Task.due_date t) today && notDone t
         && negb (truthy (Task.my_day t)))
        || (truthy (Task.due_date t) && ltStr (Task.due_date t) today
            && notDone t && negb (truthy (Task.my_day t)))).
Proof.
  unfold needsFocus.
  destruct (notDone t), (truthy (Task.my_day t)),
    (strictEqStr (Task.due_date t) today), (truthy (Task.due_date t)),
    (ltStr (Task.due_date t) today); reflexivity.
Qed.

Lemma due_today_not_overdue (today : jsstring) (v : value) :
  strictEqStr v today = true -> ltStr v today = false.
Proof.
  destruct v as [| | | |x|]; try discriminate.
  cbn [strictEqStr ltStr]. intros H. apply str_eqb_eq in H. subst.
  apply str_ltb_irrefl.
Qed.

(** X16 - The focus count of My Day.  On any list of tasks, the
    [total_focus] of [getMyDayTasks] is the number of tasks that are not
    done and are flagged for My Day, due today or overdue, each counted
    once; no bucket holds a done task or a task that was not listed; and
    every listed task that needs focus is in one of the first three
    buckets. *)
Theorem focus_counts_each_task_once (today : jsstring) (tasks : list Task.t) :
  let r := myDayOf today tasks in
  MyDay.total_focus r = Z.of_nat (length (filter (needsFocus today) tasks))
  /\ (MyDay.total_focus r <= Z.of_nat (length tasks))%Z
  /\ (forall t, In t (MyDay.my_day r ++ MyDay.due_today r ++ MyDay.overdue r
                      ++ MyDay.in_progress r) ->
                In t tasks /\ notDone t = true)
  /\ (forall t, In t tasks -> needsFocus today t = true ->
                In t (MyDay.my_day r ++ MyDay.due_today r ++ MyDay.overdue r)).
Proof.
  cbn [myDayOf MyDay.total_focus MyDay.my_day MyDay.due_today MyDay.overdue
       MyDay.in_progress].
  assert (Hcount :
            (length (filter (fun t => truthy (Task.my_day t) && notDone t) tasks)
             + length (filter (fun t => strictEqStr (Task.due_date t) today
                                        && notDone t
                                        && negb (truthy (Task.my_day t))) tasks)
             + length (filter (fun t => truthy (Task.due_date t)
                                        && ltStr (Task.due_date t) today
                                        && notDone t
                                        && negb (truthy (Task.my_day t))) tasks)
             = length (filter (needsFocus today) tasks))%nat).
  { rewrite <- Nat.add_assoc.
    rewrite (filter_disjoint_length _
               (fun t => strictEqStr (Task.due_date t) today && notDone t
                         && negb (truthy (Task.my_day t)))
               (fun t => truthy (Task.due_date t) && ltStr (Task.due_date t) today
                         && notDone t && negb (truthy (Task.my_day t)))).
    - rewrite filter_disjoint_length.
      + f_equal. apply filter_ext. intros t. symmetry. apply needsFocus_split.
      + intros t Ht. apply andb_prop in Ht as [Ht _]. rewrite Ht.
        cbn [negb]. now rewrite !andb_false_r.
    - intros t Ht. apply andb_prop in Ht as [Ht _]. apply andb_prop in Ht as [Ht _].
      rewrite (due_today_not_overdue _ _ Ht). now rewrite andb_false_r. }
  split; [now rewrite Hcount|].
  split.
  { rewrite Hcount. apply inj_le. apply filter_length_le. }
  split.
  - intros t Ht.
    repeat (apply in_app_or in Ht as [Ht|Ht]);
      apply filter_In in Ht as [Hin Ht]; (split; [exact Hin|]).
    + now apply andb_prop in Ht as [_ Ht].
    + apply andb_prop in Ht as [Ht _]. now apply andb_prop in Ht as [_ Ht].
    + apply andb_prop in Ht as [Ht _]. now apply andb_prop in Ht as [_ Ht].
    + apply andb_prop in Ht as [Ht _]. apply andb_prop in Ht as [Ht _].
      unfold notDone. apply str_eqb_eq in Ht. now rewrite Ht.
  - intros t Hin Ht. rewrite needsFocus_split in Ht.
    apply orb_prop in Ht as [Ht|Ht];
      [apply in_or_app; left; apply filter_In; now split|].
    apply in_or_app. right.
    apply orb_prop in Ht as [Ht|Ht]; apply in_or_app;
      [left | right]; apply filter_In; now split.
Qed.

Lemma analytics_counts_partition_witness :
  exists r,
    getAnalytics codeUnitCompare (sampleStore [lateIssue; foreignIssue]) None
      (js "2026-02-10") = Some r
    /\ sumOfCounts (Analytics.statusCounts r) = Analytics.total r
    /\ sumOfCounts (Analytics.priorityCounts r) = Analytics.total r
    /\ sumOfNumbers (Analytics.assigneeCounts r) = Analytics.total r
    /\ (Analytics.overdue r + Analytics.completed r <= Analytics.total r)%Z.
Proof.
  destruct (getAnalytics codeUnitCompare (sampleStore [lateIssue; foreignIssue])
              None (js "2026-02-10")) as [r|] eqn:E;
    [|vm_compute in E; discriminate].
  exists r. split; [reflexivity|].
  destruct (analytics_counts_partition codeUnitCompare
              (sampleStore [lateIssue; foreignIssue]) None (js "2026-02-10") r E)
    as (_ & Hs & _ & Hp & Ha & _ & Ho & _).
  split; [exact Hs|]. split; [exact Hp|]. split; [|exact Ho].
  apply Ha. vm_compute in E. injection E as <-. repeat constructor.
Defined.

(** ** Configuration *)

Lemma app_nil_both (A : Type) (a b : list A) : a ++ b = [] <-> a = [] /\ b = [].
Proof.
  split; [apply app_eq_nil | intros [-> ->]; reflexivity].
Qed.

(** X17 - Validation of the configuration.  [validateConfig] returns no
    error exactly when the owner, the repository and the token are all
    truthy; and a configuration read with [GITHUB_OWNER], [GITHUB_REPO] and
    [GITHUB_TOKEN] set to non-empty texts carries these three texts,
    whatever the file and [gh] say, and passes the validation. *)
Theorem validateConfig_complete (c : Config.t) :
  (validateConfig c = [] <->
   truthy (Config.owner c) = true /\ truthy (Config.repo c) = true
   /\ truthy (Config.token c) = true)
  /\ (forall env file gh o r k,
         Env.GITHUB_OWNER env = Some o -> o <> [] ->
         Env.GITHUB_REPO env = Some r -> r <> [] ->
         Env.GITHUB_TOKEN env = Some k -> k <> [] ->
         getConfig env file gh = Some c ->
         Config.owner c = VStr o /\ Config.repo c = VStr r
         /\ Config.token c = VStr k /\ validateConfig c = []).
Proof.
  split.
  - unfold validateConfig. rewrite !app_nil_both.
    destruct (truthy (Config.owner c)), (truthy (Config.repo c)),
      (truthy (Config.token c)); split; intros H;
      try (destruct H as (H1 & H2 & H3); discriminate);
      try (repeat split; reflexivity).
  - intros env file gh o r k Ho Hno Hr Hnr Hk Hnk. unfold getConfig.
    rewrite Ho, Hr, Hk. unfold orFileOr at 1 2 3. cbn [envVar truthy].
    apply str_eqb_neq in Hno, Hnr, Hnk. rewrite Hno, Hnr, Hnk. cbn [negb].
    destruct (orFileOr (envVar (Env.PORT env)) file FileConfig.port _);
      [|discriminate].
    destruct (orFileOr (envVar (Env.NOTIFY_ENABLED env)) file _ _);
      [|discriminate].
    destruct (orFileOr (envVar (Env.NOTIFY_MORNING_TIME env)) file _ _);
      [|discriminate].
    destruct (orFileOr (envVar (Env.OPENAI_API_KEY env)) file _ _);
      [|discriminate].
    cbn [truthy]. rewrite Hno, Hnr, Hnk. cbn [negb orb].
    intros [= <-]. cbn [Config.owner Config.repo Config.token].
    repeat split. unfold validateConfig.
    cbn [Config.owner Config.repo Config.token truthy].
    now rewrite Hno, Hnr, Hnk.
Qed.

Lemma validateConfig_complete_witness :
  exists c,
    getConfig repoEnv JsonNull noGh = None
    /\ getConfig repoEnv NoConfig noGh = Some c
    /\ Config.owner c = VStr (js "octo")
    /\ validateConfig c = [].
Proof.
  destruct (getConfig repoEnv NoConfig noGh) as [c|] eqn:E;
    [|vm_compute in E; discriminate].
  exists c. split; [reflexivity|]. split; [reflexivity|].
  destruct (proj2 (validateConfig_complete c) repoEnv NoConfig noGh
              (js "octo") (js "planner") (js "secret"))
    as (Ho & _ & _ & Hv); try reflexivity; try discriminate.
  - exact E.
  - split; [exact Ho | exact Hv].
Defined.

Lemma orFileOr_Json (a : value) (f : FileConfig.t)
  (field : FileConfig.t -> value) (d : value) :
  orFileOr a (Json f) field d = Some (if truthy a then a else js_or (field f) d).
Proof. unfold orFileOr, fileField. now destruct (truthy a). Qed.

Lemma orFileOr_truthy (a : value) (file : ConfigFile)
  (field : FileConfig.t -> value) (d v : value) :
  orFileOr a file field d = Some v -> truthy a = true -> v = a.
Proof. unfold orFileOr. intros H E. rewrite E in H. congruence. Qed.

Lemma js_or_truthy (a b : value) : truthy a = true -> js_or a b = a.
Proof. unfold js_or. now intros ->. Qed.

Lemma js_or_falsy (a b : value) : truthy a = false -> js_or a b = b.
Proof. unfold js_or. now intros ->. Qed.

Lemma truthy_text (o : jsstring) : o <> [] -> truthy (VStr o) = true.
Proof. intros H. cbn [truthy]. apply str_eqb_neq in H. now rewrite H. Qed.

(** The text a field is read back as after [saveConfig], when the
    configuration holds a non-empty text and the environment either does
    not set the field or is where the text came from. *)
Lemma reload_text (a : value) (o : jsstring) (d : value) :
  o <> [] -> (truthy a = true -> a = VStr o) ->
  (if truthy a then a else js_or (throughJson (VStr o)) d) = VStr o.
Proof.
  intros Ho Ha. destruct (truthy a) eqn:E; [now apply Ha|].
  cbn [throughJson]. now rewrite js_or_truthy by now apply truthy_text.
Qed.

(** X18 - Saving a configuration and reading it again.  After
    [saveConfig] of a configuration that [getConfig] returned, [getConfig]
    in the same environment returns again, whatever [gh] answers; an
    owner, a repository, a token and a morning time that were non-empty
    texts are read back unchanged; and when [NOTIFY_ENABLED] is not set
    (or empty), the flag [notify_enabled] that is read back is the
    negation of the one that was saved. *)
Theorem save_then_load (env : Env.t) (file : ConfigFile) (gh gh' : Gh.t)
  (c : Config.t) :
  getConfig env file gh = Some c ->
  exists c',
    getConfig env (saveConfig c) gh' = Some c'
    /\ (forall o, Config.owner c = VStr o -> o <> [] -> Config.owner c' = VStr o)
    /\ (forall r, Config.repo c = VStr r -> r <> [] -> Config.repo c' = VStr r)
    /\ (forall k, Config.token c = VStr k -> k <> [] -> Config.token c' = VStr k)
    /\ (forall m, Config.notify_morning_time c = VStr m -> m <> [] ->
                  Config.notify_morning_time c' = VStr m)
    /\ (whenTruthy (Env.NOTIFY_ENABLED env) = None ->
        Config.notify_enabled c' = negb (Config.notify_enabled c)).
Proof.
  intros H. unfold getConfig in H.
  destruct (orFileOr (envVar (Env.GITHUB_OWNER env)) file FileConfig.owner _)
    as [o1|] eqn:Eo; [|discriminate].
  destruct (orFileOr (envVar (Env.GITHUB_REPO env)) file FileConfig.repo _)
    as [r1|] eqn:Er; [|discriminate].
  destruct (orFileOr (envVar (Env.GITHUB_TOKEN env)) file FileConfig.token _)
    as [t1|] eqn:Et; [|discriminate].
  destruct (orFileOr (envVar (Env.PORT env)) file FileConfig.port _)
    as [p1|]; [|discriminate].
  destruct (orFileOr (envVar (Env.NOTIFY_ENABLED env)) file _ _)
    as [e1|]; [|discriminate].
  destruct (orFileOr (envVar (Env.NOTIFY_MORNING_TIME env)) file _ _)
    as [m1|] eqn:Em; [|discriminate].
  destruct (orFileOr (envVar (Env.OPENAI_API_KEY env)) file _ _)
    as [k1|]; [|discriminate].
  destruct (if negb (truthy o1) || negb (truthy r1)
            then match Gh.repoView gh with
                 | Some (login, name) => (js_or o1 login, js_or r1 name)
                 | None => (o1, r1)
                 end
            else (o1, r1)) as [o2 r2] eqn:Epair.
  injection H as <-.
  assert (Howner : truthy (envVar (Env.GITHUB_OWNER env)) = true ->
                   o2 = envVar (Env.GITHUB_OWNER env)).
  { intros E. pose proof (orFileOr_truthy _ _ _ _ _ Eo E) as ->.
    rewrite E in Epair. cbn [negb orb] in Epair.
    destruct (negb (truthy r1)); [|congruence].
    destruct (Gh.repoView gh) as [[login name]|]; [|congruence].
    rewrite js_or_truthy in Epair by exact E. congruence. }
  assert (Hrepo : truthy (envVar (Env.GITHUB_REPO env)) = true ->
                  r2 = envVar (Env.GITHUB_REPO env)).
  { intros E. pose proof (orFileOr_truthy _ _ _ _ _ Er E) as ->.
    rewrite E in Epair. cbn [negb] in Epair. rewrite orb_false_r in Epair.
    destruct (negb (truthy o1)); [|congruence].
    destruct (Gh.repoView gh) as [[login name]|]; [|congruence].
    rewrite (js_or_truthy _ name E) in Epair. congruence. }
  set (t2 := if negb (truthy t1)
             then match Gh.authToken gh with
                  | Some printed => VStr (trim printed)
                  | None => t1
                  end
             else t1).
  assert (Htoken : truthy (envVar (Env.GITHUB_TOKEN env)) = true ->
                   t2 = envVar (Env.GITHUB_TOKEN env)).
  { intros E. pose proof (orFileOr_truthy _ _ _ _ _ Et E) as ->.
    unfold t2. now rewrite E. }
  assert (Hmorning : truthy (envVar (Env.NOTIFY_MORNING_TIME env)) = true ->
                     m1 = envVar (Env.NOTIFY_MORNING_TIME env)).
  { intros E. exact (orFileOr_truthy _ _ _ _ _ Em E). }
  unfold getConfig, saveConfig. rewrite !orFileOr_Json.
  cbn [FileConfig.owner FileConfig.repo FileConfig.token FileConfig.port
       FileConfig.notify_enabled FileConfig.notify_morning_time
       FileConfig.openai_api_key Config.owner Config.repo Config.token
       Config.port Config.notify_enabled Config.notify_morning_time
       Config.openai_api_key].
  set (o1' := if truthy (envVar (Env.GITHUB_OWNER env))
              then envVar (Env.GITHUB_OWNER env)
              else js_or (throughJson o2) (VStr [])).
  set (r1' := if truthy (envVar (Env.GITHUB_REPO env))
              then envVar (Env.GITHUB_REPO env)
              else js_or (throughJson r2) (VStr [])).
  set (t1' := if truthy (envVar (Env.GITHUB_TOKEN env))
              then envVar (Env.GITHUB_TOKEN env)
              else js_or (throughJson t2) (VStr [])).
  destruct (if negb (truthy o1') || negb (truthy r1')
            then match Gh.repoView gh' with
                 | Some (login, name) => (js_or o1' login, js_or r1' name)
                 | None => (o1', r1')
                 end
            else (o1', r1')) as [o2' r2'] eqn:Epair'.
  eexists. split; [reflexivity|].
  cbn [Config.owner Config.repo Config.token Config.notify_morning_time
       Config.notify_enabled].
  split; [|split; [|split; [|split]]].
  - intros o -> Hne.
    assert (E : o1' = VStr o).
    { unfold o1'. apply reload_text; [exact Hne|]. intros E. now rewrite <- Howner. }
    rewrite E in Epair'.
    destruct (negb (truthy (VStr o)) || negb (truthy r1')); [|congruence].
    destruct (Gh.repoView gh') as [[login name]|]; [|congruence].
    rewrite js_or_truthy in Epair' by now apply truthy_text. congruence.
  - intros r -> Hne.
    assert (E : r1' = VStr r).
    { unfold r1'. apply reload_text; [exact Hne|]. intros E. now rewrite <- Hrepo. }
    rewrite E in Epair'.
    destruct (negb (truthy o1') || negb (truthy (VStr r))); [|congruence].
    destruct (Gh.repoView gh') as [[login name]|]; [|congruence].
    rewrite (js_or_truthy (VStr r)) in Epair' by now apply truthy_text.
    congruence.
  - intros k Hk Hne. fold t2 in Hk.
    assert (E : t1' = VStr k).
    { unfold t1'. rewrite Hk. apply reload_text; [exact Hne|].
      intros E. rewrite <- Hk. symmetry. now apply Htoken. }
    rewrite E. now rewrite (truthy_text k Hne).
  - intros m -> Hne. apply reload_text; [exact Hne|].
    intros E. symmetry. now apply Hmorning.
  - intros Hunset.
    assert (E : truthy (envVar (Env.NOTIFY_ENABLED env)) = false).
    { destruct (Env.NOTIFY_ENABLED env) as [[|x text]|]; try reflexivity.
      discriminate. }
    rewrite E. now destruct (strictEqStr e1 _).
Qed.

Lemma save_then_load_witness :
  exists c c',
    getConfig repoEnv NoConfig noGh = Some c
    /\ Config.notify_enabled c = true
    /\ getConfig repoEnv (saveConfig c) noGh = Some c'
    /\ Config.owner c' = VStr (js "octo")
    /\ Config.notify_enabled c' = false.
Proof.
  destruct (getConfig repoEnv NoConfig noGh) as [c|] eqn:E;
    [|vm_compute in E; discriminate].
  destruct (save_then_load repoEnv NoConfig noGh noGh c E)
    as (c' & Hc' & Ho & _ & _ & _ & Hn).
  exists c, c'. split; [reflexivity|].
  assert (Hc : Config.notify_enabled c = true /\ Config.owner c = VStr (js "octo")).
  { vm_compute in E. injection E as <-. now split. }
  destruct Hc as [Hen Hown].
  split; [exact Hen|]. split; [exact Hc'|].
  split; [apply Ho; [exact Hown | discriminate]|].
  rewrite Hn by reflexivity. now rewrite Hen.
Defined.

(** ** Label provisioning *)

Lemma labelNamed_create_same (l : RepoLabel.t) (labels : list RepoLabel.t) :
  labelNamed (RepoLabel.name l) (ghLabelCreate l labels) = Some l.
Proof.
  unfold labelNamed. induction labels as [|x labels IH]; cbn [ghLabelCreate find].
  - now rewrite str_eqb_refl.
  - destruct (str_eqb (RepoLabel.name x) (RepoLabel.name l)) eqn:E;
      cbn [find]; [now rewrite str_eqb_refl | now rewrite E].
Qed.

Lemma labelNamed_create_other (n : jsstring) (l : RepoLabel.t)
  (labels : list RepoLabel.t) :
  n <> RepoLabel.name l ->
  labelNamed n (ghLabelCreate l labels) = labelNamed n labels.
Proof.
  intros Hn. unfold labelNamed.
  assert (Hl : str_eqb (RepoLabel.name l) n = false)
    by (apply str_eqb_neq; congruence).
  induction labels as [|x labels IH]; cbn [ghLabelCreate find].
  - now rewrite Hl.
  - destruct (str_eqb_spec (RepoLabel.name x) (RepoLabel.name l)) as [E|E];
      cbn [find].
    + rewrite Hl. rewrite E. now rewrite Hl.
    + destruct (str_eqb (RepoLabel.name x) n); [reflexivity | exact IH].
Qed.

Lemma ghLabelCreate_same (l : RepoLabel.t) (labels : list RepoLabel.t) :
  labelNamed (RepoLabel.name l) labels = Some l -> ghLabelCreate l labels = labels.
Proof.
  unfold labelNamed. induction labels as [|x labels IH]; cbn [ghLabelCreate find];
    [discriminate|].
  destruct (str_eqb (RepoLabel.name x) (RepoLabel.name l)).
  - now intros [= ->].
  - intros H. now rewrite IH.
Qed.

Lemma ghLabelCreate_firstn (k : nat) (l : RepoLabel.t) :
  forall labels,
    (k <= length labels)%nat ->
    Forall (fun x => RepoLabel.name x <> RepoLabel.name l) (firstn k labels) ->
    firstn k (ghLabelCreate l labels) = firstn k labels.
Proof.
  induction k as [|k IH]; intros labels Hlen Hfirst; [reflexivity|].
  destruct labels as [|x labels]; [cbn [length] in Hlen; lia|].
  cbn [firstn] in Hfirst. inversion Hfirst as [|? ? Hx Hrest]; subst.
  cbn [ghLabelCreate]. apply str_eqb_neq in Hx. rewrite Hx.
  cbn [firstn]. f_equal. apply IH; [cbn [length] in Hlen; lia | exact Hrest].
Qed.

Lemma ghLabelCreate_length (l : RepoLabel.t) (labels : list RepoLabel.t) :
  (length labels <= length (ghLabelCreate l labels))%nat.
Proof.
  induction labels as [|x labels IH]; cbn [ghLabelCreate length]; [lia|].
  destruct (str_eqb _ _); cbn [length]; lia.
Qed.

Lemma provision_fold (fails : jsstring -> bool) (entries : list (jsstring * jsstring)) :
  forall acc,
    snd (fold_left (provisionOne fails) entries acc)
    = snd acc ++ filter (fun n => negb (fails n)) (map snd entries)
    /\ (forall n, labelNamed n (fst acc) = Some (labelFor n) ->
                  labelNamed n (fst (fold_left (provisionOne fails) entries acc))
                  = Some (labelFor n))
    /\ (forall n, In n (map snd entries) -> fails n = false ->
                  labelNamed n (fst (fold_left (provisionOne fails) entries acc))
                  = Some (labelFor n))
    /\ (forall n, ~ In n (map snd entries) \/ fails n = true ->
                  labelNamed n (fst (fold_left (provisionOne fails) entries acc))
                  = labelNamed n (fst acc)).
Proof.
  induction entries as [|[k m] entries IH]; intros [labels created].
  - cbn [fold_left map filter fst snd]. rewrite app_nil_r.
    repeat split; try tauto. intros n [].
  - cbn [fold_left map snd filter].
    destruct (IH (provisionOne fails (labels, created) (k, m)))
      as (Hc & Hkeep & Hnew & Hold).
    unfold provisionOne in Hc, Hkeep, Hnew, Hold |- *. cbn [fst snd] in *.
    destruct (fails m) eqn:Em; cbn [negb fst snd] in *.
    + split; [exact Hc|]. split; [exact Hkeep|]. split.
      * intros n [<-|Hn] Hf; [congruence | now apply Hnew].
      * intros n Hn. apply Hold. destruct Hn as [Hn|Hn]; [left | now right].
        intros H. apply Hn. now right.
    + split; [rewrite Hc; now rewrite <- app_assoc|]. split.
      * intros n Hn. apply Hkeep.
        destruct (str_eqb_spec n m) as [->|Hne].
        -- apply (labelNamed_create_same (labelFor m)).
        -- now rewrite labelNamed_create_other.
      * split.
        -- intros n [<-|Hn] Hf; [|now apply Hnew].
           apply Hkeep. apply (labelNamed_create_same (labelFor m)).
        -- intros n Hn. rewrite Hold.
           ++ apply labelNamed_create_other. cbn [labelFor RepoLabel.name].
              destruct Hn as [Hn|Hn]; [|congruence].
              intros ->. apply Hn. now left.
           ++ destruct Hn as [Hn|Hn]; [left | now right].
              intros H. apply Hn. now right.
Qed.

Lemma provision_again (entries : list (jsstring * jsstring))
  (labels : list RepoLabel.t) :
  (forall n, In n (map snd entries) -> labelNamed n labels = Some (labelFor n)) ->
  forall created,
    fst (fold_left (provisionOne (fun _ => false)) entries (labels, created))
    = labels.
Proof.
  induction entries as [|[k m] entries IH]; intros H created; [reflexivity|].
  cbn [fold_left]. unfold provisionOne at 2. cbn [fst snd].
  rewrite (ghLabelCreate_same (labelFor m)) by (apply H; now left).
  apply IH. intros n Hn. apply H. now right.
Qed.

Lemma spread_system_labels :
  map snd (spread STATUS_LABELS PRIORITY_LABELS) = systemLabels.
Proof. reflexivity. Qed.

(** X19 - What [initializeRepo] leaves in the repository.  Whichever
    calls fail: every one of the eight label names whose creation did not
    fail names afterwards the label with the colour and the description
    of the tables (each name has its own entry in both tables, the
    defaults are never used); under every other name the repository holds
    what it held; when the listing does not fail, [created] holds the
    names whose creation did not fail, in the order of the tables, and
    [existing] only names that start with [tp:]; and without failures, a
    second run leaves the labels as the first run left them. *)
Theorem initializeRepo_provisions (outage : Outage.t) (labels : list RepoLabel.t) :
  let r := initializeRepo outage labels in
  (forall n, In n systemLabels -> Outage.createFails outage n = false ->
             labelNamed n (Provisioned.labels r) = Some (labelFor n)
             /\ lookup n LABEL_COLORS = Some (RepoLabel.color (labelFor n))
             /\ lookup n LABEL_DESCRIPTIONS
                = Some (RepoLabel.description (labelFor n)))
  /\ (forall n, ~ In n systemLabels \/ Outage.createFails outage n = true ->
                labelNamed n (Provisioned.labels r) = labelNamed n labels)
  /\ (Outage.listFails outage = false ->
      exists existing,
        Provisioned.returned r
        = Some (filter (fun n => negb (Outage.createFails outage n)) systemLabels,
                existing)
        /\ Forall (fun n => startsWith (js "tp:") n = true) existing)
  /\ Provisioned.labels
       (initializeRepo Outage.none
          (Provisioned.labels (initializeRepo Outage.none labels)))
     = Provisioned.labels (initializeRepo Outage.none labels).
Proof.
  cbv zeta. unfold initializeRepo.
  destruct (provision_fold (Outage.createFails outage)
              (spread STATUS_LABELS PRIORITY_LABELS) (labels, []))
    as (Hc & _ & Hnew & Hold).
  rewrite spread_system_labels in Hc, Hnew, Hold. cbn [fst snd app] in Hc, Hold.
  destruct (fold_left (provisionOne (Outage.createFails outage)) _ (labels, []))
    as [labels' created] eqn:E.
  cbn [fst snd] in Hc, Hnew, Hold. cbn [Provisioned.labels Provisioned.returned].
  split; [|split; [|split]].
  - intros n Hn Hf. split; [now apply Hnew|].
    cbn [systemLabels STATUS_LABELS PRIORITY_LABELS map snd app In] in Hn.
    destruct Hn as [<-|[<-|[<-|[<-|[<-|[<-|[<-|[<-|[]]]]]]]]]; now split.
  - exact Hold.
  - intros Hlist. rewrite Hlist. eexists. split; [now rewrite Hc|].
    apply Forall_forall. intros n Hn. now apply filter_In in Hn as [_ Hn].
  - destruct (provision_fold (Outage.createFails Outage.none)
                (spread STATUS_LABELS PRIORITY_LABELS) (labels, []))
      as (_ & _ & Hnew0 & _).
    rewrite spread_system_labels in Hnew0.
    destruct (fold_left (provisionOne (Outage.createFails Outage.none)) _
                (labels, [])) as [labels0 created0] eqn:E0.
    cbn [fst] in Hnew0. cbn [Provisioned.labels].
    pose proof (provision_again (spread STATUS_LABELS PRIORITY_LABELS) labels0)
      as Hagain.
    rewrite spread_system_labels in Hagain.
    specialize (Hagain (fun n Hn => Hnew0 n Hn eq_refl) []).
    cbn [Outage.none Outage.createFails].
    destruct (fold_left (provisionOne (fun _ => false)) _ (labels0, []))
      as [labels1 created1].
    exact Hagain.
Qed.

Lemma provision_keeps_first_labels (entries : list (jsstring * jsstring)) :
  forall acc,
    Forall (fun e => startsWith (js "tp:") (snd e) = true) entries ->
    (30 <= length (fst acc))%nat ->
    Forall (fun l => startsWith (js "tp:") (RepoLabel.name l) = false)
      (firstn 30 (fst acc)) ->
    firstn 30 (fst (fold_left (provisionOne (fun _ => false)) entries acc))
    = firstn 30 (fst acc).
Proof.
  induction entries as [|[k m] entries IH]; intros [ls cs] Hent Hl Hno;
    [reflexivity|].
  inversion Hent as [|? ? Hm Hent']; subst. cbn [snd] in Hm.
  cbn [fold_left]. unfold provisionOne at 2. cbn [fst snd] in *.
  assert (Hsame : firstn 30 (ghLabelCreate (labelFor m) ls) = firstn 30 ls).
  { apply ghLabelCreate_firstn; [exact Hl|].
    eapply Forall_impl; [|exact Hno].
    intros x Hx E. cbn beta in Hx. cbn [labelFor RepoLabel.name] in E.
    rewrite E in Hx. congruence. }
  rewrite IH; cbn [fst]; [exact Hsame | exact Hent' | | now rewrite Hsame].
  eapply Nat.le_trans; [exact Hl | apply ghLabelCreate_length].
Qed.

(** X20 - [existing] reads thirty labels.  When the repository holds
    at least thirty labels and none of the first thirty has a name that
    starts with [tp:], [initializeRepo] without failures creates the eight
    labels, and returns all eight names as [created] and no name as
    [existing]. *)
Theorem existing_reads_thirty_labels (labels : list RepoLabel.t) :
  (30 <= length labels)%nat ->
  Forall (fun l => startsWith (js "tp:") (RepoLabel.name l) = false)
    (firstn 30 labels) ->
  Provisioned.returned (initializeRepo Outage.none labels)
  = Some (systemLabels, [])
  /\ forall n, In n systemLabels ->
               labelNamed n (Provisioned.labels (initializeRepo Outage.none labels))
               = Some (labelFor n).
Proof.
  intros Hlen Hfirst. unfold initializeRepo.
  destruct (provision_fold (Outage.createFails Outage.none)
              (spread STATUS_LABELS PRIORITY_LABELS) (labels, []))
    as (Hc & _ & Hnew & _).
  pose proof (provision_keeps_first_labels
                (spread STATUS_LABELS PRIORITY_LABELS) (labels, [])) as Hkeep.
  rewrite spread_system_labels in Hc, Hnew.
  cbn [Outage.none Outage.createFails Outage.listFails] in *.
  destruct (fold_left (provisionOne (fun _ => false)) _ (labels, []))
    as [labels' created] eqn:E.
  cbn [fst snd app] in Hc, Hnew, Hkeep.
  cbn [Provisioned.labels Provisioned.returned].
  split.
  - assert (H1 : created = systemLabels) by (rewrite Hc; reflexivity).
    assert (H2 : filter (startsWith (js "tp:")) (ghLabelList labels') = []).
    { unfold ghLabelList. rewrite Hkeep; [| |exact Hlen | exact Hfirst].
      - clear -Hfirst. induction Hfirst as [|x l Hx _ IH]; [reflexivity|].
        cbn [map filter]. now rewrite Hx.
      - repeat constructor. }
    now rewrite H1, H2.
  - intros n Hn. now apply Hnew.
Qed.

Lemma existing_reads_thirty_labels_witness :
  Provisioned.returned (initializeRepo Outage.none thirtyLabels)
  = Some (systemLabels, [])
  /\ labelNamed (js "tp:todo")
       (Provisioned.labels (initializeRepo Outage.none thirtyLabels))
     = Some (labelFor (js "tp:todo")).
Proof.
  destruct (existing_reads_thirty_labels thirtyLabels) as [Hr Hl].
  - vm_compute. lia.
  - vm_compute. repeat constructor.
  - split; [exact Hr|]. apply Hl. cbn. tauto.
Defined.

(** ** Day planning *)

Lemma firstn_app_long (A : Type) (n : nat) (l1 l2 : list A) :
  (n <= length l1)%nat -> firstn n (l1 ++ l2) = firstn n l1.
Proof.
  intros H. rewrite firstn_app.
  replace (n - length l1)%nat with 0%nat by lia.
  cbn [firstn]. apply app_nil_r.
Qed.

(** X21 - The plan without assistant.  The plan of [simpleDayPlan] has at
    most seven entries, each with the number of its task as its id; its
    tasks are the first seven of the overdue tasks, then the tasks due
    today, then the tasks in progress, then the tasks flagged for My Day;
    so when the first three buckets hold seven tasks or more, no task
    enters the plan for being flagged for My Day. *)
Theorem simple_plan_takes_seven (myDay : MyDay.t) :
  let p := simpleDayPlanOf myDay in
  (length (DayPlan.plan p) <= 7)%nat
  /\ map PlanEntry.task (DayPlan.plan p)
     = firstn 7 (MyDay.overdue myDay ++ MyDay.due_today myDay
                 ++ MyDay.in_progress myDay ++ MyDay.my_day myDay)
  /\ Forall (fun e => PlanEntry.id e = VNum (Dec (Task.id (PlanEntry.task e)) 0))
       (DayPlan.plan p)
  /\ ((7 <= length (MyDay.overdue myDay) + length (MyDay.due_today myDay)
            + length (MyDay.in_progress myDay))%nat ->
      Forall (fun e => PlanEntry.reason e <> AddedToMyDay) (DayPlan.plan p)).
Proof.
  cbv zeta. unfold simpleDayPlanOf. cbn [DayPlan.plan].
  split; [apply firstn_le_length|].
  split.
  { rewrite <- firstn_map, !map_app, !map_map. cbn [entryFor PlanEntry.task].
    now rewrite !map_id. }
  split.
  { apply Forall_forall. intros e He. apply In_firstn in He.
    repeat (apply in_app_or in He as [He|He]);
      apply in_map_iff in He as (t & <- & _); reflexivity. }
  intros Hlen. rewrite !app_assoc. rewrite firstn_app_long.
  - apply Forall_forall. intros e He. apply In_firstn in He.
    repeat (apply in_app_or in He as [He|He]);
      apply in_map_iff in He as (t & <- & _); discriminate.
  - rewrite !length_app, !length_map. lia.
Qed.

Lemma taskOfId_Some (tasks : list Task.t) (id : value) (t : Task.t) :
  taskOfId tasks id = Some t ->
  In t tasks /\ id = VNum (Dec (Task.id t) 0).
Proof.
  unfold taskOfId. destruct id as [| | |[n [|k]|]| |]; try discriminate.
  intros H. apply find_some in H as [Hin E]. apply Z.eqb_eq in E.
  split; [now apply in_rev | now subst].
Qed.

Lemma taskOfId_None (tasks : list Task.t) (id : value) :
  taskOfId tasks id = None ->
  forall t, In t tasks -> id <> VNum (Dec (Task.id t) 0).
Proof.
  unfold taskOfId. intros H t Ht E. subst id.
  apply in_rev in Ht. apply (find_none _ _ H) in Ht.
  rewrite Z.eqb_refl in Ht. discriminate.
Qed.

(** X22 - The plan of the assistant.  Whenever [planMyDay] returns with
    an assistant configured, the default listing returned, and the plan
    holds, in the order of the assistant's answer, exactly the entries of
    the answer whose id is the number of a listed task, each with that
    task attached and its reason kept; an entry whose id is the number of
    no listed task (or is not a number) is dropped. *)
Theorem plan_keeps_listed_ids lc (c : Config.t) (s : Store.t)
  (today : jsstring) (a : Answer.t) (p : DayPlan.t) :
  isAIAvailable c = true ->
  planMyDay lc c s today (Some a) = Some p ->
  exists tasks,
    listTasks lc s Filters.none = Some tasks
    /\ DayPlan.summary p = Answer.summary a
    /\ (length (DayPlan.plan p) <= length (Answer.plan a))%nat
    /\ map PlanEntry.id (DayPlan.plan p)
       = filter (fun id => existsb (fun t => match id with
                                             | VNum (Dec n O) => (Task.id t =? n)%Z
                                             | _ => false
                                             end) tasks)
           (map Suggestion.id (Answer.plan a))
    /\ Forall (fun e => In (PlanEntry.task e) tasks
                        /\ PlanEntry.id e
                           = VNum (Dec (Task.id (PlanEntry.task e)) 0)
                        /\ exists g, In g (Answer.plan a)
                                     /\ Suggestion.id g = PlanEntry.id e
                                     /\ PlanEntry.reason e
                                        = Given (Suggestion.reason g))
         (DayPlan.plan p).
Proof.
  intros Hai. unfold planMyDay. rewrite Hai. cbn [negb].
  destruct (listTasks lc s Filters.none) as [tasks|]; [|discriminate].
  intros [= <-]. exists tasks. cbn [DayPlan.plan DayPlan.summary].
  split; [reflexivity|]. split; [reflexivity|].
  split; [|split].
  - unfold attachTasks. induction (Answer.plan a) as [|g plan IH]; [reflexivity|].
    cbn [flat_map length]. rewrite length_app.
    destruct (taskOfId tasks (Suggestion.id g)); cbn [length]; lia.
  - unfold attachTasks. induction (Answer.plan a) as [|g plan IH]; [reflexivity|].
    cbn [flat_map map filter]. rewrite map_app, IH.
    destruct (taskOfId tasks (Suggestion.id g)) as [t|] eqn:E.
    + apply taskOfId_Some in E as [Hin E]. rewrite E.
      assert (Hex : existsb (fun t0 => (Task.id t0 =? Task.id t)%Z) tasks = true).
      { apply existsb_exists. exists t. split; [exact Hin | apply Z.eqb_refl]. }
      rewrite Hex. reflexivity.
    + assert (Hex : existsb (fun t => match Suggestion.id g with
                                      | VNum (Dec n O) => (Task.id t =? n)%Z
                                      | _ => false
                                      end) tasks = false).
      { destruct (existsb _ tasks) eqn:X; [|reflexivity].
        apply existsb_exists in X as (t & Hin & Ht).
        pose proof (taskOfId_None _ _ E t Hin) as Hne.
        destruct (Suggestion.id g) as [| | |[n [|k]|]| |]; try discriminate.
        apply Z.eqb_eq in Ht. subst n. now elim Hne. }
      rewrite Hex. reflexivity.
  - apply Forall_forall. intros e He. unfold attachTasks in He.
    apply in_flat_map in He as (g & Hg & He).
    destruct (taskOfId tasks (Suggestion.id g)) as [t|] eqn:E; [|destruct He].
    destruct He as [<-|[]]. cbn [PlanEntry.task PlanEntry.id PlanEntry.reason].
    apply taskOfId_Some in E as [Hin E].
    split; [exact Hin|]. split; [exact E|]. now exists g.
Qed.

Lemma plan_keeps_listed_ids_witness :
  exists p,
    planMyDay codeUnitCompare aiConfig (sampleStore [lateIssue; foreignIssue])
      (js "2026-02-10") (Some sampleAnswer) = Some p
    /\ map PlanEntry.id (DayPlan.plan p) = [VNum (Dec 1 0)]
    /\ map PlanEntry.task (DayPlan.plan p) = [issueToTask lateIssue].
Proof.
  destruct (planMyDay codeUnitCompare aiConfig
              (sampleStore [lateIssue; foreignIssue]) (js "2026-02-10")
              (Some sampleAnswer)) as [p|] eqn:E;
    [|vm_compute in E; discriminate].
  exists p. split; [reflexivity|].
  destruct (plan_keeps_listed_ids codeUnitCompare aiConfig
              (sampleStore [lateIssue; foreignIssue]) (js "2026-02-10")
              sampleAnswer p eq_refl E) as (tasks & Hl & _ & _ & Hids & _).
  vm_compute in Hl. injection Hl as <-.
  split; [rewrite Hids; vm_compute; reflexivity|].
  vm_compute in E. injection E as <-. vm_compute. reflexivity.
Defined.

(** ** Decomposition *)

(** X23 - Decomposition needs a listed task.  When every stored record
    with the number of the task is not open, or has no label in the
    reserved name space (so that [getTask] may well return the task),
    [decomposeTask] throws and creates nothing, whatever the assistant
    answers. *)
Theorem decompose_needs_a_listed_task lc (c : Config.t) (s : Store.t)
  (taskId : Z) (answer : option (list Subtask.t)) (assigned : nat -> Assigned.t) :
  (forall i, In i (Store.issues s) -> Issue.number i = taskId ->
             Issue.state i <> js "open" \/ hasTpLabel i = false) ->
  decomposeTask lc c s taskId answer assigned = (s, None).
Proof.
  intros H. unfold decomposeTask.
  destruct (negb (isAIAvailable c)); [reflexivity|].
  destruct (listTasks lc s Filters.none) as [tasks|] eqn:Hl; [|reflexivity].
  destruct (find _ tasks) as [t|] eqn:F; [|reflexivity].
  exfalso. apply find_some in F as [Hin Hid]. apply Z.eqb_eq in Hid.
  destruct (listTasks_source lc s Filters.none tasks t Hl Hin)
    as (i & Hi & Htp & -> & _ & Hopen & _).
  destruct (H i Hi Hid) as [Hs|Hn]; [|congruence].
  apply Hs. now apply Hopen.
Qed.

Lemma decompose_needs_a_listed_task_witness :
  getTask (sampleStore [closeIssue (js "completed") lateIssue]) 1
  = Some (issueToTask lateIssue)
  /\ decomposeTask codeUnitCompare aiConfig
       (sampleStore [closeIssue (js "completed") lateIssue]) 1
       (Some twoSubtasks) fromTwenty
     = (sampleStore [closeIssue (js "completed") lateIssue], None).
Proof.
  split; [reflexivity|].
  apply decompose_needs_a_listed_task.
  intros i [<-|[]] _. left. discriminate.
Defined.

Lemma issueToTask_sprint (i : Issue.t) : Task.sprint_id (issueToTask i) <> Some 0%Z.
Proof.
  unfold issueToTask. cbn [Task.sprint_id].
  destruct (Issue.milestone i) as [[n title]|]; [|discriminate].
  destruct (Z.eqb_spec n 0); [discriminate | congruence].
Qed.

Lemma subtask_created (s : Store.t) (taskId : Z) (parent : Task.t)
  (sub : Subtask.t) (a : Assigned.t) (s' : Store.t) (t : Task.t) :
  taskId <> 0%Z -> subtaskOk sub -> Task.sprint_id parent <> Some 0%Z ->
  createTask s (Subtask.title sub) (subtaskOptions taskId parent sub) a
  = Some (s', t) ->
  Task.id t = Assigned.number a
  /\ Task.title t = Subtask.title sub
  /\ Task.status t = js "todo"
  /\ Task.parent_task t = VNum (Dec taskId 0)
  /\ Task.sprint_id t = Task.sprint_id parent.
Proof.
  intros Hid [Hpr Hest] Hsprint Hc.
  apply createTask_task in Hc as (names & ms & _ & -> & Hnames & Hms & _).
  split; [reflexivity|]. split; [reflexivity|].
  split; [|split].
  - unfold issueToTask.
    cbn [Task.status restView newIssue Issue.labels].
    cbn [createPayload Payload.labels subtaskOptions Options.status textOr
         truthyEntries flat_map] in Hnames.
    change (entryOf (js "todo") STATUS_LABELS) with (Some (Some (js "tp:todo")))
      in Hnames.
    cbn [js list_ascii_of_string app] in Hnames.
    cbn [allSome] in Hnames.
    destruct (allSome _) as [names'|] in Hnames; [|discriminate].
    injection Hnames as <-. reflexivity.
  - unfold issueToTask.
    cbn [Task.parent_task restView newIssue Issue.body orEmpty createPayload
         Payload.body].
    rewrite createMeta_decodes.
    + unfold createMeta, readBackEntry.
      cbn [meta map fst snd subtaskOptions Options.parent_task withDefault].
      cbn [obj_get str_eqb js list_ascii_of_string Ascii.eqb Bool.eqb andb].
      rewrite valueOk_readBack by (now left).
      unfold js_or. cbn [truthy num_isZero].
      apply Z.eqb_neq in Hid. now rewrite Hid.
    + exact Hpr.
    + cbv. intuition discriminate.
    + exact Hest.
    + cbv. intuition discriminate.
    + cbv. intuition discriminate.
    + apply valueOk_oneLine. now left.
  - unfold issueToTask. cbn [Task.sprint_id restView newIssue Issue.milestone].
    cbn [createPayload Payload.milestone subtaskOptions Options.sprint_id] in Hms.
    destruct (Task.sprint_id parent) as [n|]; [|now injection Hms as <-].
    destruct (Z.eqb_spec n 0) as [->|Hn]; [now elim Hsprint|].
    destruct (lookup_Z n (Store.milestones s)) as [title|]; [|discriminate].
    injection Hms as <-. apply Z.eqb_neq in Hn. now rewrite Hn.
Qed.

Lemma createSubtasks_created (taskId : Z) (parent : Task.t)
  (assigned : nat -> Assigned.t) (subs : list Subtask.t) :
  taskId <> 0%Z -> Task.sprint_id parent <> Some 0%Z ->
  Forall subtaskOk subs ->
  forall s k s' created,
    createSubtasks s taskId parent subs assigned k = (s', Some created) ->
    Forall2
      (fun sub_k t =>
         Task.id t = Assigned.number (assigned (snd sub_k))
         /\ Task.title t = Subtask.title (fst sub_k)
         /\ Task.status t = js "todo"
         /\ Task.parent_task t = VNum (Dec taskId 0)
         /\ Task.sprint_id t = Task.sprint_id parent)
      (combine subs (seq k (length subs))) created.
Proof.
  intros Hid Hsprint Hok. induction Hok as [|sub subs Hsub _ IH];
    intros s k s' created H; cbn [createSubtasks] in H.
  - injection H as <- <-. constructor.
  - destruct (createTask s _ _ (assigned k)) as [[s1 t]|] eqn:Ec; [|discriminate].
    destruct (createSubtasks s1 taskId parent subs assigned (S k))
      as [s2 [rest|]] eqn:Er; [|discriminate].
    cbn [option_map] in H. injection H as <- <-.
    cbn [length seq combine]. constructor.
    + cbn [fst snd]. now apply (subtask_created s taskId parent sub _ s1 t).
    + now apply (IH s1 (S k) s2 rest).
Qed.

Lemma Forall2_numbered (A B : Type) (P : A * nat -> B -> Prop) (l : list A) :
  forall base r,
    Forall2 P (combine l (seq base (length l))) r ->
    forall k x t,
      nth_error l k = Some x -> nth_error r k = Some t -> P (x, (base + k)%nat) t.
Proof.
  induction l as [|y l IH]; intros base r H k x t Hx Ht.
  - destruct k; discriminate.
  - cbn [length seq combine] in H. inversion H as [|? ? ? r' Hy Hrest]; subst.
    destruct k as [|k]; cbn [nth_error] in Hx, Ht.
    + injection Hx as <-. injection Ht as <-. now rewrite Nat.add_0_r.
    + replace (base + S k)%nat with (S base + k)%nat by lia.
      now apply (IH (S base) r').
Qed.

(** X24 - The subtasks of a decomposition.  Whenever [decomposeTask]
    returns, for a task number other than zero and subtasks whose
    priority and estimate print on one line: the parent returned has that
    number; one subtask was created for every entry of the assistant's
    answer, in order; the subtask created in the k-th place has the number
    the tracker assigned to it and the title of its entry, is a [todo]
    task, names the parent as its [parent_task] and is in the sprint of
    the parent. *)
Theorem decompose_creates_children lc (c : Config.t) (s : Store.t) (taskId : Z)
  (subs : list Subtask.t) (assigned : nat -> Assigned.t) (s' : Store.t)
  (parent : Task.t) (created : list Task.t) :
  taskId <> 0%Z ->
  Forall subtaskOk subs ->
  decomposeTask lc c s taskId (Some subs) assigned
  = (s', Some (parent, created)) ->
  Task.id parent = taskId
  /\ length created = length subs
  /\ forall k sub t,
       nth_error subs k = Some sub -> nth_error created k = Some t ->
       Task.id t = Assigned.number (assigned k)
       /\ Task.title t = Subtask.title sub
       /\ Task.status t = js "todo"
       /\ Task.parent_task t = VNum (Dec taskId 0)
       /\ Task.sprint_id t = Task.sprint_id parent.
Proof.
  intros Hid Hok. unfold decomposeTask.
  destruct (negb (isAIAvailable c)); [discriminate|].
  destruct (listTasks lc s Filters.none) as [tasks|] eqn:Hl; [|discriminate].
  destruct (find _ tasks) as [task|] eqn:F; [|discriminate].
  destruct (createSubtasks s taskId task subs assigned 0)
    as [s1 [made|]] eqn:Ec; [|discriminate].
  cbn [option_map]. intros [= <- <- <-].
  apply find_some in F as [Hin Hn]. apply Z.eqb_eq in Hn.
  destruct (listTasks_from_store lc s Filters.none tasks Hl task Hin)
    as (i & _ & _ & Ei).
  assert (Hsprint : Task.sprint_id task <> Some 0%Z)
    by (rewrite Ei; apply issueToTask_sprint).
  pose proof (createSubtasks_created taskId task assigned subs Hid Hsprint Hok
                s 0%nat s1 made Ec) as H2.
  split; [exact Hn|].
  split.
  { apply Forall2_length in H2. rewrite length_combine, length_seq in H2. lia. }
  intros k sub t Hsub Ht.
  exact (Forall2_numbered _ _ _ subs 0%nat made H2 k sub t Hsub Ht).
Qed.

Lemma decompose_creates_children_witness :
  exists s' parent first second,
    decomposeTask codeUnitCompare aiConfig (sampleStore [lateIssue]) 1
      (Some twoSubtasks) fromTwenty
    = (s', Some (parent, [first; second]))
    /\ Task.id first = 20%Z /\ Task.id second = 21%Z
    /\ Task.parent_task first = VNum (Dec 1 0)
    /\ Task.parent_task second = VNum (Dec 1 0)
    /\ Task.status second = js "todo".
Proof.
  destruct (decomposeTask codeUnitCompare aiConfig (sampleStore [lateIssue]) 1
              (Some twoSubtasks) fromTwenty) as [s' [[parent created]|]] eqn:E;
    [|vm_compute in E; discriminate].
  destruct (decompose_creates_children codeUnitCompare aiConfig
              (sampleStore [lateIssue]) 1 twoSubtasks fromTwenty s' parent
              created) as (_ & Hlen & Hk).
  - discriminate.
  - repeat constructor; cbv; intuition discriminate.
  - exact E.
  - destruct created as [|first [|second [|third rest]]]; try discriminate.
    exists s', parent, first, second. split; [reflexivity|].
    destruct (Hk 0%nat _ first eq_refl eq_refl) as (I0 & _ & _ & P0 & _).
    destruct (Hk 1%nat _ second eq_refl eq_refl) as (I1 & _ & S1 & P1 & _).
    repeat split; assumption.
Defined.
